(** * The scene marshalling layer of pyrednertensorflow/render_tensorflow.py

    A shallow embedding of [serialize_scene], [forward], [render] and its
    [backward] closure, together with the module-level toggle for
    correlated random numbers.  Tensors are kept as a dtype, a shape and a
    payload; the native rendering engine is opaque and only the handles that
    the Python code builds for it are modelled. *)

From Stdlib Require Import List ZArith QArith Qabs Qround Bool Lia.
Import ListNotations.
Close Scope Q_scope.

Set Implicit Arguments.

(* ================================================================== *)
(** ** Tensors *)
(* ================================================================== *)

(** A TensorFlow eager tensor: integer (32 or 64 bits), bool or float32
    payload in row-major order under a shape.  No arithmetic is ever
    performed on float payloads by this module (the engine reads them
    through raw pointers), so they are carried as rationals: the rational
    that the stored single-precision number denotes. *)
Inductive tensor : Type :=
| IntTensor (shape : list nat) (values : list Z)
| BoolTensor (shape : list nat) (values : list bool)
| FloatTensor (shape : list nat) (values : list Q).

Definition t_shape (t : tensor) : list nat :=
  match t with
  | IntTensor s _ | BoolTensor s _ | FloatTensor s _ => s
  end.

(** [tf.size]: the number of elements, the product of the dimensions. *)
Definition tf_size (t : tensor) : nat := fold_right Nat.mul 1 (t_shape t).

(** [get_tensor_dimension]: [len(t.get_shape())]. *)
Definition get_tensor_dimension (t : tensor) : nat := length (t_shape t).

(** [is_empty_tensor]: [tf.equal(tf.size(tensor), 0)]. *)
Definition is_empty_tensor (t : tensor) : bool := Nat.eqb (tf_size t) 0.

(** [__EMPTY_TENSOR = tf.constant([])]: a float32 tensor of shape (0,). *)
Definition __EMPTY_TENSOR : tensor := FloatTensor [0] [].

(** [tf.constant] applied to a Python int, bool and a pair of ints: the
    tensor it returns.  Python integers are unbounded while a tensor holds
    them on 32 or 64 bits: on an integer outside the signed 64-bit range
    [tf.constant] raises instead of returning.  [tf_constant_accepts] tells
    the integers it converts; [serialize_scene] below returns nothing when
    one of the integers it converts is refused.  ([tf.constant] applied to
    a Python float follows the class [Engine], which carries the rounding
    to single precision.) *)
Definition tf_constant_accepts (z : Z) : bool :=
  ((- 2 ^ 63 <=? z) && (z <? 2 ^ 63))%Z.
Definition tf_constant_int (z : Z) : tensor := IntTensor [] [z].
Definition tf_constant_bool (b : bool) : tensor := BoolTensor [] [b].
Definition tf_constant_pair (p : Z * Z) : tensor := IntTensor [2] [fst p; snd p].

(** Truncation toward zero, as Python's [int] does on a float. *)
Definition Qtrunc (q : Q) : Z := Z.quot (Qnum q) (Z.pos (Qden q)).

(** [int(t)], [float(t)] and [bool(t)] on a tensor: defined on one-element
    tensors only (anything else raises). *)
Definition py_int (t : tensor) : option Z :=
  if Nat.eqb (tf_size t) 1 then
    match t with
    | IntTensor _ [z] => Some z
    | BoolTensor _ [b] => Some (if b then 1%Z else 0%Z)
    | FloatTensor _ [q] => Some (Qtrunc q)
    | _ => None
    end
  else None.

Definition py_float (t : tensor) : option Q :=
  if Nat.eqb (tf_size t) 1 then
    match t with
    | IntTensor _ [z] => Some (inject_Z z)
    | BoolTensor _ [b] => Some (if b then inject_Z 1 else inject_Z 0)
    | FloatTensor _ [q] => Some q
    | _ => None
    end
  else None.

Definition py_bool (t : tensor) : option bool :=
  if Nat.eqb (tf_size t) 1 then
    match t with
    | IntTensor _ [z] => Some (negb (Z.eqb z 0))
    | BoolTensor _ [b] => Some b
    | FloatTensor _ [q] => Some (negb (Z.eqb (Qnum q) 0))
    | _ => None
    end
  else None.

(** [t.shape[k]]: raises when the rank is not above [k]. *)
Definition shape_at (t : tensor) (k : nat) : option nat := nth_error (t_shape t) k.

(** [args[i].numpy()] followed by [resolution[0]] and [resolution[1]] handed
    to a native [int] parameter: a one-dimensional integer array with at
    least two entries. *)
Definition py_resolution (t : tensor) : option (Z * Z) :=
  match t with
  | IntTensor [n] (r0 :: r1 :: rest) =>
      if Nat.eqb n (length (r0 :: r1 :: rest)) then Some (r0, r1) else None
  | _ => None
  end.

(** Python list indexing with an integer that may be negative. *)
Definition py_index {A : Type} (l : list A) (i : Z) : option A :=
  let n := Z.of_nat (length l) in
  if (0 <=? i)%Z then nth_error l (Z.to_nat i)
  else if (- n <=? i)%Z then nth_error l (Z.to_nat (n + i))
  else None.

(** [enumerate(l)]. *)
Definition enumerate {A : Type} (l : list A) : list (nat * A) :=
  combine (seq 0 (length l)) l.

(* ================================================================== *)
(** ** Closed enumerations and their tensor tags *)
(* ================================================================== *)

(** The channels listed in the docstring of [serialize_scene]. *)
Inductive Channel : Type :=
| radiance | alpha | depth | ch_position | geometry_normal | shading_normal
| uv | diffuse_reflectance_ch | specular_reflectance_ch | roughness_ch
| shape_id_ch | material_id_ch.

(** The samplers listed in the docstring of [serialize_scene]. *)
Inductive SamplerType : Type := independent | sobol.

(** The engine's camera kinds. *)
Inductive CameraType : Type := perspective | orthographic | fisheye.

Definition all_channels : list Channel :=
  [radiance; alpha; depth; ch_position; geometry_normal; shading_normal; uv;
   diffuse_reflectance_ch; specular_reflectance_ch; roughness_ch;
   shape_id_ch; material_id_ch].
Definition all_sampler_types : list SamplerType := [independent; sobol].
Definition all_camera_types : list CameraType := [perspective; orthographic; fisheye].

Definition Channel_eqb (a b : Channel) : bool :=
  match a, b with
  | radiance, radiance | alpha, alpha | depth, depth
  | ch_position, ch_position | geometry_normal, geometry_normal
  | shading_normal, shading_normal | uv, uv
  | diffuse_reflectance_ch, diffuse_reflectance_ch
  | specular_reflectance_ch, specular_reflectance_ch
  | roughness_ch, roughness_ch | shape_id_ch, shape_id_ch
  | material_id_ch, material_id_ch => true
  | _, _ => false
  end.
Definition SamplerType_eqb (a b : SamplerType) : bool :=
  match a, b with
  | independent, independent | sobol, sobol => true
  | _, _ => false
  end.
Definition CameraType_eqb (a b : CameraType) : bool :=
  match a, b with
  | perspective, perspective | orthographic, orthographic | fisheye, fisheye => true
  | _, _ => false
  end.

(** Position of the first entry of [table] equal to [x]. *)
Fixpoint table_index {A : Type} (eqb : A -> A -> bool) (table : list A) (x : A) : nat :=
  match table with
  | [] => 0
  | y :: rest => if eqb y x then 0 else S (table_index eqb rest x)
  end.

(** Modelled from the spec: the translation tables [pyredner.RednerChannels],
    [pyredner.RednerSamplerType] and [pyredner.RednerCameraType] are not part
    of the source file.  Each is a table between the flattened scalar tag
    and the engine's identifier: [asTensor] yields the position in the table
    as a scalar integer tensor, the reverse direction looks the tag up and
    fails on a tag outside the table. *)
Definition tag_asTensor {A : Type} (eqb : A -> A -> bool) (table : list A) (x : A) : tensor :=
  tf_constant_int (Z.of_nat (table_index eqb table x)).
Definition tag_lookup {A : Type} (table : list A) (t : tensor) : option A :=
  match py_int t with
  | Some z => if (0 <=? z)%Z then nth_error table (Z.to_nat z) else None
  | None => None
  end.

Definition RednerChannels_asTensor := tag_asTensor Channel_eqb all_channels.
Definition RednerChannels_asChannel := tag_lookup all_channels.
Definition RednerSamplerType_asTensor := tag_asTensor SamplerType_eqb all_sampler_types.
Definition RednerSamplerType_asSamplerType := tag_lookup all_sampler_types.
Definition RednerCameraType_asTensor := tag_asTensor CameraType_eqb all_camera_types.
Definition RednerCameraType_asCameraType := tag_lookup all_camera_types.

(* ================================================================== *)
(** ** The Python-side scene description *)
(* ================================================================== *)

(** Modelled from the spec: the classes of the [pyredner] package
    ([Scene], [Camera], [Shape], [Material], [Texture], [AreaLight],
    [EnvironmentMap]) are not part of the source file.  Their fields are
    the attributes that [serialize_scene] reads, typed after the data model:
    tensors for buffers, Python scalars where the source wraps the attribute
    in [tf.constant], [None] for an absent optional buffer. *)
Module pyredner.

Module Camera.
Record t : Type := mk {
  position : tensor;
  look_at : tensor;
  up : tensor;
  ndc_to_cam : tensor;
  cam_to_ndc : tensor;
  clip_near : Q;
  resolution : Z * Z;
  camera_type : CameraType }.
End Camera.

Module Shape.
Record t : Type := mk {
  vertices : tensor;
  indices : tensor;
  uvs : option tensor;
  normals : option tensor;
  material_id : Z;
  light_id : Z }.
(** The attribute assignment [shape.light_id = v]. *)
Definition set_light_id (s : t) (v : Z) : t :=
  mk (vertices s) (indices s) (uvs s) (normals s) (material_id s) v.
End Shape.

Module Texture.
Record t : Type := mk {
  mipmap : tensor;
  uv_scale : tensor }.
End Texture.

Module Material.
Record t : Type := mk {
  diffuse_reflectance : Texture.t;
  specular_reflectance : Texture.t;
  roughness : Texture.t;
  two_sided : bool }.
End Material.

Module AreaLight.
Record t : Type := mk {
  shape_id : Z;
  intensity : tensor;
  two_sided : bool }.
End AreaLight.

Module EnvironmentMap.
Record t : Type := mk {
  values : Texture.t;
  env_to_world : tensor;
  world_to_env : tensor;
  sample_cdf_ys : tensor;
  sample_cdf_xs : tensor;
  pdf_norm : tensor }.
End EnvironmentMap.

(** Shape records are mutable Python objects: a scene lists references to
    them, and the objects live in a store shared with the caller. *)
Definition ref : Type := nat.
Definition shape_store : Type := ref -> Shape.t.

Definition store_set (st : shape_store) (r : ref) (s : Shape.t) : shape_store :=
  fun r' => if Nat.eqb r' r then s else st r'.

Module Scene.
Record t : Type := mk {
  camera : Camera.t;
  shapes : list ref;
  materials : list Material.t;
  area_lights : list AreaLight.t;
  envmap : option EnvironmentMap.t }.
End Scene.

End pyredner.

(** [num_samples]: an integer, or a tuple of two integers. *)
Inductive NumSamples : Type :=
| Samples (n : Z)
| SamplesPair (fwd bwd : Z).

Definition tf_constant_num_samples (n : NumSamples) : tensor :=
  match n with
  | Samples z => tf_constant_int z
  | SamplesPair a b => tf_constant_pair (a, b)
  end.

(* ================================================================== *)
(** ** Handles of the native engine *)
(* ================================================================== *)

(** Modelled from the spec: the [redner] extension module is the opaque
    rendering engine and is not part of the source file.  Each handle is a
    record of the constructor arguments in the order in which the source
    passes them; raw pointers are addresses, [0] being the null pointer;
    extents taken from tensor shapes are natural numbers.  The size
    accessors return (width, height, number of levels), the order in which
    [backward] hands [size[0]], [size[1]], [size[2]] back to the texture
    constructor; [has_uvs] and [has_normals] test the stored pointer against
    null. *)
Module redner.

Module Camera.
Record t : Type := mk {
  width : Z;
  height : Z;
  position : Z;
  look_at : Z;
  up : Z;
  ndc_to_cam : Z;
  cam_to_ndc : Z;
  clip_near : Q;
  camera_type : CameraType }.
End Camera.

Module Shape.
Record t : Type := mk {
  vertices : Z;
  indices : Z;
  uvs : Z;
  normals : Z;
  num_vertices : nat;
  num_triangles : nat;
  material_id : Z;
  light_id : Z }.
Definition has_uvs (s : t) : bool := negb (Z.eqb (uvs s) 0).
Definition has_normals (s : t) : bool := negb (Z.eqb (normals s) 0).
End Shape.

Module Texture3.
Record t : Type := mk {
  texels : Z;
  width : nat;
  height : nat;
  num_levels : nat;
  uv_scale : Z }.
End Texture3.

Module Texture1.
Record t : Type := mk {
  texels : Z;
  width : nat;
  height : nat;
  num_levels : nat;
  uv_scale : Z }.
End Texture1.

Module Material.
Record t : Type := mk {
  diffuse_reflectance : Texture3.t;
  specular_reflectance : Texture3.t;
  roughness : Texture1.t;
  two_sided : bool }.
Definition get_diffuse_size (m : t) : nat * nat * nat :=
  let d := diffuse_reflectance m in
  (Texture3.width d, Texture3.height d, Texture3.num_levels d).
Definition get_specular_size (m : t) : nat * nat * nat :=
  let s := specular_reflectance m in
  (Texture3.width s, Texture3.height s, Texture3.num_levels s).
Definition get_roughness_size (m : t) : nat * nat * nat :=
  let r := roughness m in
  (Texture1.width r, Texture1.height r, Texture1.num_levels r).
End Material.

Module AreaLight.
Record t : Type := mk {
  shape_id : Z;
  intensity : Z;
  two_sided : bool }.
End AreaLight.

Module EnvironmentMap.
Record t : Type := mk {
  values : Texture3.t;
  env_to_world : Z;
  world_to_env : Z;
  sample_cdf_ys : Z;
  sample_cdf_xs : Z;
  pdf_norm : Q }.
Definition get_size (e : t) : nat * nat * nat :=
  let v := values e in
  (Texture3.width v, Texture3.height v, Texture3.num_levels v).
End EnvironmentMap.

Module Scene.
Record t : Type := mk {
  camera : Camera.t;
  shapes : list Shape.t;
  materials : list Material.t;
  area_lights : list AreaLight.t;
  envmap : option EnvironmentMap.t;
  use_gpu : bool;
  gpu_index : Z;
  use_primary_edge_sampling : tensor;
  use_secondary_edge_sampling : tensor }.
End Scene.

Module RenderOptions.
Record t : Type := mk {
  seed : Z;
  num_samples : Z;
  max_bounces : Z;
  channels : list Channel;
  sampler_type : SamplerType }.
(** The attribute assignments [options.seed = v] and
    [options.num_samples = v] on the shared options object. *)
Definition set_seed (o : t) (v : Z) : t :=
  mk v (num_samples o) (max_bounces o) (channels o) (sampler_type o).
Definition set_num_samples (o : t) (v : Z) : t :=
  mk (seed o) v (max_bounces o) (channels o) (sampler_type o).
End RenderOptions.

Module DCamera.
Record t : Type := mk {
  position : Z;
  look_at : Z;
  up : Z;
  ndc_to_cam : Z;
  cam_to_ndc : Z }.
End DCamera.

Module DShape.
Record t : Type := mk {
  vertices : Z;
  uvs : Z;
  normals : Z }.
End DShape.

Module DMaterial.
Record t : Type := mk {
  diffuse_reflectance : Texture3.t;
  specular_reflectance : Texture3.t;
  roughness : Texture1.t }.
End DMaterial.

Module DAreaLight.
Record t : Type := mk { intensity : Z }.
End DAreaLight.

Module DEnvironmentMap.
Record t : Type := mk {
  values : Texture3.t;
  world_to_env : Z }.
End DEnvironmentMap.

Module DScene.
Record t : Type := mk {
  camera : DCamera.t;
  shapes : list DShape.t;
  materials : list DMaterial.t;
  area_lights : list DAreaLight.t;
  envmap : option DEnvironmentMap.t;
  use_gpu : bool;
  gpu_index : Z }.
End DScene.

(** One invocation of [redner.render(scene, options, rendered_image,
    d_rendered_image, d_scene, debug_image)]: the handles and the state of
    the options object at the time of the call. *)
Module Call.
Record t : Type := mk {
  scene : Scene.t;
  options : RenderOptions.t;
  rendered_image : Z;
  d_rendered_image : Z;
  d_scene : option DScene.t;
  debug_image : Z }.
End Call.

End redner.

(** What this module needs from its surroundings: the address of a tensor's
    buffer ([pyredner.data_ptr]), the device switch ([pyredner.get_use_gpu]),
    the engine's count of image channels ([redner.compute_num_channels]),
    and the rounding of a Python float to the single-precision number that
    TensorFlow stores for it ([float32]; nothing is assumed about it). *)
Class Engine : Type := {
  data_ptr : tensor -> Z;
  get_use_gpu : bool;
  compute_num_channels : list Channel -> nat;
  float32 : Q -> Q }.

(** [tf.constant] applied to a Python float: a float32 scalar, which holds
    the float rounded to single precision; [float(t)] reads the rounded
    value back, not the float that was given. *)
Definition tf_constant_float {E : Engine} (q : Q) : tensor := FloatTensor [] [float32 q].

(* ================================================================== *)
(** ** Module state *)
(* ================================================================== *)

(** The attributes that [forward] stores on the context object, all at
    once, after the engine call. *)
Record ForwardState : Type := mkForwardState {
  ctx_shapes : list redner.Shape.t;
  ctx_materials : list redner.Material.t;
  ctx_area_lights : list redner.AreaLight.t;
  ctx_envmap : option redner.EnvironmentMap.t;
  ctx_scene : redner.Scene.t;
  ctx_options : redner.RenderOptions.t;
  ctx_num_samples : Z * Z;
  ctx_num_channels : Z }.

(** [__ctx = Context()]: an object whose attributes appear when first
    assigned. *)
Record Context : Type := mkContext {
  ctx_pyredner_scene : option pyredner.Scene.t;
  ctx_forward : option ForwardState }.

(** The module globals, the store of shape objects shared with the caller,
    and the engine invocations made so far, oldest first. *)
Record World : Type := mkWorld {
  use_correlated_random_number : bool;
  __ctx : Context;
  shape_objects : pyredner.shape_store;
  engine_calls : list redner.Call.t }.

(** [set_use_correlated_random_number]: the body declares the global and
    then assigns [v] to the name [use_gpu], which is local to the call; no
    module state changes. *)
Definition set_use_correlated_random_number (v : bool) (w : World) : World :=
  let use_gpu := v in
  w.

Definition get_use_correlated_random_number (w : World) : bool :=
  use_correlated_random_number w.

(* ================================================================== *)
(** ** serialize_scene *)
(* ================================================================== *)

(** The field a flattened slot comes from, as named by the trailing
    comments of the source. *)
Inductive slot : Type :=
| s_num_shapes | s_num_materials | s_num_lights
| s_cam_position | s_cam_look_at | s_cam_up | s_ndc_to_cam | s_cam_to_ndc
| s_clip_near | s_resolution | s_camera_type
| s_vertices | s_indices | s_uvs | s_normals | s_material_id | s_light_id
| s_diffuse | s_diffuse_uv_scale | s_specular | s_specular_uv_scale
| s_roughness | s_roughness_uv_scale | s_material_two_sided
| s_light_shape_id | s_intensity | s_light_two_sided
| s_env_values | s_env_uv_scale | s_env_to_world | s_world_to_env
| s_sample_cdf_ys | s_sample_cdf_xs | s_pdf_norm
| s_num_samples | s_max_bounces | s_num_channels | s_channel
| s_sampler_type | s_use_primary_edge_sampling | s_use_secondary_edge_sampling.

(** [args.append(x)], with the slot it fills. *)
Definition append (args : list (slot * tensor)) (s : slot) (x : tensor) :
  list (slot * tensor) := args ++ [(s, x)].

(** The loop [for light_id, light in enumerate(scene.area_lights)] that
    writes [scene.shapes[light.shape_id].light_id = light_id]; an index out
    of range raises. *)
Definition annotate_light (shapes : list pyredner.ref)
    (acc : option pyredner.shape_store) (il : nat * pyredner.AreaLight.t) :
    option pyredner.shape_store :=
  match acc with
  | None => None
  | Some st =>
      match py_index shapes (pyredner.AreaLight.shape_id (snd il)) with
      | Some r =>
          Some (pyredner.store_set st r
                  (pyredner.Shape.set_light_id (st r) (Z.of_nat (fst il))))
      | None => None
      end
  end.

Definition annotate_lights (scene : pyredner.Scene.t) (st : pyredner.shape_store) :
    option pyredner.shape_store :=
  fold_left (annotate_light (pyredner.Scene.shapes scene))
            (enumerate (pyredner.Scene.area_lights scene)) (Some st).

Definition append_shape (args : list (slot * tensor)) (shape : pyredner.Shape.t) :=
  let args := append args s_vertices (pyredner.Shape.vertices shape) in
  let args := append args s_indices (pyredner.Shape.indices shape) in
  let args := match pyredner.Shape.uvs shape with
              | None => append args s_uvs __EMPTY_TENSOR
              | Some t => append args s_uvs t
              end in
  let args := match pyredner.Shape.normals shape with
              | None => append args s_normals __EMPTY_TENSOR
              | Some t => append args s_normals t
              end in
  let args := append args s_material_id (tf_constant_int (pyredner.Shape.material_id shape)) in
  let args := append args s_light_id (tf_constant_int (pyredner.Shape.light_id shape)) in
  args.

Definition append_material (args : list (slot * tensor)) (material : pyredner.Material.t) :=
  let d := pyredner.Material.diffuse_reflectance material in
  let s := pyredner.Material.specular_reflectance material in
  let r := pyredner.Material.roughness material in
  let args := append args s_diffuse (pyredner.Texture.mipmap d) in
  let args := append args s_diffuse_uv_scale (pyredner.Texture.uv_scale d) in
  let args := append args s_specular (pyredner.Texture.mipmap s) in
  let args := append args s_specular_uv_scale (pyredner.Texture.uv_scale s) in
  let args := append args s_roughness (pyredner.Texture.mipmap r) in
  let args := append args s_roughness_uv_scale (pyredner.Texture.uv_scale r) in
  let args := append args s_material_two_sided
                (tf_constant_bool (pyredner.Material.two_sided material)) in
  args.

Definition append_light (args : list (slot * tensor)) (light : pyredner.AreaLight.t) :=
  let args := append args s_light_shape_id (tf_constant_int (pyredner.AreaLight.shape_id light)) in
  let args := append args s_intensity (pyredner.AreaLight.intensity light) in
  let args := append args s_light_two_sided
                (tf_constant_bool (pyredner.AreaLight.two_sided light)) in
  args.

Definition append_envmap (args : list (slot * tensor))
    (envmap : option pyredner.EnvironmentMap.t) :=
  match envmap with
  | Some e =>
      let args := append args s_env_values
                    (pyredner.Texture.mipmap (pyredner.EnvironmentMap.values e)) in
      let args := append args s_env_uv_scale
                    (pyredner.Texture.uv_scale (pyredner.EnvironmentMap.values e)) in
      let args := append args s_env_to_world (pyredner.EnvironmentMap.env_to_world e) in
      let args := append args s_world_to_env (pyredner.EnvironmentMap.world_to_env e) in
      let args := append args s_sample_cdf_ys (pyredner.EnvironmentMap.sample_cdf_ys e) in
      let args := append args s_sample_cdf_xs (pyredner.EnvironmentMap.sample_cdf_xs e) in
      let args := append args s_pdf_norm (pyredner.EnvironmentMap.pdf_norm e) in
      args
  | None =>
      let args := append args s_env_values __EMPTY_TENSOR in
      let args := append args s_env_uv_scale __EMPTY_TENSOR in
      let args := append args s_env_to_world __EMPTY_TENSOR in
      let args := append args s_world_to_env __EMPTY_TENSOR in
      let args := append args s_sample_cdf_ys __EMPTY_TENSOR in
      let args := append args s_sample_cdf_xs __EMPTY_TENSOR in
      let args := append args s_pdf_norm __EMPTY_TENSOR in
      args
  end.

(** The Python integers that the body of [serialize_scene] hands to
    [tf.constant], in the order of the calls: the two entries of the
    resolution, the material and light index of every shape, the shape
    index of every light, the sample count (or the two counts of a pair)
    and the number of bounces.  The four list lengths are left out: the
    length of a Python list always fits. *)
Definition tf_constant_arguments (st : pyredner.shape_store) (scene : pyredner.Scene.t)
    (num_samples : NumSamples) (max_bounces : Z) : list Z :=
  let cam := pyredner.Scene.camera scene in
  [fst (pyredner.Camera.resolution cam); snd (pyredner.Camera.resolution cam)]
  ++ flat_map (fun shape => [pyredner.Shape.material_id shape; pyredner.Shape.light_id shape])
              (map st (pyredner.Scene.shapes scene))
  ++ map pyredner.AreaLight.shape_id (pyredner.Scene.area_lights scene)
  ++ match num_samples with
     | Samples z => [z]
     | SamplesPair a b => [a; b]
     end
  ++ [max_bounces].

(** The body of [serialize_scene] after the light loop: the argument list,
    each entry paired with the slot it fills, when every [tf.constant]
    returns.  [st] is the store of shape objects as the light loop left
    it. *)
Definition serialize_scene_slots {E : Engine}
    (st : pyredner.shape_store) (scene : pyredner.Scene.t)
    (num_samples : NumSamples) (max_bounces : Z) (channels : list Channel)
    (sampler_type : SamplerType)
    (use_primary_edge_sampling use_secondary_edge_sampling : bool) :
    list (slot * tensor) :=
  let cam := pyredner.Scene.camera scene in
  let num_shapes := length (pyredner.Scene.shapes scene) in
  let num_materials := length (pyredner.Scene.materials scene) in
  let num_lights := length (pyredner.Scene.area_lights scene) in
  let num_channels := length channels in
  let args := [] in
  let args := append args s_num_shapes (tf_constant_int (Z.of_nat num_shapes)) in
  let args := append args s_num_materials (tf_constant_int (Z.of_nat num_materials)) in
  let args := append args s_num_lights (tf_constant_int (Z.of_nat num_lights)) in
  let args := append args s_cam_position (pyredner.Camera.position cam) in
  let args := append args s_cam_look_at (pyredner.Camera.look_at cam) in
  let args := append args s_cam_up (pyredner.Camera.up cam) in
  let args := append args s_ndc_to_cam (pyredner.Camera.ndc_to_cam cam) in
  let args := append args s_cam_to_ndc (pyredner.Camera.cam_to_ndc cam) in
  let args := append args s_clip_near (tf_constant_float (pyredner.Camera.clip_near cam)) in
  let args := append args s_resolution (tf_constant_pair (pyredner.Camera.resolution cam)) in
  let args := append args s_camera_type
                (RednerCameraType_asTensor (pyredner.Camera.camera_type cam)) in
  let args := fold_left append_shape (map st (pyredner.Scene.shapes scene)) args in
  let args := fold_left append_material (pyredner.Scene.materials scene) args in
  let args := fold_left append_light (pyredner.Scene.area_lights scene) args in
  let args := append_envmap args (pyredner.Scene.envmap scene) in
  let args := append args s_num_samples (tf_constant_num_samples num_samples) in
  let args := append args s_max_bounces (tf_constant_int max_bounces) in
  let args := append args s_num_channels (tf_constant_int (Z.of_nat num_channels)) in
  let args := fold_left (fun args ch => append args s_channel (RednerChannels_asTensor ch))
                        channels args in
  let args := append args s_sampler_type (RednerSamplerType_asTensor sampler_type) in
  let args := append args s_use_primary_edge_sampling
                (tf_constant_bool use_primary_edge_sampling) in
  let args := append args s_use_secondary_edge_sampling
                (tf_constant_bool use_secondary_edge_sampling) in
  args.

(** [serialize_scene]: records the scene on the context, runs the light
    loop on the shared shape objects, and returns the argument list.  When
    the light loop raises, or when [tf.constant] refuses one of the integers
    it is handed, there is no result; what had been written by then is not
    tracked. *)
Definition serialize_scene {E : Engine} (scene : pyredner.Scene.t)
    (num_samples : NumSamples) (max_bounces : Z) (channels : list Channel)
    (sampler_type : SamplerType)
    (use_primary_edge_sampling use_secondary_edge_sampling : bool)
    (w : World) : option (list tensor * World) :=
  let ctx := mkContext (Some scene) (ctx_forward (__ctx w)) in
  match annotate_lights scene (shape_objects w) with
  | None => None
  | Some st =>
      if forallb tf_constant_accepts
           (tf_constant_arguments st scene num_samples max_bounces)
      then
        let args := serialize_scene_slots st scene num_samples max_bounces channels
                      sampler_type use_primary_edge_sampling use_secondary_edge_sampling in
        Some (map snd args,
              mkWorld (use_correlated_random_number w) ctx st (engine_calls w))
      else None
  end.

(* ================================================================== *)
(** ** forward *)
(* ================================================================== *)

(** Unpacking reads the argument list through a running index: a
    computation sees the list and [current_index], and either raises or
    yields a value and the advanced index. *)
Definition Unpack (A : Type) : Type := list tensor -> nat -> option (A * nat).

Definition ret {A : Type} (x : A) : Unpack A := fun _ i => Some (x, i).

Definition bind {A B : Type} (c : Unpack A) (k : A -> Unpack B) : Unpack B :=
  fun args i =>
    match c args i with
    | Some (x, j) => k x args j
    | None => None
    end.

Notation "x <- c ;; k" := (bind c (fun x => k))
  (at level 61, c at next level, right associativity).

(** A conversion that may raise. *)
Definition lift {A : Type} (o : option A) : Unpack A :=
  fun _ i => match o with Some x => Some (x, i) | None => None end.

(** [x = args[current_index]; current_index += 1]. *)
Definition next_arg : Unpack tensor :=
  fun args i => match nth_error args i with Some t => Some (t, S i) | None => None end.

(** [args[current_index]], the index left where it is. *)
Definition peek_arg : Unpack tensor :=
  fun args i => match nth_error args i with Some t => Some (t, i) | None => None end.

(** [current_index += n]. *)
Definition skip (n : nat) : Unpack unit := fun _ i => Some (tt, i + n).

(** [for _ in range(n)] around a body whose result is appended to a list. *)
Fixpoint unpack_loop {A : Type} (n : nat) (body : Unpack A) : Unpack (list A) :=
  match n with
  | O => ret []
  | S n' => x <- body ;; xs <- unpack_loop n' body ;; ret (x :: xs)
  end.

(** [np.zeros(shape, dtype=np.float32)] turned into a tensor. *)
Definition np_zeros (shape : list nat) : tensor :=
  FloatTensor shape (repeat (inject_Z 0) (fold_right Nat.mul 1 shape)).

Section Marshalling.
Context {E : Engine}.

(** The camera block; the resolution pair is kept for the image buffer. *)
Definition unpack_camera : Unpack (redner.Camera.t * (Z * Z)) :=
  cam_position <- next_arg ;;
  cam_look_at <- next_arg ;;
  cam_up <- next_arg ;;
  ndc_to_cam <- next_arg ;;
  cam_to_ndc <- next_arg ;;
  a_clip_near <- next_arg ;;
  clip_near <- lift (py_float a_clip_near) ;;
  a_resolution <- next_arg ;;
  resolution <- lift (py_resolution a_resolution) ;;
  a_camera_type <- next_arg ;;
  camera_type <- lift (RednerCameraType_asCameraType a_camera_type) ;;
  ret (redner.Camera.mk (snd resolution) (fst resolution)
         (data_ptr cam_position) (data_ptr cam_look_at) (data_ptr cam_up)
         (data_ptr ndc_to_cam) (data_ptr cam_to_ndc) clip_near camera_type,
       resolution).

(** One iteration of the shape loop.  Every argument is a tensor, so the
    [is not None] tests of the source always take the pointer. *)
Definition unpack_shape : Unpack redner.Shape.t :=
  vertices <- next_arg ;;
  indices <- next_arg ;;
  uvs <- next_arg ;;
  normals <- next_arg ;;
  a_material_id <- next_arg ;;
  material_id <- lift (py_int a_material_id) ;;
  a_light_id <- next_arg ;;
  light_id <- lift (py_int a_light_id) ;;
  num_vertices <- lift (shape_at vertices 0) ;;
  num_triangles <- lift (shape_at indices 0) ;;
  ret (redner.Shape.mk (data_ptr vertices) (data_ptr indices)
         (data_ptr uvs) (data_ptr normals)
         num_vertices num_triangles material_id light_id).

(** The rank test on a three-channel texture (diffuse and specular). *)
Definition make_texture3 (texels uv_scale : tensor) : option redner.Texture3.t :=
  if Nat.eqb (get_tensor_dimension texels) 1 then
    Some (redner.Texture3.mk (data_ptr texels) 0 0 0 (data_ptr uv_scale))
  else
    match shape_at texels 2, shape_at texels 1, shape_at texels 0 with
    | Some width, Some height, Some num_levels =>
        Some (redner.Texture3.mk (data_ptr texels) width height num_levels
                (data_ptr uv_scale))
    | _, _, _ => None
    end.

(** The rank test on the one-channel roughness texture, with its
    assertion. *)
Definition make_texture1 (texels uv_scale : tensor) : option redner.Texture1.t :=
  if Nat.eqb (get_tensor_dimension texels) 1 then
    Some (redner.Texture1.mk (data_ptr texels) 0 0 0 (data_ptr uv_scale))
  else if Nat.eqb (get_tensor_dimension texels) 4 then
    match shape_at texels 2, shape_at texels 1, shape_at texels 0 with
    | Some width, Some height, Some num_levels =>
        Some (redner.Texture1.mk (data_ptr texels) width height num_levels
                (data_ptr uv_scale))
    | _, _, _ => None
    end
  else None.

Definition unpack_material : Unpack redner.Material.t :=
  diffuse_reflectance <- next_arg ;;
  diffuse_uv_scale <- next_arg ;;
  specular_reflectance <- next_arg ;;
  specular_uv_scale <- next_arg ;;
  roughness <- next_arg ;;
  roughness_uv_scale <- next_arg ;;
  a_two_sided <- next_arg ;;
  two_sided <- lift (py_bool a_two_sided) ;;
  diffuse <- lift (make_texture3 diffuse_reflectance diffuse_uv_scale) ;;
  specular <- lift (make_texture3 specular_reflectance specular_uv_scale) ;;
  rough <- lift (make_texture1 roughness roughness_uv_scale) ;;
  ret (redner.Material.mk diffuse specular rough two_sided).

Definition unpack_light : Unpack redner.AreaLight.t :=
  a_shape_id <- next_arg ;;
  shape_id <- lift (py_int a_shape_id) ;;
  intensity <- next_arg ;;
  a_two_sided <- next_arg ;;
  two_sided <- lift (py_bool a_two_sided) ;;
  ret (redner.AreaLight.mk shape_id (data_ptr intensity) two_sided).

(** The environment map block: rebuilt when its first argument is not
    empty, skipped as seven slots otherwise. *)
Definition unpack_envmap : Unpack (option redner.EnvironmentMap.t) :=
  first <- peek_arg ;;
  if negb (is_empty_tensor first) then
    values <- next_arg ;;
    envmap_uv_scale <- next_arg ;;
    env_to_world <- next_arg ;;
    world_to_env <- next_arg ;;
    sample_cdf_ys <- next_arg ;;
    sample_cdf_xs <- next_arg ;;
    a_pdf_norm <- next_arg ;;
    pdf_norm <- lift (py_float a_pdf_norm) ;;
    width <- lift (shape_at values 2) ;;
    height <- lift (shape_at values 1) ;;
    num_levels <- lift (shape_at values 0) ;;
    ret (Some (redner.EnvironmentMap.mk
                 (redner.Texture3.mk (data_ptr values) width height num_levels
                    (data_ptr envmap_uv_scale))
                 (data_ptr env_to_world) (data_ptr world_to_env)
                 (data_ptr sample_cdf_ys) (data_ptr sample_cdf_xs) pdf_norm))
  else
    _ <- skip 7 ;;
    ret None.

Definition unpack_channel : Unpack Channel :=
  ch <- next_arg ;;
  lift (RednerChannels_asChannel ch).

(** Everything [forward] computes from its arguments before the engine is
    called. *)
Record Unpacked : Type := mkUnpacked {
  u_resolution : Z * Z;
  u_state : ForwardState }.

Definition unpack_arguments (seed : Z) : Unpack Unpacked :=
  a_num_shapes <- next_arg ;;
  num_shapes <- lift (py_int a_num_shapes) ;;
  a_num_materials <- next_arg ;;
  num_materials <- lift (py_int a_num_materials) ;;
  a_num_lights <- next_arg ;;
  num_lights <- lift (py_int a_num_lights) ;;
  cam <- unpack_camera ;;
  shapes <- unpack_loop (Z.to_nat num_shapes) unpack_shape ;;
  materials <- unpack_loop (Z.to_nat num_materials) unpack_material ;;
  area_lights <- unpack_loop (Z.to_nat num_lights) unpack_light ;;
  envmap <- unpack_envmap ;;
  a_num_samples <- next_arg ;;
  num_samples <- lift (py_int a_num_samples) ;;
  a_max_bounces <- next_arg ;;
  max_bounces <- lift (py_int a_max_bounces) ;;
  a_num_channels <- next_arg ;;
  __num_channels <- lift (py_int a_num_channels) ;;
  channels <- unpack_loop (Z.to_nat __num_channels) unpack_channel ;;
  a_sampler_type <- next_arg ;;
  sampler_type <- lift (RednerSamplerType_asSamplerType a_sampler_type) ;;
  use_primary_edge_sampling <- next_arg ;;
  use_secondary_edge_sampling <- next_arg ;;
  let scene := redner.Scene.mk (fst cam) shapes materials area_lights envmap
                 get_use_gpu (-1) use_primary_edge_sampling
                 use_secondary_edge_sampling in
  let num_samples := (num_samples, num_samples) in
  let options := redner.RenderOptions.mk seed (fst num_samples) max_bounces
                   channels sampler_type in
  ret (mkUnpacked (snd cam)
         (mkForwardState shapes materials area_lights envmap scene options
            num_samples __num_channels)).

(** [forward(seed, *args)]: unpack, allocate the image, call the engine
    once, store the retained state on the context, return the image
    buffer.  What the engine writes into the buffer is not modelled. *)
Definition forward (seed : Z) (args : list tensor) (w : World) :
    option (tensor * World) :=
  match unpack_arguments seed args 0 with
  | None => None
  | Some (u, _) =>
      let resolution := u_resolution u in
      let st := u_state u in
      let num_channels := compute_num_channels (redner.RenderOptions.channels (ctx_options st)) in
      if ((0 <=? fst resolution) && (0 <=? snd resolution))%Z then
        let rendered_image :=
          np_zeros [Z.to_nat (fst resolution); Z.to_nat (snd resolution); num_channels] in
        let call := redner.Call.mk (ctx_scene st) (ctx_options st)
                      (data_ptr rendered_image) 0 None 0 in
        let ctx := mkContext (ctx_pyredner_scene (__ctx w)) (Some st) in
        Some (rendered_image,
              mkWorld (use_correlated_random_number w) ctx (shape_objects w)
                (engine_calls w ++ [call]))
      else None
  end.

(* ================================================================== *)
(** ** render and its backward closure *)
(* ================================================================== *)

(** [size[0]], [size[1]], [size[2]] of a size triple. *)
Definition size0 (s : nat * nat * nat) : nat := fst (fst s).
Definition size1 (s : nat * nat * nat) : nat := snd (fst s).
Definition size2 (s : nat * nat * nat) : nat := snd s.

(** The buffers allocated by one iteration of the shape loop. *)
Definition d_vertices_of (shape : redner.Shape.t) : tensor :=
  np_zeros [redner.Shape.num_vertices shape; 3].
Definition d_uvs_of (shape : redner.Shape.t) : option tensor :=
  if redner.Shape.has_uvs shape
  then Some (np_zeros [redner.Shape.num_vertices shape; 2]) else None.
Definition d_normals_of (shape : redner.Shape.t) : option tensor :=
  if redner.Shape.has_normals shape
  then Some (np_zeros [redner.Shape.num_vertices shape; 3]) else None.
Definition d_shape_of (shape : redner.Shape.t) : redner.DShape.t :=
  redner.DShape.mk (data_ptr (d_vertices_of shape))
    (match d_uvs_of shape with Some t => data_ptr t | None => 0%Z end)
    (match d_normals_of shape with Some t => data_ptr t | None => 0%Z end).

(** The buffers allocated by one iteration of the material loop. *)
Definition d_diffuse_of (material : redner.Material.t) : tensor :=
  let diffuse_size := redner.Material.get_diffuse_size material in
  if Nat.eqb (size0 diffuse_size) 0 then np_zeros [3]
  else np_zeros [size2 diffuse_size; size1 diffuse_size; size0 diffuse_size; 3].
Definition d_specular_of (material : redner.Material.t) : tensor :=
  let specular_size := redner.Material.get_specular_size material in
  if Nat.eqb (size0 specular_size) 0 then np_zeros [3]
  else np_zeros [size2 specular_size; size1 specular_size; size0 specular_size; 3].
Definition d_roughness_of (material : redner.Material.t) : tensor :=
  let roughness_size := redner.Material.get_roughness_size material in
  if Nat.eqb (size0 roughness_size) 0 then np_zeros [1]
  else np_zeros [size2 roughness_size; size1 roughness_size; size0 roughness_size; 1].
Definition d_material_of (material : redner.Material.t) : redner.DMaterial.t :=
  let diffuse_size := redner.Material.get_diffuse_size material in
  let specular_size := redner.Material.get_specular_size material in
  let roughness_size := redner.Material.get_roughness_size material in
  let d_diffuse_uv_scale := np_zeros [2] in
  let d_specular_uv_scale := np_zeros [2] in
  let d_roughness_uv_scale := np_zeros [2] in
  redner.DMaterial.mk
    (redner.Texture3.mk (data_ptr (d_diffuse_of material))
       (size0 diffuse_size) (size1 diffuse_size) (size2 diffuse_size)
       (data_ptr d_diffuse_uv_scale))
    (redner.Texture3.mk (data_ptr (d_specular_of material))
       (size0 specular_size) (size1 specular_size) (size2 specular_size)
       (data_ptr d_specular_uv_scale))
    (redner.Texture1.mk (data_ptr (d_roughness_of material))
       (size0 roughness_size) (size1 roughness_size) (size2 roughness_size)
       (data_ptr d_roughness_uv_scale)).

(** The buffer allocated by one iteration of the light loop. *)
Definition d_intensity_of (light : redner.AreaLight.t) : tensor := np_zeros [3].

(** The buffers of the environment map. *)
Definition d_envmap_values_of (envmap : redner.EnvironmentMap.t) : tensor :=
  let size := redner.EnvironmentMap.get_size envmap in
  np_zeros [size2 size; size1 size; size0 size; 3].
Definition d_world_to_env_of (envmap : redner.EnvironmentMap.t) : tensor :=
  np_zeros [4; 4].
Definition d_envmap_of (envmap : redner.EnvironmentMap.t) : redner.DEnvironmentMap.t :=
  let size := redner.EnvironmentMap.get_size envmap in
  let d_envmap_uv_scale := np_zeros [2] in
  redner.DEnvironmentMap.mk
    (redner.Texture3.mk (data_ptr (d_envmap_values_of envmap))
       (size0 size) (size1 size) (size2 size) (data_ptr d_envmap_uv_scale))
    (data_ptr (d_world_to_env_of envmap)).

(** [ret_list.append(x)]; [None] is the marker for "no gradient". *)
Definition ret_append (ret_list : list (option tensor)) (x : option tensor) :
  list (option tensor) := ret_list ++ [x].

(** The three index loops that copy the per-entity buffers into the
    returned list; [l[i]] raises past the end of [l].  The light loop
    appends [d_intensity_list[i].cpu()], a host copy of the buffer with the
    same shape. *)
Definition ret_shape (d_vertices_list : list tensor)
    (d_uvs_list d_normals_list : list (option tensor))
    (acc : option (list (option tensor))) (i : nat) : option (list (option tensor)) :=
  match acc, nth_error d_vertices_list i, nth_error d_uvs_list i,
        nth_error d_normals_list i with
  | Some ret_list, Some d_vertices, Some d_uvs, Some d_normals =>
      let ret_list := ret_append ret_list (Some d_vertices) in
      let ret_list := ret_append ret_list None in
      let ret_list := ret_append ret_list d_uvs in
      let ret_list := ret_append ret_list d_normals in
      let ret_list := ret_append ret_list None in
      let ret_list := ret_append ret_list None in
      Some ret_list
  | _, _, _, _ => None
  end.

Definition ret_material (d_diffuse_list d_specular_list d_roughness_list : list tensor)
    (acc : option (list (option tensor))) (i : nat) : option (list (option tensor)) :=
  match acc, nth_error d_diffuse_list i, nth_error d_specular_list i,
        nth_error d_roughness_list i with
  | Some ret_list, Some d_diffuse, Some d_specular, Some d_roughness =>
      let ret_list := ret_append ret_list (Some d_diffuse) in
      let ret_list := ret_append ret_list None in
      let ret_list := ret_append ret_list (Some d_specular) in
      let ret_list := ret_append ret_list None in
      let ret_list := ret_append ret_list (Some d_roughness) in
      let ret_list := ret_append ret_list None in
      let ret_list := ret_append ret_list None in
      Some ret_list
  | _, _, _, _ => None
  end.

Definition ret_light (d_intensity_list : list tensor)
    (acc : option (list (option tensor))) (i : nat) : option (list (option tensor)) :=
  match acc, nth_error d_intensity_list i with
  | Some ret_list, Some d_intensity =>
      let ret_list := ret_append ret_list None in
      let ret_list := ret_append ret_list (Some d_intensity) in
      let ret_list := ret_append ret_list None in
      Some ret_list
  | _, _ => None
  end.

Definition ret_envmap (ret_list : list (option tensor))
    (envmap : option redner.EnvironmentMap.t) : list (option tensor) :=
  match envmap with
  | Some e =>
      let ret_list := ret_append ret_list (Some (d_envmap_values_of e)) in
      let ret_list := ret_append ret_list None in
      let ret_list := ret_append ret_list None in
      let ret_list := ret_append ret_list (Some (d_world_to_env_of e)) in
      let ret_list := ret_append ret_list None in
      let ret_list := ret_append ret_list None in
      let ret_list := ret_append ret_list None in
      ret_list
  | None =>
      let ret_list := ret_append ret_list None in
      let ret_list := ret_append ret_list None in
      let ret_list := ret_append ret_list None in
      let ret_list := ret_append ret_list None in
      let ret_list := ret_append ret_list None in
      let ret_list := ret_append ret_list None in
      let ret_list := ret_append ret_list None in
      ret_list
  end.

(** The assembly of [ret_list] from the retained state. *)
Definition assemble_ret_list (ctx : ForwardState) : option (list (option tensor)) :=
  let d_position := np_zeros [3] in
  let d_look_at := np_zeros [3] in
  let d_up := np_zeros [3] in
  let d_ndc_to_cam := np_zeros [3; 3] in
  let d_cam_to_ndc := np_zeros [3; 3] in
  let d_vertices_list := map d_vertices_of (ctx_shapes ctx) in
  let d_uvs_list := map d_uvs_of (ctx_shapes ctx) in
  let d_normals_list := map d_normals_of (ctx_shapes ctx) in
  let d_diffuse_list := map d_diffuse_of (ctx_materials ctx) in
  let d_specular_list := map d_specular_of (ctx_materials ctx) in
  let d_roughness_list := map d_roughness_of (ctx_materials ctx) in
  let d_intensity_list := map d_intensity_of (ctx_area_lights ctx) in
  let ret_list := [] in
  let ret_list := ret_append ret_list None in
  let ret_list := ret_append ret_list None in
  let ret_list := ret_append ret_list None in
  let ret_list := ret_append ret_list None in
  let ret_list := ret_append ret_list (Some d_position) in
  let ret_list := ret_append ret_list (Some d_look_at) in
  let ret_list := ret_append ret_list (Some d_up) in
  let ret_list := ret_append ret_list (Some d_ndc_to_cam) in
  let ret_list := ret_append ret_list (Some d_cam_to_ndc) in
  let ret_list := ret_append ret_list None in
  let ret_list := ret_append ret_list None in
  let ret_list := ret_append ret_list None in
  let num_shapes := length (ctx_shapes ctx) in
  match fold_left (ret_shape d_vertices_list d_uvs_list d_normals_list)
                  (seq 0 num_shapes) (Some ret_list) with
  | None => None
  | Some ret_list =>
  let num_materials := length (ctx_materials ctx) in
  match fold_left (ret_material d_diffuse_list d_specular_list d_roughness_list)
                  (seq 0 num_materials) (Some ret_list) with
  | None => None
  | Some ret_list =>
  let num_area_lights := length (ctx_area_lights ctx) in
  match fold_left (ret_light d_intensity_list) (seq 0 num_area_lights) (Some ret_list) with
  | None => None
  | Some ret_list =>
  let ret_list := ret_envmap ret_list (ctx_envmap ctx) in
  let ret_list := ret_append ret_list None in
  let ret_list := ret_append ret_list None in
  let ret_list := ret_append ret_list None in
  let ret_list := fold_left (fun ret_list _ => ret_append ret_list None)
                    (seq 0 (Z.to_nat (ctx_num_channels ctx))) ret_list in
  let ret_list := ret_append ret_list None in
  let ret_list := ret_append ret_list None in
  let ret_list := ret_append ret_list None in
  Some ret_list
  end end end.

(** The adjoint scene handle built from the freshly allocated buffers. *)
Definition make_d_scene (ctx : ForwardState) : redner.DScene.t :=
  let d_camera := redner.DCamera.mk (data_ptr (np_zeros [3])) (data_ptr (np_zeros [3]))
                    (data_ptr (np_zeros [3])) (data_ptr (np_zeros [3; 3]))
                    (data_ptr (np_zeros [3; 3])) in
  redner.DScene.mk d_camera
    (map d_shape_of (ctx_shapes ctx))
    (map d_material_of (ctx_materials ctx))
    (map (fun light => redner.DAreaLight.mk (data_ptr (d_intensity_of light)))
         (ctx_area_lights ctx))
    (match ctx_envmap ctx with Some e => Some (d_envmap_of e) | None => None end)
    get_use_gpu (-1).

(** [backward(grad_img)]: reads the context as it is when called, offsets
    the seed of the retained options object unless correlated random
    numbers are requested, sets the sample count of the backward pass,
    calls the engine once in adjoint mode and returns [ret_list].  Reading
    the retained attributes before any [forward] has stored them raises. *)
Definition backward (grad_img : tensor) (w : World) :
    option (list (option tensor) * World) :=
  match ctx_forward (__ctx w) with
  | None => None
  | Some ctx =>
      let scene := ctx_scene ctx in
      let options := ctx_options ctx in
      let d_scene := make_d_scene ctx in
      let options :=
        if negb (get_use_correlated_random_number w)
        then redner.RenderOptions.set_seed options
               (redner.RenderOptions.seed options + 1000003)
        else options in
      let options := redner.RenderOptions.set_num_samples options
                       (snd (ctx_num_samples ctx)) in
      let call := redner.Call.mk scene options 0 (data_ptr grad_img) (Some d_scene) 0 in
      let ctx' := mkForwardState (ctx_shapes ctx) (ctx_materials ctx)
                    (ctx_area_lights ctx) (ctx_envmap ctx) scene options
                    (ctx_num_samples ctx) (ctx_num_channels ctx) in
      match assemble_ret_list ctx with
      | None => None
      | Some ret_list =>
          Some (ret_list,
                mkWorld (use_correlated_random_number w)
                  (mkContext (ctx_pyredner_scene (__ctx w)) (Some ctx'))
                  (shape_objects w) (engine_calls w ++ [call]))
      end
  end.

(** [render], called on its positional arguments [x]: the first positional argument is the seed, the rest is
    handed to [forward]; the result is the image and the closure
    [backward]. *)
Definition render (x : list tensor) (w : World) :
    option (tensor * (tensor -> World -> option (list (option tensor) * World)) * World) :=
  match x with
  | [] => None
  | x0 :: args =>
      match py_int x0 with
      | None => None
      | Some seed =>
          match forward seed args w with
          | None => None
          | Some (img, w') => Some (img, backward, w')
          end
      end
  end.

End Marshalling.

(* ================================================================== *)
(** ** The positional layout, block by block *)
(* ================================================================== *)

(** What one shape, one material, one light and the environment map
    contribute to the argument list: the appends of the source run on an
    empty list. *)
Definition shape_slots (shape : pyredner.Shape.t) : list (slot * tensor) :=
  append_shape [] shape.
Definition material_slots (material : pyredner.Material.t) : list (slot * tensor) :=
  append_material [] material.
Definition light_slots (light : pyredner.AreaLight.t) : list (slot * tensor) :=
  append_light [] light.
Definition envmap_slots (envmap : option pyredner.EnvironmentMap.t) : list (slot * tensor) :=
  append_envmap [] envmap.
Definition channel_slots (ch : Channel) : list (slot * tensor) :=
  append [] s_channel (RednerChannels_asTensor ch).

(** An optional buffer as it is flattened: itself, or the empty marker. *)
Definition or_empty (o : option tensor) : tensor :=
  match o with
  | Some t => t
  | None => __EMPTY_TENSOR
  end.

(** The eleven leading slots: the three counts and the camera. *)
Definition count_slots (scene : pyredner.Scene.t) : list (slot * tensor) :=
  [(s_num_shapes, tf_constant_int (Z.of_nat (length (pyredner.Scene.shapes scene))));
   (s_num_materials, tf_constant_int (Z.of_nat (length (pyredner.Scene.materials scene))));
   (s_num_lights, tf_constant_int (Z.of_nat (length (pyredner.Scene.area_lights scene))))].
Definition camera_slots {E : Engine} (cam : pyredner.Camera.t) : list (slot * tensor) :=
  [(s_cam_position, pyredner.Camera.position cam);
   (s_cam_look_at, pyredner.Camera.look_at cam);
   (s_cam_up, pyredner.Camera.up cam);
   (s_ndc_to_cam, pyredner.Camera.ndc_to_cam cam);
   (s_cam_to_ndc, pyredner.Camera.cam_to_ndc cam);
   (s_clip_near, tf_constant_float (pyredner.Camera.clip_near cam));
   (s_resolution, tf_constant_pair (pyredner.Camera.resolution cam));
   (s_camera_type, RednerCameraType_asTensor (pyredner.Camera.camera_type cam))].

(** The slots after the environment map block, around the channel tags. *)
Definition sampling_slots (num_samples : NumSamples) (max_bounces : Z)
    (channels : list Channel) : list (slot * tensor) :=
  [(s_num_samples, tf_constant_num_samples num_samples);
   (s_max_bounces, tf_constant_int max_bounces);
   (s_num_channels, tf_constant_int (Z.of_nat (length channels)))].
Definition trailing_slots (sampler_type : SamplerType)
    (use_primary_edge_sampling use_secondary_edge_sampling : bool) : list (slot * tensor) :=
  [(s_sampler_type, RednerSamplerType_asTensor sampler_type);
   (s_use_primary_edge_sampling, tf_constant_bool use_primary_edge_sampling);
   (s_use_secondary_edge_sampling, tf_constant_bool use_secondary_edge_sampling)].

(** The argument blocks of the entities of one kind. *)
Definition blocks_of {A : Type} (f : A -> list (slot * tensor)) (l : list A) :
  list (list tensor) := map (fun x => map snd (f x)) l.

(** The slots that are flattened from a count, an index, a flag or a tag. *)
Definition non_differentiable (s : slot) : bool :=
  match s with
  | s_num_shapes | s_num_materials | s_num_lights
  | s_clip_near | s_resolution | s_camera_type
  | s_indices | s_material_id | s_light_id
  | s_material_two_sided
  | s_light_shape_id | s_light_two_sided
  | s_num_samples | s_max_bounces | s_num_channels | s_channel
  | s_sampler_type | s_use_primary_edge_sampling | s_use_secondary_edge_sampling => true
  | _ => false
  end.

(** The slots for which the backward pass allocates an adjoint buffer:
    camera pose, up vector and transforms, vertex, UV and normal buffers,
    the three material textures, light intensity, and the radiance and
    world transform of the environment map. *)
Definition differentiable (s : slot) : bool :=
  match s with
  | s_cam_position | s_cam_look_at | s_cam_up | s_ndc_to_cam | s_cam_to_ndc
  | s_vertices | s_uvs | s_normals
  | s_diffuse | s_specular | s_roughness
  | s_intensity
  | s_env_values | s_world_to_env => true
  | _ => false
  end.

(** Index of the first environment map slot in the argument list. *)
Definition envmap_offset (scene : pyredner.Scene.t) : nat :=
  11 + 6 * length (pyredner.Scene.shapes scene)
     + 7 * length (pyredner.Scene.materials scene)
     + 3 * length (pyredner.Scene.area_lights scene).

(** The shape object a light is attached to, if its index is in range. *)
Definition light_target (scene : pyredner.Scene.t) (light : pyredner.AreaLight.t) :
    option pyredner.ref :=
  py_index (pyredner.Scene.shapes scene) (pyredner.AreaLight.shape_id light).

(** *** Scenes shaped as the data model says *)

Fixpoint shape_eqb (a b : list nat) : bool :=
  match a, b with
  | [], [] => true
  | x :: a', y :: b' => Nat.eqb x y && shape_eqb a' b'
  | _, _ => false
  end.

(** A buffer that is there: it has at least one element.  Tensors without
    elements are what the source uses to say "absent". *)
Definition present (t : tensor) : bool := negb (is_empty_tensor t).

(** Number of rows of a buffer: its first dimension. *)
Definition rows (t : tensor) : nat := hd 0 (t_shape t).

(** Camera: position, look-at and up are 3-vectors, the two transforms are
    3 by 3. *)
Definition camera_well_shaped (cam : pyredner.Camera.t) : bool :=
  shape_eqb (t_shape (pyredner.Camera.position cam)) [3]
  && shape_eqb (t_shape (pyredner.Camera.look_at cam)) [3]
  && shape_eqb (t_shape (pyredner.Camera.up cam)) [3]
  && shape_eqb (t_shape (pyredner.Camera.ndc_to_cam cam)) [3; 3]
  && shape_eqb (t_shape (pyredner.Camera.cam_to_ndc cam)) [3; 3].

(** Shape: N by 3 vertices with N positive; UVs, when given, N by 2;
    normals, when given, N by 3. *)
Definition shape_well_shaped (sh : pyredner.Shape.t) : bool :=
  let n := rows (pyredner.Shape.vertices sh) in
  negb (Nat.eqb n 0)
  && shape_eqb (t_shape (pyredner.Shape.vertices sh)) [n; 3]
  && match pyredner.Shape.uvs sh with
     | None => true
     | Some t => shape_eqb (t_shape t) [n; 2]
     end
  && match pyredner.Shape.normals sh with
     | None => true
     | Some t => shape_eqb (t_shape t) [n; 3]
     end.

(** Texture with [c] channels: a constant vector of [c] entries, or a
    mipmap pyramid (levels, height, width, [c]) that has texels. *)
Definition texture_well_shaped (c : nat) (t : tensor) : bool :=
  shape_eqb (t_shape t) [c]
  || (Nat.eqb (get_tensor_dimension t) 4
      && Nat.eqb (nth 3 (t_shape t) 0) c
      && present t).

Definition material_well_shaped (m : pyredner.Material.t) : bool :=
  texture_well_shaped 3 (pyredner.Texture.mipmap (pyredner.Material.diffuse_reflectance m))
  && texture_well_shaped 3 (pyredner.Texture.mipmap (pyredner.Material.specular_reflectance m))
  && texture_well_shaped 1 (pyredner.Texture.mipmap (pyredner.Material.roughness m)).

Definition light_well_shaped (l : pyredner.AreaLight.t) : bool :=
  shape_eqb (t_shape (pyredner.AreaLight.intensity l)) [3].

(** Environment map: a three-channel mipmap pyramid that has texels, and a
    4 by 4 world-to-environment transform. *)
Definition envmap_well_shaped (e : pyredner.EnvironmentMap.t) : bool :=
  let v := pyredner.Texture.mipmap (pyredner.EnvironmentMap.values e) in
  Nat.eqb (get_tensor_dimension v) 4
  && Nat.eqb (nth 3 (t_shape v) 0) 3
  && present v
  && shape_eqb (t_shape (pyredner.EnvironmentMap.world_to_env e)) [4; 4].

Definition scene_well_shaped (st : pyredner.shape_store) (scene : pyredner.Scene.t) : bool :=
  camera_well_shaped (pyredner.Scene.camera scene)
  && forallb shape_well_shaped (map st (pyredner.Scene.shapes scene))
  && forallb material_well_shaped (pyredner.Scene.materials scene)
  && forallb light_well_shaped (pyredner.Scene.area_lights scene)
  && match pyredner.Scene.envmap scene with
     | None => true
     | Some e => envmap_well_shaped e
     end.

(** A scene that the three steps accept: shaped as the data model says,
    every light attached to a shape of the scene, index buffers with at
    least one dimension, a resolution without negative entries, and a
    scalar PDF normalisation on the environment map. *)
Definition is_some {A : Type} (o : option A) : bool :=
  match o with Some _ => true | None => false end.

Definition scene_well_formed (st : pyredner.shape_store) (scene : pyredner.Scene.t) : bool :=
  scene_well_shaped st scene
  && forallb (fun l => is_some (light_target scene l)) (pyredner.Scene.area_lights scene)
  && forallb (fun sh => negb (Nat.eqb (get_tensor_dimension (pyredner.Shape.indices sh)) 0))
             (map st (pyredner.Scene.shapes scene))
  && (0 <=? fst (pyredner.Camera.resolution (pyredner.Scene.camera scene)))%Z
  && (0 <=? snd (pyredner.Camera.resolution (pyredner.Scene.camera scene)))%Z
  && match pyredner.Scene.envmap scene with
     | None => true
     | Some e => is_some (py_float (pyredner.EnvironmentMap.pdf_norm e))
     end.

(** The gradient that mirrors a forward tensor: the marker for a tensor
    without elements, a zero-initialised buffer of the same shape
    otherwise. *)
Definition mirror_of (v : tensor) : option tensor :=
  if is_empty_tensor v then None else Some (np_zeros (t_shape v)).

(** A buffer is zero-initialised when it is a float tensor with one
    element for every position of its shape, each of them zero. *)
Definition zero_initialised (b : tensor) : Prop :=
  exists zs, b = FloatTensor (t_shape b) zs /\
             length zs = fold_right Nat.mul 1 (t_shape b) /\
             Forall (fun q => q = inject_Z 0) zs.

(** A slot and its gradient mirror each other when, the slot being
    differentiable, the gradient is the mirror of the forward tensor. *)
Definition mirrors (sv : slot * tensor) (g : option tensor) : Prop :=
  differentiable (fst sv) = true -> g = mirror_of (snd sv).

(** Running a computation from the start of a list, and moving a result
    [i] places to the right. *)
Definition shift {A : Type} (i : nat) (o : option (A * nat)) : option (A * nat) :=
  match o with
  | Some (x, j) => Some (x, i + j)
  | None => None
  end.

(** A computation is positional when it only looks at the arguments from
    the running index on. *)
Definition positional {A : Type} (p : Unpack A) : Prop :=
  forall args i, p args i = shift i (p (skipn i args) 0).

(** Applying a conversion that may raise to every element. *)
Fixpoint traverse {A B : Type} (f : A -> option B) (l : list A) : option (list B) :=
  match l with
  | [] => Some []
  | x :: rest =>
      match f x, traverse f rest with
      | Some y, Some ys => Some (y :: ys)
      | _, _ => None
      end
  end.

Section Reconstruction.
Context {E : Engine}.

(** What the unpacking loops rebuild from the block of one entity. *)
Definition rebuild_shape (block : list tensor) : option redner.Shape.t :=
  option_map fst (unpack_shape block 0).
Definition rebuild_material (block : list tensor) : option redner.Material.t :=
  option_map fst (unpack_material block 0).
Definition rebuild_light (block : list tensor) : option redner.AreaLight.t :=
  option_map fst (unpack_light block 0).
Definition rebuild_channel (block : list tensor) : option Channel :=
  option_map fst (unpack_channel block 0).
Definition rebuild_camera (block : list tensor) : option (redner.Camera.t * (Z * Z)) :=
  option_map fst (unpack_camera block 0).
Definition rebuild_envmap (block : list tensor) : option (option redner.EnvironmentMap.t) :=
  option_map fst (unpack_envmap block 0).

(** What [unpack_arguments] yields on the flattened form of a scene,
    entity by entity. *)
Definition reconstruct (seed : Z) (st : pyredner.shape_store) (scene : pyredner.Scene.t)
    (num_samples : NumSamples) (max_bounces : Z) (channels : list Channel)
    (sampler_type : SamplerType)
    (use_primary_edge_sampling use_secondary_edge_sampling : bool) : option Unpacked :=
  match rebuild_camera (map snd (camera_slots (pyredner.Scene.camera scene))) with
  | None => None
  | Some cam =>
  match traverse rebuild_shape
          (blocks_of shape_slots (map st (pyredner.Scene.shapes scene))) with
  | None => None
  | Some shapes =>
  match traverse rebuild_material
          (blocks_of material_slots (pyredner.Scene.materials scene)) with
  | None => None
  | Some materials =>
  match traverse rebuild_light
          (blocks_of light_slots (pyredner.Scene.area_lights scene)) with
  | None => None
  | Some area_lights =>
  match rebuild_envmap (map snd (envmap_slots (pyredner.Scene.envmap scene))) with
  | None => None
  | Some envmap =>
  match py_int (tf_constant_num_samples num_samples) with
  | None => None
  | Some n =>
  match traverse rebuild_channel (blocks_of channel_slots channels) with
  | None => None
  | Some chs =>
  match RednerSamplerType_asSamplerType (RednerSamplerType_asTensor sampler_type) with
  | None => None
  | Some sampler =>
      let rscene := redner.Scene.mk (fst cam) shapes materials area_lights envmap
                      get_use_gpu (-1) (tf_constant_bool use_primary_edge_sampling)
                      (tf_constant_bool use_secondary_edge_sampling) in
      let options := redner.RenderOptions.mk seed n max_bounces chs sampler in
      Some (mkUnpacked (snd cam)
              (mkForwardState shapes materials area_lights envmap rscene options
                 (n, n) (Z.of_nat (length channels))))
  end end end end end end end end.

(** What the returned list holds for one shape, material, light, and for
    the environment map. *)
Definition shape_grads (shape : redner.Shape.t) : list (option tensor) :=
  [Some (d_vertices_of shape); None; d_uvs_of shape; d_normals_of shape; None; None].
Definition material_grads (material : redner.Material.t) : list (option tensor) :=
  [Some (d_diffuse_of material); None; Some (d_specular_of material); None;
   Some (d_roughness_of material); None; None].
Definition light_grads (light : redner.AreaLight.t) : list (option tensor) :=
  [None; Some (d_intensity_of light); None].
Definition envmap_grads (envmap : option redner.EnvironmentMap.t) : list (option tensor) :=
  ret_envmap [] envmap.
Definition camera_grads : list (option tensor) :=
  [Some (np_zeros [3]); Some (np_zeros [3]); Some (np_zeros [3]);
   Some (np_zeros [3; 3]); Some (np_zeros [3; 3])].

(** A texture handle built from a tensor by rank: a rank-1 tensor gives a
    constant (width, height and levels all zero), a tensor of shape
    (L, H, W, C) gives a pyramid with L levels of height H and width W. *)
Definition texture3_from (t uv : tensor) (tex : redner.Texture3.t) : Prop :=
  (get_tensor_dimension t = 1 ->
   tex = redner.Texture3.mk (data_ptr t) 0 0 0 (data_ptr uv)) /\
  (forall L H W C, t_shape t = [L; H; W; C] ->
   tex = redner.Texture3.mk (data_ptr t) W H L (data_ptr uv)).
Definition texture1_from (t uv : tensor) (tex : redner.Texture1.t) : Prop :=
  (get_tensor_dimension t = 1 ->
   tex = redner.Texture1.mk (data_ptr t) 0 0 0 (data_ptr uv)) /\
  (forall L H W C, t_shape t = [L; H; W; C] ->
   tex = redner.Texture1.mk (data_ptr t) W H L (data_ptr uv)).

(** The rank of a tensor, read off its shape. *)
Definition rank (t : tensor) : nat := length (t_shape t).

(** The texture handle that the rank of a tensor calls for: the constant
    texture (width, height and levels zero) for a tensor of shape (C,), the
    pyramid with L levels of height H and width W for a tensor of shape
    (L, H, W, C). *)
Definition texture3_by_rank (t uv : tensor) (tex : redner.Texture3.t) : Prop :=
  (forall C, t_shape t = [C] ->
   tex = redner.Texture3.mk (data_ptr t) 0 0 0 (data_ptr uv)) /\
  (forall L H W C, t_shape t = [L; H; W; C] ->
   tex = redner.Texture3.mk (data_ptr t) W H L (data_ptr uv)).
Definition texture1_by_rank (t uv : tensor) (tex : redner.Texture1.t) : Prop :=
  (forall C, t_shape t = [C] ->
   tex = redner.Texture1.mk (data_ptr t) 0 0 0 (data_ptr uv)) /\
  (forall L H W C, t_shape t = [L; H; W; C] ->
   tex = redner.Texture1.mk (data_ptr t) W H L (data_ptr uv)).

(** [n] calls of the closure one after the other, on the same gradient. *)
Fixpoint backward_times (n : nat) (grad_img : tensor) (w : World) : option World :=
  match n with
  | O => Some w
  | S n' =>
      match backward grad_img w with
      | Some (_, w') => backward_times n' grad_img w'
      | None => None
      end
  end.

(** Modelled from the spec: [pyredner.data_ptr] is not part of the source
    file.  Adjoint buffers for UVs and normals exist "only if the
    corresponding forward buffer existed", and an absent buffer is flattened
    as the empty tensor; so the address of a tensor is taken to be null
    exactly when the tensor has no elements. *)
Definition null_iff_empty : Prop :=
  forall t, Z.eqb (data_ptr t) 0 = is_empty_tensor t.

End Reconstruction.

(* ================================================================== *)
(** ** Concrete scenes *)
(* ================================================================== *)

Module Examples.

(** An engine instance: empty tensors have no buffer (null address), every
    other tensor lives at some non-null address; images are rendered on the
    CPU; radiance-like channels take three floats, the others one or two. *)
Definition channel_width (c : Channel) : nat :=
  match c with
  | radiance | ch_position | geometry_normal | shading_normal
  | diffuse_reflectance_ch | specular_reflectance_ch => 3
  | uv => 2
  | _ => 1
  end.

(** Rounding to single precision, for the engine instance: the nearest
    number with a significand of 24 bits, a tie going to the even
    significand, with exponents down to 2^-149.  Numbers beyond the largest
    single-precision number, which TensorFlow turns into an infinity, do not
    occur in the examples. *)
Definition round_half_even (q : Q) : Z :=
  let f := Qfloor q in
  match Qcompare (Qminus q (inject_Z f)) (1 # 2) with
  | Lt => f
  | Gt => (f + 1)%Z
  | Eq => if Z.even f then f else (f + 1)%Z
  end.

Definition single_precision (q : Q) : Q :=
  if Z.eqb (Qnum q) 0 then inject_Z 0
  else
    let a := Qabs q in
    let e0 := (Z.log2 (Qnum a) - Z.log2 (Z.pos (Qden a)))%Z in
    let e := if Qle_bool (Qpower (2 # 1) e0) a then e0 else (e0 - 1)%Z in
    let ulp := Z.max (e - 23) (-149) in
    let m := round_half_even (Qdiv a (Qpower (2 # 1) ulp)) in
    Qred (Qmult (inject_Z (if (Qnum q <? 0)%Z then - m else m)) (Qpower (2 # 1) ulp)).

#[local] Instance engine : Engine := {
  data_ptr := fun t => if is_empty_tensor t then 0%Z else 4096%Z;
  get_use_gpu := false;
  compute_num_channels := fun cs => fold_right (fun c n => channel_width c + n) 0 cs;
  float32 := single_precision }.

(** A float tensor of the given shape filled with ones. *)
Definition ones (shape : list nat) : tensor :=
  FloatTensor shape (repeat (inject_Z 1) (fold_right Nat.mul 1 shape)).

Definition camera : pyredner.Camera.t :=
  pyredner.Camera.mk (ones [3]) (ones [3]) (ones [3]) (ones [3; 3]) (ones [3; 3])
    (inject_Z 1) (2%Z, 4%Z) perspective.

(** A quad with UVs and normals, and a triangle without either. *)
Definition quad : pyredner.Shape.t :=
  pyredner.Shape.mk (ones [4; 3]) (IntTensor [2; 3] [0; 1; 2; 0; 2; 3]%Z)
    (Some (ones [4; 2])) (Some (ones [4; 3])) 0 (-1).
Definition triangle : pyredner.Shape.t :=
  pyredner.Shape.mk (ones [3; 3]) (IntTensor [1; 3] [0; 1; 2]%Z) None None 0 (-1).

Definition store : pyredner.shape_store :=
  fun r => match r with 0 => quad | _ => triangle end.

(** A material with mipmapped diffuse, constant specular and constant
    roughness. *)
Definition material : pyredner.Material.t :=
  pyredner.Material.mk
    (pyredner.Texture.mk (ones [2; 2; 2; 3]) (ones [2]))
    (pyredner.Texture.mk (ones [3]) (ones [2]))
    (pyredner.Texture.mk (ones [1]) (ones [2]))
    true.

Definition light_on (shape_id : Z) : pyredner.AreaLight.t :=
  pyredner.AreaLight.mk shape_id (ones [3]) false.

Definition envmap : pyredner.EnvironmentMap.t :=
  pyredner.EnvironmentMap.mk
    (pyredner.Texture.mk (ones [2; 2; 4; 3]) (ones [2]))
    (ones [4; 4]) (ones [4; 4]) (ones [2]) (ones [2; 4]) (ones []).

(** No shapes, no materials, no lights, no environment map. *)
Definition bare_scene : pyredner.Scene.t :=
  pyredner.Scene.mk camera [] [] [] None.

(** Two shapes, one material, one light on the triangle, an environment
    map. *)
Definition lit_scene : pyredner.Scene.t :=
  pyredner.Scene.mk camera [0; 1] [material] [light_on 1] (Some envmap).

(** Two lights attached to the same shape. *)
Definition doubly_lit_scene : pyredner.Scene.t :=
  pyredner.Scene.mk camera [0] [material] [light_on 0; light_on 0] None.

(** Two lights on two different shapes: the first on the triangle, the
    second on the quad. *)
Definition twin_lit_scene : pyredner.Scene.t :=
  pyredner.Scene.mk camera [0; 1] [material] [light_on 1; light_on 0] None.

(** An environment map whose radiance is one constant colour, a tensor of
    rank 1, and the lit scene under it. *)
Definition flat_envmap : pyredner.EnvironmentMap.t :=
  pyredner.EnvironmentMap.mk
    (pyredner.Texture.mk (ones [3]) (ones [2]))
    (ones [4; 4]) (ones [4; 4]) (ones [2]) (ones [2; 4]) (ones []).
Definition flat_env_scene : pyredner.Scene.t :=
  pyredner.Scene.mk camera [0; 1] [material] [light_on 1] (Some flat_envmap).

(** A scene off the data model: a quad whose UV buffer has five rows for
    four vertices, under a material whose diffuse pyramid has four
    channels. *)
Definition skewed_quad : pyredner.Shape.t :=
  pyredner.Shape.mk (ones [4; 3]) (IntTensor [2; 3] [0; 1; 2; 0; 2; 3]%Z)
    (Some (ones [5; 2])) None 0 (-1).
Definition skewed_material : pyredner.Material.t :=
  pyredner.Material.mk
    (pyredner.Texture.mk (ones [2; 5; 4; 4]) (ones [2]))
    (pyredner.Texture.mk (ones [3]) (ones [2]))
    (pyredner.Texture.mk (ones [1]) (ones [2]))
    true.
Definition skewed_scene : pyredner.Scene.t :=
  pyredner.Scene.mk camera [0] [skewed_material] [] None.

(** The module as freshly loaded: toggle off, empty context, no engine
    call yet. *)
Definition world0 : World :=
  mkWorld false (mkContext None None) store [].

(** The three steps on a scene, from the freshly loaded module: flatten
    with four samples, one bounce and a radiance channel; render with seed
    7; call the closure on an image gradient, once and twice. *)
Definition flatten (scene : pyredner.Scene.t) (w : World) : option (list tensor * World) :=
  serialize_scene scene (Samples 4) 1 [radiance] independent true true w.

Definition seed_arg : tensor := tf_constant_int 7.
Definition grad_img : tensor := ones [2; 4; 3].

Definition args_of (scene : pyredner.Scene.t) : list tensor :=
  match flatten scene world0 with Some (args, _) => args | None => [] end.
Definition flattened (scene : pyredner.Scene.t) : World :=
  match flatten scene world0 with Some (_, w) => w | None => world0 end.
Definition image_of (scene : pyredner.Scene.t) : tensor :=
  match render (seed_arg :: args_of scene) (flattened scene) with
  | Some (img, _, _) => img
  | None => __EMPTY_TENSOR
  end.
Definition rendered (scene : pyredner.Scene.t) : World :=
  match render (seed_arg :: args_of scene) (flattened scene) with
  | Some (_, _, w) => w
  | None => world0
  end.
Definition gradients_of (scene : pyredner.Scene.t) : list (option tensor) :=
  match backward grad_img (rendered scene) with Some (ret, _) => ret | None => [] end.
Definition differentiated (scene : pyredner.Scene.t) : World :=
  match backward grad_img (rendered scene) with Some (_, w) => w | None => world0 end.
Definition gradients_again (scene : pyredner.Scene.t) : list (option tensor) :=
  match backward grad_img (differentiated scene) with Some (ret, _) => ret | None => [] end.
Definition differentiated_twice (scene : pyredner.Scene.t) : World :=
  match backward grad_img (differentiated scene) with Some (_, w) => w | None => world0 end.

(** The same three steps on the skewed scene, the shape objects all being
    the skewed quad. *)
Definition skewed_world : World :=
  mkWorld false (mkContext None None) (fun _ => skewed_quad) [].
Definition skewed_args : list tensor :=
  match flatten skewed_scene skewed_world with Some (args, _) => args | None => [] end.
Definition skewed_flattened : World :=
  match flatten skewed_scene skewed_world with Some (_, w) => w | None => world0 end.
Definition skewed_image : tensor :=
  match render (seed_arg :: skewed_args) skewed_flattened with
  | Some (img, _, _) => img
  | None => __EMPTY_TENSOR
  end.
Definition skewed_rendered : World :=
  match render (seed_arg :: skewed_args) skewed_flattened with
  | Some (_, _, w) => w
  | None => world0
  end.
Definition skewed_gradients : list (option tensor) :=
  match backward grad_img skewed_rendered with Some (ret, _) => ret | None => [] end.
Definition skewed_differentiated : World :=
  match backward grad_img skewed_rendered with Some (_, w) => w | None => world0 end.

End Examples.

(* ================================================================== *)
(** ** Further notions used to describe the code *)
(* ================================================================== *)

(** A computation advances by [k] when every successful run moves the
    running index [k] places. *)
Definition advances {A : Type} (p : Unpack A) (k : nat) : Prop :=
  forall args i x j, p args i = Some (x, j) -> j = i + k.

(** A computation is blind to what follows when a successful run stays the
    same after more arguments are appended to the list. *)
Definition blind_to_suffix {A : Type} (p : Unpack A) : Prop :=
  forall args extra i r, p args i = Some r -> p (args ++ extra) i = Some r.

(** Number of arguments [forward] reads for retained state [st]: 3 counts,
    8 camera fields, 6 per shape, 7 per material, 3 per light, 7 for the
    environment map block, 3 sampling fields, one per channel, and the
    sampler tag with the two edge-sampling flags. *)
Definition arguments_read (st : ForwardState) : nat :=
  24 + 6 * length (ctx_shapes st) + 7 * length (ctx_materials st)
     + 3 * length (ctx_area_lights st) + Z.to_nat (ctx_num_channels st).

(** The light index that the light loop leaves on shape object [r], given
    the index [init] the object carried before: the index of the last light
    attached to [r], or [init] when no light is. *)
Definition attached_to (scene : pyredner.Scene.t) (r : pyredner.ref)
    (light : pyredner.AreaLight.t) : bool :=
  match light_target scene light with
  | Some r' => Nat.eqb r' r
  | None => false
  end.

Definition final_light_id (scene : pyredner.Scene.t) (r : pyredner.ref)
    (lights : list (nat * pyredner.AreaLight.t)) (init : Z) : Z :=
  fold_left (fun acc il => if attached_to scene r (snd il) then Z.of_nat (fst il) else acc)
            lights init.

(** The store of shape objects as the light loop leaves it when it does
    not raise: every object with the light index that the loop writes last,
    all other fields as they were. *)
Definition annotated (scene : pyredner.Scene.t) (st : pyredner.shape_store) :
    pyredner.shape_store :=
  fun r =>
    pyredner.Shape.set_light_id (st r)
      (final_light_id scene r (enumerate (pyredner.Scene.area_lights scene))
         (pyredner.Shape.light_id (st r))).

(** *** Sequences of calls

    One successful call of a function of the module, as a step from the
    state before to the state after; a call that raises is no step. *)
Section Calls.
Context {E : Engine}.

Inductive call_step (w : World) : World -> Prop :=
| call_set (v : bool) :
    call_step w (set_use_correlated_random_number v w)
| call_serialize_scene (scene : pyredner.Scene.t) (num_samples : NumSamples)
    (max_bounces : Z) (channels : list Channel) (sampler_type : SamplerType)
    (primary secondary : bool) (args : list tensor) (w' : World) :
    serialize_scene scene num_samples max_bounces channels sampler_type primary secondary w
      = Some (args, w') ->
    call_step w w'
| call_forward (seed : Z) (args : list tensor) (img : tensor) (w' : World) :
    forward seed args w = Some (img, w') ->
    call_step w w'
| call_render (x : list tensor) (img : tensor)
    (bwd : tensor -> World -> option (list (option tensor) * World)) (w' : World) :
    render x w = Some (img, bwd, w') ->
    call_step w w'
| call_backward (grad_img : tensor) (ret_list : list (option tensor)) (w' : World) :
    backward grad_img w = Some (ret_list, w') ->
    call_step w w'.

Inductive call_steps : World -> World -> Prop :=
| calls_done (w : World) : call_steps w w
| calls_then (w w1 w2 : World) : call_step w w1 -> call_steps w1 w2 -> call_steps w w2.

End Calls.

(* ================================================================== *)
(** ** Further runs on the example scenes *)
(* ================================================================== *)

Module Scenarios.
Import Examples.
#[local] Existing Instance Examples.engine.

(** A further argument after the flattened list. *)
Definition stray : tensor := ones [1].

(** The bare scene flattened and rendered after the lit scene was
    rendered, and the closure called afterwards. *)
Definition bare_args_after_lit : list tensor :=
  match flatten bare_scene (rendered lit_scene) with Some (args, _) => args | None => [] end.
Definition bare_flattened_after_lit : World :=
  match flatten bare_scene (rendered lit_scene) with Some (_, w) => w | None => world0 end.
Definition bare_rendered_after_lit : World :=
  match render (seed_arg :: bare_args_after_lit) bare_flattened_after_lit with
  | Some (_, _, w) => w
  | None => world0
  end.
Definition gradients_after_both : list (option tensor) :=
  match backward grad_img bare_rendered_after_lit with Some (ret, _) => ret | None => [] end.
Definition differentiated_after_both : World :=
  match backward grad_img bare_rendered_after_lit with Some (_, w) => w | None => world0 end.

(** The lit scene flattened with a pair of sample counts. *)
Definition pair_args : list tensor :=
  match serialize_scene lit_scene (SamplesPair 4 8) 1 [radiance] independent true true world0
  with Some (args, _) => args | None => [] end.
Definition pair_flattened : World :=
  match serialize_scene lit_scene (SamplesPair 4 8) 1 [radiance] independent true true world0
  with Some (_, w) => w | None => world0 end.

(** The doubly lit scene flattened a second time. *)
Definition flattened_again (scene : pyredner.Scene.t) : World :=
  match flatten scene (flattened scene) with Some (_, w) => w | None => world0 end.

(** A camera whose near clipping distance is one tenth, which no
    single-precision number equals, alone in a scene, flattened and
    rendered. *)
Definition near_camera : pyredner.Camera.t :=
  pyredner.Camera.mk (ones [3]) (ones [3]) (ones [3]) (ones [3; 3]) (ones [3; 3])
    (1 # 10) (2%Z, 4%Z) perspective.
Definition near_scene : pyredner.Scene.t :=
  pyredner.Scene.mk near_camera [] [] [] None.
Definition near_args : list tensor :=
  match flatten near_scene world0 with Some (args, _) => args | None => [] end.
Definition near_flattened : World :=
  match flatten near_scene world0 with Some (_, w) => w | None => world0 end.
Definition near_image : tensor :=
  match render (seed_arg :: near_args) near_flattened with
  | Some (img, _, _) => img
  | None => __EMPTY_TENSOR
  end.
Definition near_rendered : World :=
  match render (seed_arg :: near_args) near_flattened with
  | Some (_, _, w) => w
  | None => world0
  end.

(** The seven arguments of a material whose diffuse texture has four
    channels, whose specular texture is constant and whose roughness
    texture has width zero, and the native material [forward] builds from
    them. *)
Definition odd_material_args : list tensor :=
  [ones [2; 5; 4; 4]; ones [2]; ones [3]; ones [2]; ones [1; 2; 0; 1]; ones [2];
   tf_constant_bool true].
Definition odd_material : redner.Material.t :=
  match unpack_material odd_material_args 0 with
  | Some (m, _) => m
  | None => redner.Material.mk (redner.Texture3.mk 0 0 0 0 0) (redner.Texture3.mk 0 0 0 0 0)
              (redner.Texture1.mk 0 0 0 0 0) false
  end.

End Scenarios.

(* ================================================================== *)
(** ** Lists *)
(* ================================================================== *)

Lemma fold_left_blocks {A X : Type} (f : list X -> A -> list X) (l : list A) (acc : list X) :
  (forall acc a, f acc a = acc ++ f [] a) ->
  fold_left f l acc = acc ++ flat_map (f []) l.
Proof.
  intros Hf. revert acc.
  induction l as [|a l IH]; intros acc; simpl.
  - now rewrite app_nil_r.
  - rewrite IH, (Hf acc a), <- app_assoc. reflexivity.
Qed.

Lemma length_flat_map_blocks {A X : Type} (f : A -> list X) (k : nat) (l : list A) :
  (forall a, length (f a) = k) -> length (flat_map f l) = k * length l.
Proof.
  intros Hk. induction l as [|a l IH]; simpl.
  - lia.
  - rewrite length_app, Hk, IH. lia.
Qed.

Lemma Forall2_flat_map {A B X Y : Type} (R : X -> Y -> Prop) (P : A -> B -> Prop)
    (f : A -> list X) (g : B -> list Y) (la : list A) (lb : list B) :
  Forall2 P la lb ->
  (forall a b, P a b -> Forall2 R (f a) (g b)) ->
  Forall2 R (flat_map f la) (flat_map g lb).
Proof.
  intros HP Hblock. induction HP as [|a b la lb Hab _ IH]; simpl.
  - constructor.
  - apply Forall2_app; auto.
Qed.

Lemma Forall2_nth_error_l {X Y : Type} (R : X -> Y -> Prop) (l : list X) (l' : list Y) :
  Forall2 R l l' ->
  forall i x, nth_error l i = Some x -> exists y, nth_error l' i = Some y /\ R x y.
Proof.
  induction 1 as [|a b l l' Hab _ IH]; intros i x Hi.
  - destruct i; discriminate.
  - destruct i as [|i]; simpl in *.
    + injection Hi as <-. eauto.
    + eauto.
Qed.

Lemma traverse_Forall2 {A B : Type} (f : A -> option B) (l : list A) (l' : list B) :
  traverse f l = Some l' -> Forall2 (fun a b => f a = Some b) l l'.
Proof.
  revert l'. induction l as [|a l IH]; intros l' H; simpl in H.
  - injection H as <-. constructor.
  - destruct (f a) as [b|] eqn:Hb; [|discriminate].
    destruct (traverse f l) as [bs|]; [|discriminate].
    injection H as <-. constructor; auto.
Qed.

Lemma traverse_length {A B : Type} (f : A -> option B) (l : list A) (l' : list B) :
  traverse f l = Some l' -> length l' = length l.
Proof.
  intros H. apply traverse_Forall2 in H. symmetry. eapply Forall2_length; eauto.
Qed.

(* ================================================================== *)
(** ** Positional computations *)
(* ================================================================== *)

Lemma shift_shift {A : Type} (i j : nat) (o : option (A * nat)) :
  shift i (shift j o) = shift (i + j) o.
Proof. destruct o as [[x k]|]; simpl; [f_equal; f_equal; lia | reflexivity]. Qed.

Lemma positional_ret {A : Type} (x : A) : positional (ret x).
Proof. intros args i. unfold ret. simpl. now rewrite Nat.add_0_r. Qed.

Lemma positional_lift {A : Type} (o : option A) : positional (lift o).
Proof. intros args i. unfold lift. destruct o; simpl; [now rewrite Nat.add_0_r | reflexivity]. Qed.

Lemma positional_next_arg : positional next_arg.
Proof.
  intros args i. unfold next_arg.
  rewrite nth_error_skipn, Nat.add_0_r.
  destruct (nth_error args i); simpl; [now rewrite Nat.add_1_r | reflexivity].
Qed.

Lemma positional_peek_arg : positional peek_arg.
Proof.
  intros args i. unfold peek_arg.
  rewrite nth_error_skipn, Nat.add_0_r.
  destruct (nth_error args i); simpl; [now rewrite Nat.add_0_r | reflexivity].
Qed.

Lemma positional_skip (n : nat) : positional (skip n).
Proof. intros args i. reflexivity. Qed.

Lemma positional_bind {A B : Type} (c : Unpack A) (k : A -> Unpack B) :
  positional c -> (forall x, positional (k x)) -> positional (bind c k).
Proof.
  intros Hc Hk args i. unfold bind.
  rewrite (Hc args i).
  destruct (c (skipn i args) 0) as [[x j]|]; simpl; [|reflexivity].
  rewrite (Hk x args (i + j)), (Hk x (skipn i args) j).
  rewrite skipn_skipn, shift_shift. now rewrite (Nat.add_comm j i).
Qed.

Lemma positional_unpack_loop {A : Type} (n : nat) (body : Unpack A) :
  positional body -> positional (unpack_loop n body).
Proof.
  intros Hb. induction n as [|n IH]; simpl.
  - apply positional_ret.
  - apply positional_bind; [exact Hb|]. intros x.
    apply positional_bind; [exact IH|]. intros xs. apply positional_ret.
Qed.

Create HintDb unpack.

#[local] Hint Resolve positional_ret positional_lift positional_next_arg
  positional_peek_arg positional_skip positional_unpack_loop : unpack.

Ltac positional_steps :=
  repeat first
    [ apply positional_bind; [solve [auto with unpack] | intro]
    | solve [auto with unpack]
    | intro ].

Section Unpacking.
Context {E : Engine}.

Lemma positional_unpack_camera : positional unpack_camera.
Proof. unfold unpack_camera. positional_steps. Qed.

Lemma positional_unpack_shape : positional unpack_shape.
Proof. unfold unpack_shape. positional_steps. Qed.

Lemma positional_unpack_material : positional unpack_material.
Proof. unfold unpack_material. positional_steps. Qed.

Lemma positional_unpack_light : positional unpack_light.
Proof. unfold unpack_light. positional_steps. Qed.

Lemma positional_unpack_channel : positional unpack_channel.
Proof. unfold unpack_channel. positional_steps. Qed.

Lemma positional_unpack_envmap : positional unpack_envmap.
Proof.
  unfold unpack_envmap. apply positional_bind; [auto with unpack|]. intros first.
  destruct (negb (is_empty_tensor first)); positional_steps.
Qed.

#[local] Hint Resolve positional_unpack_camera positional_unpack_shape
  positional_unpack_material positional_unpack_light positional_unpack_channel
  positional_unpack_envmap : unpack.

(** Sequencing over a list that starts with the block the first
    computation consumes. *)
Lemma bind_blocks {A B : Type} (c : Unpack A) (k : A -> Unpack B)
    (xs rest : list tensor) (o : option A) :
  c (xs ++ rest) 0 = option_map (fun r => (r, length xs)) o ->
  (forall x, positional (k x)) ->
  bind c k (xs ++ rest) 0 =
  match o with
  | Some x => shift (length xs) (k x rest 0)
  | None => None
  end.
Proof.
  intros Hc Hk. unfold bind. rewrite Hc.
  destruct o as [x|]; simpl; [|reflexivity].
  rewrite (Hk x (xs ++ rest) (length xs)).
  rewrite skipn_app, Nat.sub_diag, skipn_all. reflexivity.
Qed.

Lemma bind_block_of_length {A B : Type} (c : Unpack A) (k : A -> Unpack B)
    (n : nat) (o : option A) (xs rest : list tensor) :
  length xs = n ->
  (forall rest, c (xs ++ rest) 0 = option_map (fun r => (r, n)) o) ->
  (forall x, positional (k x)) ->
  bind c k (xs ++ rest) 0 =
  match o with
  | Some x => shift n (k x rest 0)
  | None => None
  end.
Proof.
  intros <- Hc Hk. apply bind_blocks; auto.
Qed.

Lemma bind_next_arg {B : Type} (k : tensor -> Unpack B) (x : tensor) (rest : list tensor) :
  (forall x, positional (k x)) ->
  bind next_arg k (x :: rest) 0 = shift 1 (k x rest 0).
Proof.
  intros Hk. apply (bind_blocks next_arg k [x] rest (Some x)); auto.
Qed.

Lemma bind_lift {A B : Type} (o : option A) (k : A -> Unpack B) (l : list tensor) :
  bind (lift o) k l 0 = match o with Some x => k x l 0 | None => None end.
Proof. unfold bind, lift. now destruct o. Qed.

(** A loop run over the concatenation of the blocks of its iterations. *)
Lemma unpack_loop_blocks {A : Type} (body : Unpack A) (k : nat)
    (rebuild : list tensor -> option A) :
  positional body ->
  (forall block rest, length block = k ->
     body (block ++ rest) 0 = option_map (fun r => (r, k)) (rebuild block)) ->
  forall blocks rest,
    Forall (fun b => length b = k) blocks ->
    unpack_loop (length blocks) body (concat blocks ++ rest) 0 =
    option_map (fun rs => (rs, k * length blocks)) (traverse rebuild blocks).
Proof.
  intros Hpos Hbody blocks. induction blocks as [|b blocks IH]; intros rest Hlen.
  - simpl. unfold ret. now rewrite Nat.mul_0_r.
  - inversion Hlen as [|? ? Hb Hbs]; subst. simpl.
    rewrite <- app_assoc.
    rewrite (bind_blocks body _ b (concat blocks ++ rest) (rebuild b)).
    + destruct (rebuild b) as [r|]; [|reflexivity].
      unfold bind at 1. rewrite (IH rest Hbs).
      destruct (traverse rebuild blocks) as [rs|]; simpl; [|reflexivity].
      unfold ret. simpl. f_equal. f_equal. lia.
    + rewrite Hbody; auto.
    + intros x. apply positional_bind; [now apply positional_unpack_loop|].
      intros xs. apply positional_ret.
Qed.

Ltac block_cases :=
  repeat (match goal with
          | |- context [match ?o with Some _ => _ | None => _ end] =>
              lazymatch o with
              | context [match _ with Some _ => _ | None => _ end] => fail
              | _ => destruct o
              end
          end; simpl); try reflexivity.

Lemma unpack_shape_block (block rest : list tensor) :
  length block = 6 ->
  unpack_shape (block ++ rest) 0 = option_map (fun r => (r, 6)) (rebuild_shape block).
Proof.
  intros Hlen.
  destruct block as [|a0 [|a1 [|a2 [|a3 [|a4 [|a5 [|]]]]]]]; try discriminate.
  unfold rebuild_shape, unpack_shape, bind, next_arg, lift, ret. simpl.
  block_cases.
Qed.

Lemma unpack_material_block (block rest : list tensor) :
  length block = 7 ->
  unpack_material (block ++ rest) 0 = option_map (fun r => (r, 7)) (rebuild_material block).
Proof.
  intros Hlen.
  destruct block as [|a0 [|a1 [|a2 [|a3 [|a4 [|a5 [|a6 [|]]]]]]]]; try discriminate.
  unfold rebuild_material, unpack_material, bind, next_arg, lift, ret. simpl.
  block_cases.
Qed.

Lemma unpack_light_block (block rest : list tensor) :
  length block = 3 ->
  unpack_light (block ++ rest) 0 = option_map (fun r => (r, 3)) (rebuild_light block).
Proof.
  intros Hlen.
  destruct block as [|a0 [|a1 [|a2 [|]]]]; try discriminate.
  unfold rebuild_light, unpack_light, bind, next_arg, lift, ret. simpl.
  block_cases.
Qed.

Lemma unpack_channel_block (block rest : list tensor) :
  length block = 1 ->
  unpack_channel (block ++ rest) 0 = option_map (fun r => (r, 1)) (rebuild_channel block).
Proof.
  intros Hlen.
  destruct block as [|a0 [|]]; try discriminate.
  unfold rebuild_channel, unpack_channel, bind, next_arg, lift, ret. simpl.
  block_cases.
Qed.

Lemma unpack_camera_block (block rest : list tensor) :
  length block = 8 ->
  unpack_camera (block ++ rest) 0 = option_map (fun r => (r, 8)) (rebuild_camera block).
Proof.
  intros Hlen.
  destruct block as [|a0 [|a1 [|a2 [|a3 [|a4 [|a5 [|a6 [|a7 [|]]]]]]]]]; try discriminate.
  unfold rebuild_camera, unpack_camera, bind, next_arg, lift, ret. simpl.
  block_cases.
Qed.

Lemma unpack_envmap_block (block rest : list tensor) :
  length block = 7 ->
  unpack_envmap (block ++ rest) 0 = option_map (fun r => (r, 7)) (rebuild_envmap block).
Proof.
  intros Hlen.
  destruct block as [|a0 [|a1 [|a2 [|a3 [|a4 [|a5 [|a6 [|]]]]]]]]; try discriminate.
  unfold rebuild_envmap, unpack_envmap, bind, peek_arg, next_arg, lift, skip, ret. simpl.
  destruct (is_empty_tensor a0); simpl; block_cases.
Qed.

Lemma length_concat_blocks (k : nat) (blocks : list (list tensor)) :
  Forall (fun b => length b = k) blocks -> length (concat blocks) = k * length blocks.
Proof.
  induction 1 as [|b blocks Hb _ IH]; simpl.
  - lia.
  - rewrite length_app, Hb, IH. lia.
Qed.

Lemma bind_loop_blocks {A B : Type} (body : Unpack A) (n k : nat)
    (rebuild : list tensor -> option A) (cont : list A -> Unpack B)
    (blocks : list (list tensor)) (rest : list tensor) :
  positional body ->
  (forall block rest, length block = k ->
     body (block ++ rest) 0 = option_map (fun r => (r, k)) (rebuild block)) ->
  Forall (fun b => length b = k) blocks ->
  (forall x, positional (cont x)) ->
  n = length blocks ->
  bind (unpack_loop n body) cont (concat blocks ++ rest) 0 =
  match traverse rebuild blocks with
  | Some rs => shift (k * length blocks) (cont rs rest 0)
  | None => None
  end.
Proof.
  intros Hpos Hbody Hlen Hcont ->.
  rewrite (bind_blocks _ cont (concat blocks) rest (traverse rebuild blocks)); auto.
  - now rewrite (length_concat_blocks Hlen).
  - rewrite (@unpack_loop_blocks _ body k rebuild Hpos Hbody blocks rest Hlen).
    rewrite (length_concat_blocks Hlen).
    reflexivity.
Qed.

Lemma fst_shift {A : Type} (i : nat) (o : option (A * nat)) :
  option_map fst (shift i o) = option_map fst o.
Proof. now destruct o as [[x j]|]. Qed.

Lemma Forall_blocks_of {A : Type} (f : A -> list (slot * tensor)) (k : nat) (l : list A) :
  (forall a, length (f a) = k) -> Forall (fun b => length b = k) (blocks_of f l).
Proof.
  intros Hk. unfold blocks_of. apply Forall_forall. intros b Hb.
  apply in_map_iff in Hb as (a & <- & _). now rewrite length_map.
Qed.

Lemma map_snd_flat_map {A : Type} (f : A -> list (slot * tensor)) (l : list A) :
  map snd (flat_map f l) = concat (blocks_of f l).
Proof.
  unfold blocks_of. induction l as [|a l IH]; simpl.
  - reflexivity.
  - now rewrite map_app, IH.
Qed.

(* ================================================================== *)
(** ** The flattened list as a sequence of blocks *)
(* ================================================================== *)

Lemma append_shape_block (args : list (slot * tensor)) (shape : pyredner.Shape.t) :
  append_shape args shape = args ++ append_shape [] shape.
Proof.
  unfold append_shape, append.
  destruct (pyredner.Shape.uvs shape), (pyredner.Shape.normals shape); simpl;
    repeat rewrite <- app_assoc; reflexivity.
Qed.

Lemma append_material_block (args : list (slot * tensor)) (material : pyredner.Material.t) :
  append_material args material = args ++ append_material [] material.
Proof. unfold append_material, append. simpl. repeat rewrite <- app_assoc. reflexivity. Qed.

Lemma append_light_block (args : list (slot * tensor)) (light : pyredner.AreaLight.t) :
  append_light args light = args ++ append_light [] light.
Proof. unfold append_light, append. simpl. repeat rewrite <- app_assoc. reflexivity. Qed.

Lemma append_envmap_block (args : list (slot * tensor))
    (envmap : option pyredner.EnvironmentMap.t) :
  append_envmap args envmap = args ++ envmap_slots envmap.
Proof.
  unfold envmap_slots, append_envmap, append.
  destruct envmap; simpl; repeat rewrite <- app_assoc; reflexivity.
Qed.

Lemma serialize_scene_slots_blocks (st : pyredner.shape_store) (scene : pyredner.Scene.t)
    (num_samples : NumSamples) (max_bounces : Z) (channels : list Channel)
    (sampler_type : SamplerType) (primary secondary : bool) :
  serialize_scene_slots st scene num_samples max_bounces channels sampler_type
    primary secondary =
  count_slots scene ++ camera_slots (pyredner.Scene.camera scene)
  ++ flat_map shape_slots (map st (pyredner.Scene.shapes scene))
  ++ flat_map material_slots (pyredner.Scene.materials scene)
  ++ flat_map light_slots (pyredner.Scene.area_lights scene)
  ++ envmap_slots (pyredner.Scene.envmap scene)
  ++ sampling_slots num_samples max_bounces channels
  ++ flat_map channel_slots channels
  ++ trailing_slots sampler_type primary secondary.
Proof.
  unfold serialize_scene_slots. cbv zeta.
  rewrite (fold_left_blocks append_shape _ _ append_shape_block).
  rewrite (fold_left_blocks append_material _ _ append_material_block).
  rewrite (fold_left_blocks append_light _ _ append_light_block).
  rewrite append_envmap_block.
  rewrite (fold_left_blocks (fun args ch => append args s_channel (RednerChannels_asTensor ch))).
  2:{ intros acc a. reflexivity. }
  unfold append, count_slots, camera_slots, sampling_slots, trailing_slots.
  simpl. repeat rewrite <- app_assoc. simpl. reflexivity.
Qed.

Lemma length_shape_slots (shape : pyredner.Shape.t) : length (shape_slots shape) = 6.
Proof.
  unfold shape_slots, append_shape, append.
  now destruct (pyredner.Shape.uvs shape), (pyredner.Shape.normals shape).
Qed.

Lemma length_material_slots (m : pyredner.Material.t) : length (material_slots m) = 7.
Proof. reflexivity. Qed.

Lemma length_light_slots (l : pyredner.AreaLight.t) : length (light_slots l) = 3.
Proof. reflexivity. Qed.

Lemma length_channel_slots (c : Channel) : length (channel_slots c) = 1.
Proof. reflexivity. Qed.

Lemma length_envmap_slots (e : option pyredner.EnvironmentMap.t) :
  length (envmap_slots e) = 7.
Proof. now destruct e. Qed.

Lemma py_int_constant (z : Z) : py_int (tf_constant_int z) = Some z.
Proof. reflexivity. Qed.

Lemma bind_lift_some {A B : Type} (o : option A) (x : A) (k : A -> Unpack B)
    (l : list tensor) :
  o = Some x -> bind (lift o) k l 0 = k x l 0.
Proof. intros ->. reflexivity. Qed.

Lemma length_blocks_of {A : Type} (f : A -> list (slot * tensor)) (l : list A) :
  length (blocks_of f l) = length l.
Proof. unfold blocks_of. apply length_map. Qed.

Lemma unpack_serialized (seed : Z) (st : pyredner.shape_store) (scene : pyredner.Scene.t)
    (num_samples : NumSamples) (max_bounces : Z) (channels : list Channel)
    (sampler_type : SamplerType) (primary secondary : bool) :
  option_map fst
    (unpack_arguments seed
       (map snd (serialize_scene_slots st scene num_samples max_bounces channels
                   sampler_type primary secondary)) 0) =
  reconstruct seed st scene num_samples max_bounces channels sampler_type
    primary secondary.
Proof.
  rewrite serialize_scene_slots_blocks.
  rewrite !map_app, !map_snd_flat_map.
  unfold unpack_arguments, reconstruct.
  unfold count_slots, sampling_slots, trailing_slots. cbn [map snd app].
  (* the three counts *)
  do 3 (rewrite bind_next_arg by positional_steps; rewrite fst_shift;
        rewrite (bind_lift_some _ _ (py_int_constant _))).
  rewrite !Nat2Z.id.
  (* camera *)
  erewrite (@bind_block_of_length _ _ unpack_camera _ 8);
    [ | reflexivity | intros; now apply unpack_camera_block | positional_steps ].
  destruct (rebuild_camera _) as [cam|]; [|reflexivity]. rewrite fst_shift.
  (* shapes *)
  rewrite (@bind_loop_blocks _ _ unpack_shape _ 6 rebuild_shape);
    [ | positional_steps | apply unpack_shape_block
      | apply Forall_blocks_of, length_shape_slots | positional_steps
      | now rewrite length_blocks_of, length_map ].
  destruct (traverse rebuild_shape _) as [shapes|]; [|reflexivity]. rewrite fst_shift.
  (* materials *)
  rewrite (@bind_loop_blocks _ _ unpack_material _ 7 rebuild_material);
    [ | positional_steps | apply unpack_material_block
      | apply Forall_blocks_of, length_material_slots | positional_steps
      | now rewrite length_blocks_of ].
  destruct (traverse rebuild_material _) as [materials|]; [|reflexivity]. rewrite fst_shift.
  (* lights *)
  rewrite (@bind_loop_blocks _ _ unpack_light _ 3 rebuild_light);
    [ | positional_steps | apply unpack_light_block
      | apply Forall_blocks_of, length_light_slots | positional_steps
      | now rewrite length_blocks_of ].
  destruct (traverse rebuild_light _) as [lights|]; [|reflexivity]. rewrite fst_shift.
  (* environment map *)
  erewrite (@bind_block_of_length _ _ unpack_envmap _ 7);
    [ | now rewrite length_map, length_envmap_slots
      | intros; apply unpack_envmap_block; now rewrite length_map, length_envmap_slots
      | positional_steps ].
  destruct (rebuild_envmap _) as [envmap|]; [|reflexivity]. rewrite fst_shift.
  (* sampling options *)
  rewrite bind_next_arg by positional_steps. rewrite fst_shift, bind_lift.
  destruct (py_int (tf_constant_num_samples num_samples)) as [n|]; [|reflexivity].
  do 2 (rewrite bind_next_arg by positional_steps; rewrite fst_shift;
        rewrite (bind_lift_some _ _ (py_int_constant _))).
  rewrite Nat2Z.id.
  rewrite (@bind_loop_blocks _ _ unpack_channel _ 1 rebuild_channel);
    [ | positional_steps | apply unpack_channel_block
      | apply Forall_blocks_of, length_channel_slots | positional_steps
      | now rewrite length_blocks_of ].
  destruct (traverse rebuild_channel _) as [chs|]; [|reflexivity]. rewrite fst_shift.
  rewrite bind_next_arg by positional_steps. rewrite fst_shift, bind_lift.
  destruct (RednerSamplerType_asSamplerType _) as [sampler|]; [|reflexivity].
  do 2 (rewrite bind_next_arg by positional_steps; rewrite fst_shift).
  reflexivity.
Qed.

End Unpacking.

(* ================================================================== *)
(** ** The returned list as a sequence of blocks *)
(* ================================================================== *)

(** An index loop that copies one block per entity. *)
Lemma fold_index_loop {X Y : Type} (step : option (list Y) -> nat -> option (list Y))
    (block : X -> list Y) (l : list X) :
  (forall acc i x, nth_error l i = Some x -> step (Some acc) i = Some (acc ++ block x)) ->
  forall acc,
    fold_left step (seq 0 (length l)) (Some acc) = Some (acc ++ flat_map block l).
Proof.
  intros Hstep.
  assert (Hgen : forall suffix prefix acc,
             l = prefix ++ suffix ->
             fold_left step (seq (length prefix) (length suffix)) (Some acc) =
             Some (acc ++ flat_map block suffix)).
  { induction suffix as [|x suffix IH]; intros prefix acc Hl; simpl.
    - now rewrite app_nil_r.
    - rewrite (Hstep acc (length prefix) x).
      + specialize (IH (prefix ++ [x]) (acc ++ block x)).
        rewrite length_app, Nat.add_1_r in IH. rewrite IH.
        * now rewrite <- app_assoc.
        * now rewrite <- app_assoc.
      + subst l. rewrite nth_error_app2 by lia. now rewrite Nat.sub_diag. }
  intros acc. apply (Hgen l [] acc). reflexivity.
Qed.

Section Assembly.
Context {E : Engine}.

Lemma ret_envmap_block (ret_list : list (option tensor))
    (envmap : option redner.EnvironmentMap.t) :
  ret_envmap ret_list envmap = ret_list ++ envmap_grads envmap.
Proof.
  unfold envmap_grads, ret_envmap, ret_append.
  destruct envmap; simpl; repeat rewrite <- app_assoc; reflexivity.
Qed.

Lemma length_envmap_grads (envmap : option redner.EnvironmentMap.t) :
  length (envmap_grads envmap) = 7.
Proof. now destruct envmap. Qed.

(** The channel loop appends one marker per iteration. *)
Lemma fold_channel_markers (n : nat) (acc : list (option tensor)) :
  fold_left (fun ret_list (_ : nat) => ret_append ret_list None) (seq 0 n) acc =
  acc ++ repeat None n.
Proof.
  rewrite (fold_left_blocks (fun ret_list (_ : nat) => ret_append ret_list None))
    by reflexivity.
  f_equal. generalize 0 as start.
  induction n as [|n IH]; intros start; simpl; [reflexivity|].
  unfold ret_append at 1. simpl. now rewrite IH.
Qed.

Lemma assemble_ret_list_blocks (ctx : ForwardState) :
  assemble_ret_list ctx =
  Some (None :: [None; None; None] ++ (camera_grads ++ [None; None; None])
        ++ flat_map shape_grads (ctx_shapes ctx)
        ++ flat_map material_grads (ctx_materials ctx)
        ++ flat_map light_grads (ctx_area_lights ctx)
        ++ envmap_grads (ctx_envmap ctx)
        ++ [None; None; None]
        ++ repeat None (Z.to_nat (ctx_num_channels ctx))
        ++ [None; None; None]).
Proof.
  unfold assemble_ret_list. cbv zeta.
  rewrite (@fold_index_loop _ _ _ shape_grads (ctx_shapes ctx)).
  2:{ intros acc i x Hi. unfold ret_shape.
      rewrite !nth_error_map, Hi. simpl. unfold ret_append.
      repeat rewrite <- app_assoc. reflexivity. }
  rewrite (@fold_index_loop _ _ _ material_grads (ctx_materials ctx)).
  2:{ intros acc i x Hi. unfold ret_material.
      rewrite !nth_error_map, Hi. simpl. unfold ret_append.
      repeat rewrite <- app_assoc. reflexivity. }
  rewrite (@fold_index_loop _ _ _ light_grads (ctx_area_lights ctx)).
  2:{ intros acc i x Hi. unfold ret_light.
      rewrite !nth_error_map, Hi. simpl. unfold ret_append.
      repeat rewrite <- app_assoc. reflexivity. }
  rewrite ret_envmap_block, fold_channel_markers.
  unfold ret_append, camera_grads. simpl.
  repeat rewrite <- app_assoc. reflexivity.
Qed.

End Assembly.

(* ================================================================== *)
(** ** What a run of the three steps establishes *)
(* ================================================================== *)

Lemma Forall2_In_l {X Y : Type} (P : X -> Y -> Prop) (l : list X) (l' : list Y) :
  Forall2 P l l' -> Forall2 (fun x y => In x l /\ P x y) l l'.
Proof.
  induction 1 as [|x y l l' Hxy _ IH]; constructor.
  - split; [now left | exact Hxy].
  - eapply Forall2_impl; [|exact IH]. intros a b [Ha Hab]. split; [now right | exact Hab].
Qed.

Lemma traverse_blocks_Forall2 {A B : Type} (f : A -> list (slot * tensor))
    (rebuild : list tensor -> option B) (l : list A) (rs : list B) :
  traverse rebuild (blocks_of f l) = Some rs ->
  Forall2 (fun x r => In x l /\ rebuild (map snd (f x)) = Some r) l rs.
Proof.
  intros H. apply Forall2_In_l. revert rs H.
  induction l as [|x l IH]; intros rs H; simpl in H.
  - injection H as <-. constructor.
  - destruct (rebuild (map snd (f x))) as [r|] eqn:Hr; [|discriminate].
    destruct (traverse rebuild (blocks_of f l)) as [rs'|]; [|discriminate].
    injection H as <-. constructor; auto.
Qed.

Section Runs.
Context {E : Engine}.
Variables (num_samples : NumSamples) (max_bounces : Z) (channels : list Channel)
          (sampler_type : SamplerType) (primary secondary : bool).

Lemma serialize_scene_inv (scene : pyredner.Scene.t) (w w1 : World) (args : list tensor) :
  serialize_scene scene num_samples max_bounces channels sampler_type primary secondary w
    = Some (args, w1) ->
  annotate_lights scene (shape_objects w) = Some (shape_objects w1) /\
  args = map snd (serialize_scene_slots (shape_objects w1) scene num_samples max_bounces
                    channels sampler_type primary secondary) /\
  use_correlated_random_number w1 = use_correlated_random_number w /\
  ctx_forward (__ctx w1) = ctx_forward (__ctx w) /\
  engine_calls w1 = engine_calls w.
Proof.
  unfold serialize_scene. intros H.
  destruct (annotate_lights scene (shape_objects w)) as [st|]; [|discriminate].
  destruct (forallb tf_constant_accepts _); [|discriminate].
  injection H as <- <-. simpl. repeat split; reflexivity.
Qed.

Lemma serialize_scene_accepted (scene : pyredner.Scene.t) (w w1 : World)
    (args : list tensor) :
  serialize_scene scene num_samples max_bounces channels sampler_type primary secondary w
    = Some (args, w1) ->
  forallb tf_constant_accepts
    (tf_constant_arguments (shape_objects w1) scene num_samples max_bounces) = true.
Proof.
  unfold serialize_scene. intros H.
  destruct (annotate_lights scene (shape_objects w)) as [st|]; [|discriminate].
  destruct (forallb tf_constant_accepts _) eqn:Hacc; [|discriminate].
  injection H as _ <-. exact Hacc.
Qed.

Lemma serialize_scene_returns (scene : pyredner.Scene.t) (w : World)
    (st : pyredner.shape_store) :
  annotate_lights scene (shape_objects w) = Some st ->
  forallb tf_constant_accepts (tf_constant_arguments st scene num_samples max_bounces)
    = true ->
  serialize_scene scene num_samples max_bounces channels sampler_type primary secondary w
    = Some (map snd (serialize_scene_slots st scene num_samples max_bounces channels
                       sampler_type primary secondary),
            mkWorld (use_correlated_random_number w)
              (mkContext (Some scene) (ctx_forward (__ctx w))) st (engine_calls w)).
Proof. unfold serialize_scene. intros -> ->. reflexivity. Qed.

Lemma render_inv (x : list tensor) (w w' : World) (img : tensor)
    (bwd : tensor -> World -> option (list (option tensor) * World)) :
  render x w = Some (img, bwd, w') ->
  exists x0 args seed,
    x = x0 :: args /\ py_int x0 = Some seed /\
    forward seed args w = Some (img, w') /\ bwd = backward.
Proof.
  unfold render. intros H.
  destruct x as [|x0 args]; [discriminate|].
  destruct (py_int x0) as [seed|] eqn:Hseed; [|discriminate].
  destruct (forward seed args w) as [[img' w'']|] eqn:Hf; [|discriminate].
  injection H as <- <- <-. exists x0, args, seed. auto.
Qed.

Lemma forward_inv (seed : Z) (args : list tensor) (w w' : World) (img : tensor) :
  forward seed args w = Some (img, w') ->
  exists u,
    option_map fst (unpack_arguments seed args 0) = Some u /\
    ctx_forward (__ctx w') = Some (u_state u) /\
    use_correlated_random_number w' = use_correlated_random_number w /\
    shape_objects w' = shape_objects w /\
    exists call,
      engine_calls w' = engine_calls w ++ [call] /\
      redner.Call.options call = ctx_options (u_state u).
Proof.
  unfold forward. intros H.
  destruct (unpack_arguments seed args 0) as [[u j]|]; [|discriminate].
  destruct ((0 <=? fst (u_resolution u))%Z && (0 <=? snd (u_resolution u))%Z);
    [|discriminate].
  injection H as <- <-. exists u. simpl. repeat split; try reflexivity.
  eexists. split; reflexivity.
Qed.

Lemma unpack_arguments_seed (seed : Z) (args : list tensor) (i j : nat) (u : Unpacked) :
  unpack_arguments seed args i = Some (u, j) ->
  redner.RenderOptions.seed (ctx_options (u_state u)) = seed.
Proof.
  unfold unpack_arguments, bind. intros H.
  repeat match type of H with
         | context [match ?o with Some _ => _ | None => _ end] =>
             lazymatch o with
             | context [match _ with Some _ => _ | None => _ end] => fail
             | _ => destruct o as [[? ?]|]; [|discriminate]
             end
         end.
  unfold ret in H. injection H as <- <-. reflexivity.
Qed.

Lemma backward_inv (grad_img : tensor) (w w' : World) (ret_list : list (option tensor)) :
  backward grad_img w = Some (ret_list, w') ->
  exists ctx ctx' call,
    ctx_forward (__ctx w) = Some ctx /\
    assemble_ret_list ctx = Some ret_list /\
    ctx_forward (__ctx w') = Some ctx' /\
    use_correlated_random_number w' = use_correlated_random_number w /\
    engine_calls w' = engine_calls w ++ [call] /\
    redner.Call.options call = ctx_options ctx' /\
    redner.Call.d_scene call <> None /\
    redner.RenderOptions.seed (ctx_options ctx') =
      (if use_correlated_random_number w
       then redner.RenderOptions.seed (ctx_options ctx)
       else redner.RenderOptions.seed (ctx_options ctx) + 1000003)%Z.
Proof.
  unfold backward. intros H.
  destruct (ctx_forward (__ctx w)) as [ctx|]; [|discriminate].
  destruct (assemble_ret_list ctx) as [ret|] eqn:Hret; [|discriminate].
  injection H as <- <-.
  eexists ctx, _, _. simpl.
  repeat split; try reflexivity; try discriminate; try exact Hret.
  unfold get_use_correlated_random_number.
  now destruct (use_correlated_random_number w).
Qed.

(** The three steps run one after the other: flatten the scene, render
    with some seed tensor in front, call the closure. *)
Lemma run_inv (scene : pyredner.Scene.t) (w w1 w2 w3 : World) (x0 grad_img img : tensor)
    (args : list tensor) (bwd : tensor -> World -> option (list (option tensor) * World))
    (ret_list : list (option tensor)) :
  serialize_scene scene num_samples max_bounces channels sampler_type primary secondary w
    = Some (args, w1) ->
  render (x0 :: args) w1 = Some (img, bwd, w2) ->
  bwd grad_img w2 = Some (ret_list, w3) ->
  exists seed u,
    reconstruct seed (shape_objects w1) scene num_samples max_bounces channels
      sampler_type primary secondary = Some u /\
    assemble_ret_list (u_state u) = Some ret_list.
Proof.
  intros Hs Hr Hb.
  apply serialize_scene_inv in Hs as (_ & -> & _).
  apply render_inv in Hr as (x0' & args' & seed & Hx & _ & Hf & ->).
  injection Hx as <- <-.
  apply forward_inv in Hf as (u & Hu & Hctx & _).
  apply backward_inv in Hb as (ctx & _ & _ & Hctx' & Hret & _).
  rewrite Hctx in Hctx'. injection Hctx' as <-.
  rewrite unpack_serialized in Hu. eauto.
Qed.

(** The flattened list and the returned list, the seed slot apart, run in
    parallel: whatever relation holds block by block holds slot by slot. *)
Lemma mirrored (R : slot * tensor -> option tensor -> Prop) (seed : Z)
    (st : pyredner.shape_store) (scene : pyredner.Scene.t) (u : Unpacked) :
  reconstruct seed st scene num_samples max_bounces channels sampler_type
    primary secondary = Some u ->
  Forall2 R (count_slots scene) [None; None; None] ->
  Forall2 R (camera_slots (pyredner.Scene.camera scene))
            (camera_grads ++ [None; None; None]) ->
  (forall sh rsh, In sh (map st (pyredner.Scene.shapes scene)) ->
     rebuild_shape (map snd (shape_slots sh)) = Some rsh ->
     Forall2 R (shape_slots sh) (shape_grads rsh)) ->
  (forall m rm, In m (pyredner.Scene.materials scene) ->
     rebuild_material (map snd (material_slots m)) = Some rm ->
     Forall2 R (material_slots m) (material_grads rm)) ->
  (forall l rl, In l (pyredner.Scene.area_lights scene) ->
     rebuild_light (map snd (light_slots l)) = Some rl ->
     Forall2 R (light_slots l) (light_grads rl)) ->
  (forall renv,
     rebuild_envmap (map snd (envmap_slots (pyredner.Scene.envmap scene))) = Some renv ->
     Forall2 R (envmap_slots (pyredner.Scene.envmap scene)) (envmap_grads renv)) ->
  Forall2 R (sampling_slots num_samples max_bounces channels) [None; None; None] ->
  (forall c, R (s_channel, RednerChannels_asTensor c) None) ->
  Forall2 R (trailing_slots sampler_type primary secondary) [None; None; None] ->
  exists ret,
    assemble_ret_list (u_state u) = Some (None :: ret) /\
    Forall2 R (serialize_scene_slots st scene num_samples max_bounces channels
                 sampler_type primary secondary) ret.
Proof.
  intros Hu Hcount Hcam Hshape Hmat Hlight Henv Hsamp Hch Htrail.
  unfold reconstruct in Hu.
  destruct (rebuild_camera _) as [cam|]; [|discriminate].
  destruct (traverse rebuild_shape _) as [shapes|] eqn:Hshapes; [|discriminate].
  destruct (traverse rebuild_material _) as [materials|] eqn:Hmats; [|discriminate].
  destruct (traverse rebuild_light _) as [lights|] eqn:Hlights; [|discriminate].
  destruct (rebuild_envmap _) as [envmap|] eqn:Hrenv; [|discriminate].
  destruct (py_int _) as [n|]; [|discriminate].
  destruct (traverse rebuild_channel _) as [chs|]; [|discriminate].
  destruct (RednerSamplerType_asSamplerType _) as [sampler|]; [|discriminate].
  injection Hu as <-.
  rewrite assemble_ret_list_blocks. simpl u_state.
  cbn [ctx_shapes ctx_materials ctx_area_lights ctx_envmap ctx_num_channels].
  eexists. split; [reflexivity|].
  rewrite serialize_scene_slots_blocks.
  apply traverse_blocks_Forall2 in Hshapes, Hmats, Hlights.
  repeat apply Forall2_app; auto.
  - eapply Forall2_flat_map; [exact Hshapes|]. intros a b [Ha Hb]. auto.
  - eapply Forall2_flat_map; [exact Hmats|]. intros a b [Ha Hb]. auto.
  - eapply Forall2_flat_map; [exact Hlights|]. intros a b [Ha Hb]. auto.
  - rewrite Nat2Z.id. clear -Hch.
    induction channels as [|c cs IH]; simpl; constructor; auto.
Qed.

(* ================================================================== *)
(** ** Length and markers of the returned list *)
(* ================================================================== *)

(** C1 (amended).  For every scene and rendering options, whenever the
    scene is flattened, rendered and differentiated, the list returned by
    the backward pass is exactly one longer than the list produced by
    [serialize_scene]: it has one entry for each positional argument of
    [render], that is for the seed followed by the flattened arguments. *)
Theorem backward_length (scene : pyredner.Scene.t) (w w1 w2 w3 : World)
    (x0 grad_img img : tensor) (args : list tensor)
    (bwd : tensor -> World -> option (list (option tensor) * World))
    (ret_list : list (option tensor)) :
  serialize_scene scene num_samples max_bounces channels sampler_type primary secondary w
    = Some (args, w1) ->
  render (x0 :: args) w1 = Some (img, bwd, w2) ->
  bwd grad_img w2 = Some (ret_list, w3) ->
  length ret_list = length (x0 :: args) /\
  length ret_list = S (length args).
Proof.
  intros Hs Hr Hb.
  edestruct run_inv as (seed & u & Hu & Hret); [exact Hs | exact Hr | exact Hb |].
  apply serialize_scene_inv in Hs as (_ & -> & _).
  assert (HM : exists ret,
             assemble_ret_list (u_state u) = Some (None :: ret) /\
             Forall2 (fun _ _ => True)
               (serialize_scene_slots (shape_objects w1) scene num_samples max_bounces
                  channels sampler_type primary secondary) ret).
  { eapply mirrored; [exact Hu | ..];
      intros; unfold shape_slots, append_shape, append, envmap_slots, append_envmap,
        envmap_grads, ret_envmap, ret_append;
      repeat match goal with |- context [match ?o with _ => _ end] => destruct o end;
      simpl; repeat constructor. }
  destruct HM as (ret & Hret' & HF).
  rewrite Hret in Hret'. injection Hret' as ->.
  apply Forall2_length in HF. simpl. rewrite length_map. lia.
Qed.

(** C2.  For every scene and options, every position of the flattened list
    that holds a count, an index, a flag or a tag (the shape, material and
    light counts, clip-near, resolution, the camera-type tag, triangle
    indices, material, light and shape ids, two-sided flags, sample count,
    max bounces, channel count, channel tags, the sampler tag and the
    edge-sampling flags) corresponds, one place further in the returned
    list because of the seed, to the marker [None]. *)
Theorem non_differentiable_slots_hold_marker (scene : pyredner.Scene.t)
    (w w1 w2 w3 : World) (x0 grad_img img : tensor) (args : list tensor)
    (bwd : tensor -> World -> option (list (option tensor) * World))
    (ret_list : list (option tensor)) :
  serialize_scene scene num_samples max_bounces channels sampler_type primary secondary w
    = Some (args, w1) ->
  render (x0 :: args) w1 = Some (img, bwd, w2) ->
  bwd grad_img w2 = Some (ret_list, w3) ->
  forall i s v,
    nth_error (serialize_scene_slots (shape_objects w1) scene num_samples max_bounces
                 channels sampler_type primary secondary) i = Some (s, v) ->
    non_differentiable s = true ->
    nth_error args i = Some v /\ nth_error ret_list (S i) = Some None.
Proof.
  intros Hs Hr Hb i s v Hi Hnd.
  edestruct run_inv as (seed & u & Hu & Hret); [exact Hs | exact Hr | exact Hb |].
  apply serialize_scene_inv in Hs as (_ & -> & _).
  split.
  { rewrite nth_error_map, Hi. reflexivity. }
  assert (HM : exists ret,
             assemble_ret_list (u_state u) = Some (None :: ret) /\
             Forall2 (fun sv g => non_differentiable (fst sv) = true -> g = None)
               (serialize_scene_slots (shape_objects w1) scene num_samples max_bounces
                  channels sampler_type primary secondary) ret).
  { eapply mirrored; [exact Hu | ..];
      intros; unfold shape_slots, append_shape, append, envmap_slots, append_envmap,
        envmap_grads, ret_envmap, ret_append;
      repeat match goal with |- context [match ?o with _ => _ end] => destruct o end;
      simpl; repeat constructor; simpl; intros; try reflexivity; discriminate. }
  destruct HM as (ret & Hret' & HF).
  rewrite Hret in Hret'. injection Hret' as ->. simpl.
  pose proof (Forall2_nth_error_l HF) as HN.
  destruct (HN _ _ Hi) as (g & Hg & HR).
  rewrite Hg, (HR Hnd). reflexivity.
Qed.

End Runs.

(* ================================================================== *)
(** ** What is rebuilt from one block *)
(* ================================================================== *)

Lemma shape_slots_eq (sh : pyredner.Shape.t) :
  shape_slots sh =
  [(s_vertices, pyredner.Shape.vertices sh);
   (s_indices, pyredner.Shape.indices sh);
   (s_uvs, or_empty (pyredner.Shape.uvs sh));
   (s_normals, or_empty (pyredner.Shape.normals sh));
   (s_material_id, tf_constant_int (pyredner.Shape.material_id sh));
   (s_light_id, tf_constant_int (pyredner.Shape.light_id sh))].
Proof.
  unfold shape_slots, append_shape, append.
  now destruct (pyredner.Shape.uvs sh), (pyredner.Shape.normals sh).
Qed.

Lemma envmap_slots_eq (envmap : option pyredner.EnvironmentMap.t) :
  envmap_slots envmap =
  match envmap with
  | Some e =>
      [(s_env_values, pyredner.Texture.mipmap (pyredner.EnvironmentMap.values e));
       (s_env_uv_scale, pyredner.Texture.uv_scale (pyredner.EnvironmentMap.values e));
       (s_env_to_world, pyredner.EnvironmentMap.env_to_world e);
       (s_world_to_env, pyredner.EnvironmentMap.world_to_env e);
       (s_sample_cdf_ys, pyredner.EnvironmentMap.sample_cdf_ys e);
       (s_sample_cdf_xs, pyredner.EnvironmentMap.sample_cdf_xs e);
       (s_pdf_norm, pyredner.EnvironmentMap.pdf_norm e)]
  | None =>
      [(s_env_values, __EMPTY_TENSOR); (s_env_uv_scale, __EMPTY_TENSOR);
       (s_env_to_world, __EMPTY_TENSOR); (s_world_to_env, __EMPTY_TENSOR);
       (s_sample_cdf_ys, __EMPTY_TENSOR); (s_sample_cdf_xs, __EMPTY_TENSOR);
       (s_pdf_norm, __EMPTY_TENSOR)]
  end.
Proof. now destruct envmap. Qed.

Ltac invert_options H :=
  repeat match type of H with
         | context [match ?o with Some _ => _ | None => _ end] =>
             lazymatch o with
             | context [match _ with Some _ => _ | None => _ end] => fail
             | _ => let Heq := fresh "Heq" in
                    destruct o eqn:Heq; simpl in H; [|discriminate H]
             end
         end.

Section Rebuilding.
Context {E : Engine}.

Lemma rebuild_shape_inv (v i u n m l : tensor) (rsh : redner.Shape.t) :
  rebuild_shape [v; i; u; n; m; l] = Some rsh ->
  exists nv nt mid lid,
    shape_at v 0 = Some nv /\ shape_at i 0 = Some nt /\
    py_int m = Some mid /\ py_int l = Some lid /\
    rsh = redner.Shape.mk (data_ptr v) (data_ptr i) (data_ptr u) (data_ptr n)
            nv nt mid lid.
Proof.
  unfold rebuild_shape, unpack_shape, bind, next_arg, lift, ret. simpl. intros H.
  invert_options H. injection H as <-. eauto 10.
Qed.

Lemma rebuild_material_inv (d duv s suv r ruv ts : tensor) (rm : redner.Material.t) :
  rebuild_material [d; duv; s; suv; r; ruv; ts] = Some rm ->
  exists td tsp tr b,
    make_texture3 d duv = Some td /\ make_texture3 s suv = Some tsp /\
    make_texture1 r ruv = Some tr /\ py_bool ts = Some b /\
    rm = redner.Material.mk td tsp tr b.
Proof.
  unfold rebuild_material, unpack_material, bind, next_arg, lift, ret. simpl. intros H.
  invert_options H. injection H as <-. eauto 10.
Qed.

Lemma rebuild_envmap_inv (v uv e2w w2e ys xs pdf : tensor)
    (renv : option redner.EnvironmentMap.t) :
  rebuild_envmap [v; uv; e2w; w2e; ys; xs; pdf] = Some renv ->
  (is_empty_tensor v = true /\ renv = None) \/
  (is_empty_tensor v = false /\
   exists width height num_levels q,
     shape_at v 2 = Some width /\ shape_at v 1 = Some height /\
     shape_at v 0 = Some num_levels /\ py_float pdf = Some q /\
     renv = Some (redner.EnvironmentMap.mk
                    (redner.Texture3.mk (data_ptr v) width height num_levels (data_ptr uv))
                    (data_ptr e2w) (data_ptr w2e) (data_ptr ys) (data_ptr xs) q)).
Proof.
  unfold rebuild_envmap, unpack_envmap, bind, peek_arg, next_arg, lift, skip, ret.
  simpl. intros H.
  destruct (is_empty_tensor v); simpl in H.
  - left. injection H as <-. auto.
  - right. split; [reflexivity|].
    invert_options H. injection H as <-. eauto 10.
Qed.

End Rebuilding.

(* ================================================================== *)
(** ** Shapes of the gradient buffers *)
(* ================================================================== *)

Lemma shape_eqb_eq (a b : list nat) : shape_eqb a b = true -> a = b.
Proof.
  revert b. induction a as [|x a IH]; intros [|y b] H; simpl in H;
    try discriminate; [reflexivity|].
  apply andb_prop in H as [Hx Hab]. apply Nat.eqb_eq in Hx. f_equal; auto.
Qed.

Lemma mirror_of_shape (v : tensor) (s : list nat) :
  t_shape v = s -> fold_right Nat.mul 1 s <> 0 -> mirror_of v = Some (np_zeros s).
Proof.
  intros Hs Hne. unfold mirror_of, is_empty_tensor, tf_size. rewrite Hs.
  apply Nat.eqb_neq in Hne. now rewrite Hne.
Qed.

Lemma mirror_of_present (v : tensor) :
  present v = true -> mirror_of v = Some (np_zeros (t_shape v)).
Proof.
  unfold present, mirror_of. now destruct (is_empty_tensor v).
Qed.

Section ShapeMatching.
Context {E : Engine}.
Hypothesis Hnull : null_iff_empty.

Lemma has_buffer_of (v : tensor) (n k : nat) :
  (if negb (Z.eqb (data_ptr v) 0) then Some (np_zeros [n; k]) else None) =
  (if is_empty_tensor v then None else Some (np_zeros [n; k])).
Proof. rewrite Hnull. now destruct (is_empty_tensor v). Qed.

Lemma camera_block_mirrors (cam : pyredner.Camera.t) :
  camera_well_shaped cam = true ->
  Forall2 mirrors (camera_slots cam) (camera_grads ++ [None; None; None]).
Proof.
  unfold camera_well_shaped. intros H.
  repeat (apply andb_prop in H as [H ?]).
  repeat match goal with
         | Hs : shape_eqb _ _ = true |- _ => apply shape_eqb_eq in Hs
         end.
  unfold camera_slots, camera_grads. simpl.
  repeat constructor; intros Hd; simpl in *; try discriminate;
    symmetry; apply mirror_of_shape; auto; discriminate.
Qed.

Lemma shape_block_mirrors (sh : pyredner.Shape.t) (rsh : redner.Shape.t) :
  shape_well_shaped sh = true ->
  rebuild_shape (map snd (shape_slots sh)) = Some rsh ->
  Forall2 mirrors (shape_slots sh) (shape_grads rsh).
Proof.
  unfold shape_well_shaped. intros H Hr.
  repeat (apply andb_prop in H as [H ?]).
  apply negb_true_iff, Nat.eqb_neq in H.
  match goal with
  | Hs : shape_eqb _ [_; 3] = true |- _ => apply shape_eqb_eq in Hs; rename Hs into Hv
  end.
  rewrite shape_slots_eq in *. simpl in Hr.
  apply rebuild_shape_inv in Hr as (nv & nt & mid & lid & Hnv & _ & _ & _ & ->).
  unfold shape_at in Hnv. rewrite Hv in Hnv. injection Hnv as <-.
  unfold shape_grads, d_vertices_of, d_uvs_of, d_normals_of,
    redner.Shape.has_uvs, redner.Shape.has_normals. simpl.
  rewrite !has_buffer_of.
  repeat constructor; intros Hd; simpl in *; try discriminate.
  - symmetry. apply mirror_of_shape; [exact Hv | simpl; lia].
  - destruct (pyredner.Shape.uvs sh) as [t|]; simpl; [|reflexivity].
    apply shape_eqb_eq in H1. unfold mirror_of. now rewrite H1.
  - destruct (pyredner.Shape.normals sh) as [t|]; simpl; [|reflexivity].
    apply shape_eqb_eq in H0. unfold mirror_of. now rewrite H0.
Qed.

Lemma rank4_shape (v : tensor) :
  get_tensor_dimension v = 4 ->
  exists l h w k, t_shape v = [l; h; w; k].
Proof.
  unfold get_tensor_dimension. intros H.
  destruct (t_shape v) as [|l [|h [|w [|k [|]]]]]; try discriminate. eauto.
Qed.

Lemma present_width (v : tensor) (l h w k : nat) :
  t_shape v = [l; h; w; k] -> present v = true -> w <> 0.
Proof.
  unfold present, is_empty_tensor, tf_size. intros -> H. simpl in H.
  apply negb_true_iff, Nat.eqb_neq in H. nia.
Qed.

Lemma texture3_mirrors (v uv : tensor) (tex : redner.Texture3.t) :
  texture_well_shaped 3 v = true ->
  make_texture3 v uv = Some tex ->
  (if Nat.eqb (redner.Texture3.width tex) 0 then np_zeros [3]
   else np_zeros [redner.Texture3.num_levels tex; redner.Texture3.height tex;
                  redner.Texture3.width tex; 3]) = np_zeros (t_shape v)
  /\ mirror_of v = Some (np_zeros (t_shape v)).
Proof.
  unfold texture_well_shaped, make_texture3. intros H Ht.
  apply orb_prop in H as [H|H].
  - apply shape_eqb_eq in H. unfold get_tensor_dimension, shape_at in Ht.
    rewrite H in *. simpl in Ht. injection Ht as <-. simpl.
    split; [reflexivity|]. apply mirror_of_shape; [exact H | discriminate].
  - apply andb_prop in H as [H Hp]. apply andb_prop in H as [Hr Hk].
    apply Nat.eqb_eq in Hr, Hk.
    destruct (rank4_shape _ Hr) as (l & h & w & k & Hs).
    pose proof (present_width _ Hs Hp) as Hw.
    split; [|now apply mirror_of_present].
    unfold get_tensor_dimension, shape_at in Ht. rewrite Hs in *. simpl in *.
    injection Ht as <-. simpl. subst k.
    apply Nat.eqb_neq in Hw. now rewrite Hw.
Qed.

Lemma texture1_mirrors (v uv : tensor) (tex : redner.Texture1.t) :
  texture_well_shaped 1 v = true ->
  make_texture1 v uv = Some tex ->
  (if Nat.eqb (redner.Texture1.width tex) 0 then np_zeros [1]
   else np_zeros [redner.Texture1.num_levels tex; redner.Texture1.height tex;
                  redner.Texture1.width tex; 1]) = np_zeros (t_shape v)
  /\ mirror_of v = Some (np_zeros (t_shape v)).
Proof.
  unfold texture_well_shaped, make_texture1. intros H Ht.
  apply orb_prop in H as [H|H].
  - apply shape_eqb_eq in H. unfold get_tensor_dimension, shape_at in Ht.
    rewrite H in *. simpl in Ht. injection Ht as <-. simpl.
    split; [reflexivity|]. apply mirror_of_shape; [exact H | discriminate].
  - apply andb_prop in H as [H Hp]. apply andb_prop in H as [Hr Hk].
    apply Nat.eqb_eq in Hr, Hk.
    destruct (rank4_shape _ Hr) as (l & h & w & k & Hs).
    pose proof (present_width _ Hs Hp) as Hw.
    split; [|now apply mirror_of_present].
    unfold get_tensor_dimension, shape_at in Ht. rewrite Hs in *. simpl in *.
    injection Ht as <-. simpl. subst k.
    apply Nat.eqb_neq in Hw. now rewrite Hw.
Qed.

Lemma material_block_mirrors (m : pyredner.Material.t) (rm : redner.Material.t) :
  material_well_shaped m = true ->
  rebuild_material (map snd (material_slots m)) = Some rm ->
  Forall2 mirrors (material_slots m) (material_grads rm).
Proof.
  unfold material_well_shaped. intros H Hr.
  apply andb_prop in H as [H Hro]. apply andb_prop in H as [Hdi Hsp].
  simpl in Hr.
  apply rebuild_material_inv in Hr as (td & tsp & tr & b & Hd & Hs & Hrr & _ & ->).
  destruct (texture3_mirrors _ _ Hdi Hd) as [Hd1 Hd2].
  destruct (texture3_mirrors _ _ Hsp Hs) as [Hs1 Hs2].
  destruct (texture1_mirrors _ _ Hro Hrr) as [Hr1 Hr2].
  unfold material_slots, append_material, append, material_grads,
    d_diffuse_of, d_specular_of, d_roughness_of. simpl.
  unfold size0, size1, size2. simpl.
  rewrite Hd1, Hs1, Hr1.
  repeat constructor; intros Hdiff; simpl in *; try discriminate; congruence.
Qed.

Lemma light_block_mirrors (l : pyredner.AreaLight.t) (rl : redner.AreaLight.t) :
  light_well_shaped l = true ->
  Forall2 mirrors (light_slots l) (light_grads rl).
Proof.
  unfold light_well_shaped. intros H. apply shape_eqb_eq in H.
  unfold light_slots, append_light, append, light_grads, d_intensity_of. simpl.
  repeat constructor; intros Hdiff; simpl in *; try discriminate.
  symmetry. apply mirror_of_shape; [exact H | discriminate].
Qed.

Lemma envmap_block_mirrors (envmap : option pyredner.EnvironmentMap.t)
    (renv : option redner.EnvironmentMap.t) :
  match envmap with Some e => envmap_well_shaped e = true | None => True end ->
  rebuild_envmap (map snd (envmap_slots envmap)) = Some renv ->
  Forall2 mirrors (envmap_slots envmap) (envmap_grads renv).
Proof.
  intros H Hr. rewrite envmap_slots_eq in *.
  destruct envmap as [e|]; simpl in Hr.
  - unfold envmap_well_shaped in H.
    repeat (apply andb_prop in H as [H ?]).
    apply Nat.eqb_eq in H.
    match goal with Hk : Nat.eqb (nth 3 _ 0) 3 = true |- _ => apply Nat.eqb_eq in Hk end.
    match goal with Hw : shape_eqb _ [4; 4] = true |- _ => apply shape_eqb_eq in Hw end.
    destruct (rank4_shape _ H) as (l & h & w & k & Hs).
    apply rebuild_envmap_inv in Hr
      as [[Hempty _] | (_ & wi & he & nl & q & Hwi & Hhe & Hnl & _ & ->)].
    + unfold present in *. rewrite Hempty in *. discriminate.
    + unfold shape_at in *. rewrite Hs in *. simpl in *.
      injection Hwi as <-. injection Hhe as <-. injection Hnl as <-. subst k.
      unfold envmap_grads, ret_envmap, ret_append, d_envmap_values_of,
        d_world_to_env_of. simpl. unfold size0, size1, size2. simpl.
      repeat constructor; intros Hdiff; simpl in *; try discriminate.
      * rewrite <- Hs. symmetry. now apply mirror_of_present.
      * symmetry. apply mirror_of_shape; [assumption | discriminate].
  - apply rebuild_envmap_inv in Hr as [[_ ->] | (Hne & _)]; [|discriminate].
    unfold envmap_grads, ret_envmap, ret_append. simpl.
    repeat constructor; intros Hdiff; simpl in *; try discriminate; reflexivity.
Qed.

End ShapeMatching.

Lemma np_zeros_zero_initialised (shape : list nat) :
  t_shape (np_zeros shape) = shape /\ zero_initialised (np_zeros shape).
Proof.
  split; [reflexivity|].
  exists (repeat (inject_Z 0) (fold_right Nat.mul 1 shape)). simpl.
  split; [reflexivity|]. split; [apply repeat_length|].
  apply Forall_forall. intros q Hq. now apply repeat_spec in Hq.
Qed.

Section ShapeTheorem.
Context {E : Engine}.
Variables (num_samples : NumSamples) (max_bounces : Z) (channels : list Channel)
          (sampler_type : SamplerType) (primary secondary : bool).


End ShapeTheorem.

(* ================================================================== *)
(** ** Positions in the flattened list *)
(* ================================================================== *)

Lemma flat_map_block_at {A X : Type} (f : A -> list X) (k : nat) (l : list A)
    (post : list X) (i : nat) (a : A) :
  (forall a, length (f a) = k) ->
  nth_error l i = Some a ->
  firstn k (skipn (k * i) (flat_map f l ++ post)) = f a.
Proof.
  intros Hk. revert i. induction l as [|b l IH]; intros i Hi.
  - destruct i; discriminate.
  - destruct i as [|i]; simpl in Hi.
    + injection Hi as ->. rewrite Nat.mul_0_r. simpl. rewrite <- app_assoc.
      rewrite firstn_app, <- (Hk a), Nat.sub_diag, firstn_all. simpl.
      now rewrite app_nil_r.
    + simpl. rewrite <- app_assoc.
      replace (k * S i) with (k * i + length (f b)) by (rewrite Hk; lia).
      rewrite <- skipn_skipn.
      rewrite skipn_app, Nat.sub_diag, skipn_all. simpl. auto.
Qed.

Lemma map_flat_map {A X Y : Type} (g : X -> Y) (f : A -> list X) (l : list A) :
  map g (flat_map f l) = flat_map (fun a => map g (f a)) l.
Proof.
  induction l as [|a l IH]; simpl; [reflexivity|]. now rewrite map_app, IH.
Qed.

Section Layout.
Context {E : Engine}.
Variables (num_samples : NumSamples) (max_bounces : Z) (channels : list Channel)
          (sampler_type : SamplerType) (primary secondary : bool).


Lemma skipn_block {X : Type} (a l : list X) (n m : nat) :
  length a = n -> skipn (n + m) (a ++ l) = skipn m l.
Proof.
  intros <-. rewrite Nat.add_comm, <- skipn_skipn.
  now rewrite skipn_app, Nat.sub_diag, skipn_all.
Qed.

Lemma firstn_block {X : Type} (a l : list X) (n : nat) :
  length a = n -> firstn n (a ++ l) = a.
Proof.
  intros <-. rewrite firstn_app, Nat.sub_diag, firstn_all. simpl. apply app_nil_r.
Qed.

Lemma nth_skipn_firstn {X : Type} (l : list X) (n k : nat) (d : X) :
  nth n l d = hd d (firstn (S k) (skipn n l)).
Proof.
  revert l. induction n as [|n IH]; intros [|x l]; simpl; auto.
Qed.

Lemma reconstruct_inv (seed : Z) (st : pyredner.shape_store) (scene : pyredner.Scene.t)
    (u : Unpacked) :
  reconstruct seed st scene num_samples max_bounces channels sampler_type
    primary secondary = Some u ->
  length (ctx_shapes (u_state u)) = length (pyredner.Scene.shapes scene) /\
  length (ctx_materials (u_state u)) = length (pyredner.Scene.materials scene) /\
  length (ctx_area_lights (u_state u)) = length (pyredner.Scene.area_lights scene) /\
  rebuild_envmap (map snd (envmap_slots (pyredner.Scene.envmap scene)))
    = Some (ctx_envmap (u_state u)) /\
  ctx_num_channels (u_state u) = Z.of_nat (length channels) /\
  redner.RenderOptions.seed (ctx_options (u_state u)) = seed.
Proof.
  unfold reconstruct. intros Hu.
  destruct (rebuild_camera _) as [cam|]; [|discriminate].
  destruct (traverse rebuild_shape _) as [shapes|] eqn:Hshapes; [|discriminate].
  destruct (traverse rebuild_material _) as [materials|] eqn:Hmats; [|discriminate].
  destruct (traverse rebuild_light _) as [lights|] eqn:Hlights; [|discriminate].
  destruct (rebuild_envmap _) as [envmap|] eqn:Hrenv; [|discriminate].
  destruct (py_int _) as [n|]; [|discriminate].
  destruct (traverse rebuild_channel _) as [chs|]; [|discriminate].
  destruct (RednerSamplerType_asSamplerType _) as [sampler|]; [|discriminate].
  injection Hu as <-. simpl.
  apply traverse_length in Hshapes, Hmats, Hlights.
  rewrite length_blocks_of in Hshapes. rewrite length_blocks_of in Hmats.
  rewrite length_blocks_of in Hlights.
  rewrite length_map in Hshapes. auto 10.
Qed.

(** C4 (amended).  For every scene and options, the seven positions of the
    environment map block start at index 11 + 6 (shapes) + 7 (materials) +
    3 (lights) of the flattened list and one place further in the returned
    list.  In the flattened list they are all-or-nothing: seven empty
    markers when the scene has no environment map, the seven fields of the
    map (radiance mipmap, UV scale, env-to-world, world-to-env, the two CDF
    buffers, the PDF normalisation) when it has one.  In the returned list
    they are seven markers when the first of these arguments is empty, in
    particular when the scene has no environment map; otherwise only the
    radiance slot and the world-to-env slot hold buffers, of shape
    (L,H,W,3) and (4,4), and the UV scale, env-to-world, CDF and PDF slots
    hold the marker. *)
Theorem envmap_block_layout (scene : pyredner.Scene.t) (w w1 w2 w3 : World)
    (x0 grad_img img : tensor) (args : list tensor)
    (bwd : tensor -> World -> option (list (option tensor) * World))
    (ret_list : list (option tensor)) :
  serialize_scene scene num_samples max_bounces channels sampler_type primary secondary w
    = Some (args, w1) ->
  render (x0 :: args) w1 = Some (img, bwd, w2) ->
  bwd grad_img w2 = Some (ret_list, w3) ->
  let off := envmap_offset scene in
  let first := nth off args __EMPTY_TENSOR in
  firstn 7 (skipn off args) =
    match pyredner.Scene.envmap scene with
    | None => repeat __EMPTY_TENSOR 7
    | Some e =>
        [pyredner.Texture.mipmap (pyredner.EnvironmentMap.values e);
         pyredner.Texture.uv_scale (pyredner.EnvironmentMap.values e);
         pyredner.EnvironmentMap.env_to_world e;
         pyredner.EnvironmentMap.world_to_env e;
         pyredner.EnvironmentMap.sample_cdf_ys e;
         pyredner.EnvironmentMap.sample_cdf_xs e;
         pyredner.EnvironmentMap.pdf_norm e]
    end /\
  firstn 7 (skipn (S off) ret_list) =
    if is_empty_tensor first then repeat None 7
    else [Some (np_zeros (firstn 3 (t_shape first) ++ [3])); None; None;
          Some (np_zeros [4; 4]); None; None; None].
Proof.
  intros Hs Hr Hb off first.
  edestruct run_inv as (seed & u & Hu & Hret); [exact Hs | exact Hr | exact Hb |].
  apply serialize_scene_inv in Hs as (_ & Hargs & _).
  apply reconstruct_inv in Hu as (Hns & Hnm & Hnl & Hrenv & _).
  assert (Hblock : firstn 7 (skipn off args) =
                   map snd (envmap_slots (pyredner.Scene.envmap scene))).
  { rewrite Hargs, serialize_scene_slots_blocks, !map_app.
    unfold off, envmap_offset.
    replace (11 + 6 * length (pyredner.Scene.shapes scene)
             + 7 * length (pyredner.Scene.materials scene)
             + 3 * length (pyredner.Scene.area_lights scene))
      with (3 + (8 + (6 * length (pyredner.Scene.shapes scene)
                      + (7 * length (pyredner.Scene.materials scene)
                         + (3 * length (pyredner.Scene.area_lights scene) + 0)))))
      by lia.
    rewrite skipn_block by reflexivity.
    rewrite skipn_block by reflexivity.
    rewrite skipn_block
      by (rewrite length_map, (length_flat_map_blocks _ _ length_shape_slots),
            length_map; reflexivity).
    rewrite skipn_block
      by (rewrite length_map; apply (length_flat_map_blocks _ _ length_material_slots)).
    rewrite skipn_block
      by (rewrite length_map; apply (length_flat_map_blocks _ _ length_light_slots)).
    simpl skipn. apply firstn_block.
    now rewrite length_map, length_envmap_slots. }
  assert (Hgrads : firstn 7 (skipn (S off) ret_list) = envmap_grads (ctx_envmap (u_state u))).
  { rewrite assemble_ret_list_blocks in Hret. injection Hret as <-.
    unfold off, envmap_offset.
    replace (11 + 6 * length (pyredner.Scene.shapes scene)
             + 7 * length (pyredner.Scene.materials scene)
             + 3 * length (pyredner.Scene.area_lights scene))
      with (3 + (8 + (6 * length (ctx_shapes (u_state u))
                      + (7 * length (ctx_materials (u_state u))
                         + (3 * length (ctx_area_lights (u_state u)) + 0)))))
      by lia.
    cbn [skipn Nat.add].
    rewrite skipn_block
      by (apply (length_flat_map_blocks shape_grads); reflexivity).
    rewrite skipn_block
      by (apply (length_flat_map_blocks material_grads); reflexivity).
    rewrite skipn_block
      by (apply (length_flat_map_blocks light_grads); reflexivity).
    simpl skipn. apply firstn_block. apply length_envmap_grads. }
  assert (Hfirst : first = hd __EMPTY_TENSOR
                             (map snd (envmap_slots (pyredner.Scene.envmap scene)))).
  { unfold first. rewrite (nth_skipn_firstn args off 6), Hblock. reflexivity. }
  split.
  - rewrite Hblock, envmap_slots_eq. now destruct (pyredner.Scene.envmap scene).
  - rewrite Hgrads, Hfirst. clear Hgrads Hfirst Hblock.
    rewrite envmap_slots_eq in *.
    destruct (pyredner.Scene.envmap scene) as [e|]; simpl in *.
    + apply rebuild_envmap_inv in Hrenv
        as [[Hempty ->] | (Hne & wi & he & nl & q & Hwi & Hhe & Hlv & _ & ->)].
      * rewrite Hempty. reflexivity.
      * rewrite Hne. unfold shape_at in *.
        destruct (t_shape (pyredner.Texture.mipmap (pyredner.EnvironmentMap.values e)))
          as [|l [|h [|w' rest]]]; try discriminate.
        simpl in *. injection Hwi as <-. injection Hhe as <-. injection Hlv as <-.
        reflexivity.
    + apply rebuild_envmap_inv in Hrenv as [[_ ->] | (Hne & _)]; [|discriminate].
      reflexivity.
Qed.

End Layout.

(* ================================================================== *)
(** ** Texture reconstruction *)
(* ================================================================== *)

Section Textures.
Context {E : Engine}.

Lemma make_texture3_from (t uv : tensor) (tex : redner.Texture3.t) :
  make_texture3 t uv = Some tex -> texture3_from t uv tex.
Proof.
  unfold make_texture3, texture3_from, get_tensor_dimension, shape_at. intros H. split.
  - intros Hr. rewrite Hr in H. simpl in H. now injection H as <-.
  - intros L Hh W C Hs. rewrite Hs in H. simpl in H. now injection H as <-.
Qed.

Lemma make_texture1_from (t uv : tensor) (tex : redner.Texture1.t) :
  make_texture1 t uv = Some tex ->
  texture1_from t uv tex /\ (get_tensor_dimension t = 1 \/ get_tensor_dimension t = 4).
Proof.
  unfold make_texture1, texture1_from, get_tensor_dimension, shape_at. intros H.
  repeat split.
  - intros Hr. rewrite Hr in H. simpl in H. now injection H as <-.
  - intros L Hh W C Hs. rewrite Hs in H. simpl in H. now injection H as <-.
  - destruct (Nat.eqb_spec (length (t_shape t)) 1) as [H1|H1]; [now left|].
    destruct (Nat.eqb_spec (length (t_shape t)) 4) as [H4|H4]; [now right|].
    discriminate.
Qed.

Lemma make_texture3_fails (t uv : tensor) :
  make_texture3 t uv = None ->
  get_tensor_dimension t <> 1 /\ get_tensor_dimension t < 3.
Proof.
  unfold make_texture3, get_tensor_dimension, shape_at. intros H.
  destruct (Nat.eqb_spec (length (t_shape t)) 1) as [H1|H1]; [discriminate|].
  split; [exact H1|].
  destruct (t_shape t) as [|a [|b [|c rest]]]; simpl in *; try lia. discriminate.
Qed.

Lemma make_texture1_fails (t uv : tensor) :
  make_texture1 t uv = None ->
  get_tensor_dimension t <> 1 /\ get_tensor_dimension t <> 4.
Proof.
  unfold make_texture1, get_tensor_dimension, shape_at. intros H.
  destruct (Nat.eqb_spec (length (t_shape t)) 1) as [H1|H1]; [discriminate|].
  split; [exact H1|].
  destruct (t_shape t) as [|a [|b [|c [|d [|]]]]]; simpl in *; try lia. discriminate.
Qed.

Lemma make_texture3_by_rank (t uv : tensor) (tex : redner.Texture3.t) :
  make_texture3 t uv = Some tex -> texture3_by_rank t uv tex.
Proof.
  intros H. apply make_texture3_from in H as [Hconst Hpyr]. split.
  - intros C Hs. apply Hconst. unfold get_tensor_dimension. now rewrite Hs.
  - exact Hpyr.
Qed.

Lemma make_texture1_by_rank (t uv : tensor) (tex : redner.Texture1.t) :
  make_texture1 t uv = Some tex ->
  texture1_by_rank t uv tex /\ (rank t = 1 \/ rank t = 4).
Proof.
  intros H. apply make_texture1_from in H as [[Hconst Hpyr] Hrank]. split; [split|].
  - intros C Hs. apply Hconst. unfold get_tensor_dimension. now rewrite Hs.
  - exact Hpyr.
  - exact Hrank.
Qed.

Lemma make_texture3_raises (t uv : tensor) :
  make_texture3 t uv = None <-> rank t = 0 \/ rank t = 2.
Proof.
  split.
  - intros H. apply make_texture3_fails in H. unfold get_tensor_dimension, rank in *. lia.
  - unfold make_texture3, get_tensor_dimension, shape_at, rank.
    destruct (t_shape t) as [|a [|b [|c rest]]]; simpl; intros [H|H];
      try discriminate; reflexivity.
Qed.

Lemma make_texture1_raises (t uv : tensor) :
  make_texture1 t uv = None <-> rank t <> 1 /\ rank t <> 4.
Proof.
  split.
  - intros H. now apply make_texture1_fails in H.
  - unfold make_texture1, get_tensor_dimension, shape_at, rank.
    destruct (t_shape t) as [|a [|b [|c [|d [|e rest]]]]]; simpl; intros [H1 H4];
      try reflexivity; contradiction.
Qed.

Lemma unpack_envmap_at (args : list tensor) (k : nat)
    (v vuv e2w w2e ys xs pdf : tensor) (rest : list tensor) :
  skipn k args = v :: vuv :: e2w :: w2e :: ys :: xs :: pdf :: rest ->
  is_empty_tensor v = false ->
  unpack_envmap args k =
  match py_float pdf, t_shape v with
  | Some q, L :: H :: W :: _ =>
      Some (Some (redner.EnvironmentMap.mk
                    (redner.Texture3.mk (data_ptr v) W H L (data_ptr vuv))
                    (data_ptr e2w) (data_ptr w2e) (data_ptr ys) (data_ptr xs) q),
            k + 7)
  | _, _ => None
  end.
Proof.
  intros Hskip Hne. rewrite positional_unpack_envmap, Hskip.
  rewrite (unpack_envmap_block [v; vuv; e2w; w2e; ys; xs; pdf] rest eq_refl).
  unfold rebuild_envmap, unpack_envmap, bind, peek_arg, next_arg, lift, skip, ret,
    shape_at. simpl. rewrite Hne. simpl.
  destruct (py_float pdf) as [q|]; simpl; [|reflexivity].
  destruct (t_shape v) as [|L [|H [|W tail]]]; reflexivity.
Qed.

(** C6 (amended).  For the three texture tensors met by one iteration of
    the material loop, wherever the iteration starts in the argument list,
    the branch is decided by the rank alone.  The iteration returns unless
    the two-sided flag is not a scalar, the diffuse or specular tensor has
    rank 0 or 2, or the roughness tensor has a rank other than 1 and 4 (the
    assertion); in particular it returns whenever the three tensors have
    rank 1 or 4.  When it returns it has read seven arguments, a diffuse,
    specular or roughness tensor of rank 1 has become a constant texture
    (width, height and number of levels zero), and one of rank 4 a pyramid
    whose number of levels, height and width are its first three
    dimensions.  The radiance tensor of an environment map, the one other
    texture tensor that is rebuilt, is not dispatched on its rank: wherever
    the block starts, when the tensor has elements the block is rebuilt
    unless the PDF normalisation is not a scalar or the tensor has a rank
    below 3 (rank 1 included), and then always as a pyramid with the
    levels, height and width of its first three dimensions. *)
Theorem texture_dispatch_by_rank (args : list tensor) (i : nat)
    (d duv s suv r ruv ts : tensor) (rest : list tensor) :
  skipn i args = d :: duv :: s :: suv :: r :: ruv :: ts :: rest ->
  (unpack_material args i = None <->
     py_bool ts = None \/ (rank d = 0 \/ rank d = 2) \/ (rank s = 0 \/ rank s = 2)
     \/ (rank r <> 1 /\ rank r <> 4)) /\
  (forall material j,
     unpack_material args i = Some (material, j) ->
     j = i + 7 /\
     texture3_by_rank d duv (redner.Material.diffuse_reflectance material) /\
     texture3_by_rank s suv (redner.Material.specular_reflectance material) /\
     texture1_by_rank r ruv (redner.Material.roughness material) /\
     (rank r = 1 \/ rank r = 4)) /\
  (forall (k : nat) (v vuv e2w w2e ys xs pdf : tensor) (rest' : list tensor),
     skipn k args = v :: vuv :: e2w :: w2e :: ys :: xs :: pdf :: rest' ->
     is_empty_tensor v = false ->
     (unpack_envmap args k = None <-> py_float pdf = None \/ rank v < 3) /\
     (forall envmap j,
        unpack_envmap args k = Some (envmap, j) ->
        j = k + 7 /\
        exists L H W tail q,
          t_shape v = L :: H :: W :: tail /\
          py_float pdf = Some q /\
          envmap = Some (redner.EnvironmentMap.mk
                           (redner.Texture3.mk (data_ptr v) W H L (data_ptr vuv))
                           (data_ptr e2w) (data_ptr w2e) (data_ptr ys) (data_ptr xs) q))).
Proof.
  intros Hskip.
  assert (Hblock : unpack_material args i =
                   shift i (option_map (fun rm => (rm, 7))
                              (rebuild_material [d; duv; s; suv; r; ruv; ts]))).
  { rewrite positional_unpack_material, Hskip.
    now rewrite (unpack_material_block [d; duv; s; suv; r; ruv; ts] rest eq_refl). }
  rewrite Hblock. clear Hblock.
  split; [|split].
  - rewrite <- (make_texture3_raises d duv), <- (make_texture3_raises s suv),
      <- (make_texture1_raises r ruv).
    unfold rebuild_material, unpack_material, bind, next_arg, lift, ret. simpl.
    destruct (py_bool ts) as [b|]; simpl; [|tauto].
    destruct (make_texture3 d duv) as [td|]; simpl; [|tauto].
    destruct (make_texture3 s suv) as [tsp|]; simpl; [|tauto].
    destruct (make_texture1 r ruv) as [tr|]; simpl; [|tauto].
    split; [discriminate|]. intros [H|[H|[H|H]]]; discriminate.
  - intros material j Hun.
    destruct (rebuild_material _) as [rm|] eqn:Hrm; [|discriminate].
    simpl in Hun. injection Hun as <- <-.
    apply rebuild_material_inv in Hrm as (td & tsp & tr & b & Hd & Hs & Hr & _ & ->).
    simpl. split; [reflexivity|].
    apply make_texture3_by_rank in Hd, Hs. apply make_texture1_by_rank in Hr as [Hr Hrank].
    auto.
  - intros k v vuv e2w w2e ys xs pdf rest' Hskip' Hne.
    rewrite (unpack_envmap_at _ _ Hskip' Hne). unfold rank.
    destruct (py_float pdf) as [q|]; [|split; [split; [now left | reflexivity]
                                              | intros ? ? H; discriminate H]].
    destruct (t_shape v) as [|L [|H [|W tail]]]; simpl;
      try (split; [split; [intros _; right; lia | reflexivity]
                  | intros ? ? H'; discriminate H']).
    split.
    + split; [discriminate|]. intros [H'|H']; [discriminate | lia].
    + intros envmap j H'. injection H' as <- <-. split; [reflexivity|].
      exists L, H, W, tail, q. auto.
Qed.

End Textures.

(* ================================================================== *)
(** ** The toggle and the seed *)
(* ================================================================== *)

(** Calling the setter leaves the toggle as it was, whatever value is
    passed: the value read back afterwards is the one read before. *)
Lemma setter_leaves_toggle_unchanged (v : bool) (w : World) :
  get_use_correlated_random_number (set_use_correlated_random_number v w)
  = get_use_correlated_random_number w.
Proof. reflexivity. Qed.

(** C7 (the code departs from the claim).  On the freshly loaded module,
    after [set_use_correlated_random_number(True)] the getter still answers
    [False]: the opt-in cannot be switched on through the setter. *)
Theorem toggle_still_off_after_set_true :
  get_use_correlated_random_number
    (set_use_correlated_random_number true Examples.world0) = false.
Proof. reflexivity. Qed.

Section Seeds.
Context {E : Engine}.

Lemma forward_seed (seed : Z) (args : list tensor) (w w1 : World) (img : tensor) :
  forward seed args w = Some (img, w1) ->
  exists ctx,
    ctx_forward (__ctx w1) = Some ctx /\
    redner.RenderOptions.seed (ctx_options ctx) = seed /\
    use_correlated_random_number w1 = use_correlated_random_number w.
Proof.
  intros Hf. apply forward_inv in Hf as (u & Hu & Hctx & Hcorr & _).
  exists (u_state u). repeat split; auto.
  destruct (unpack_arguments seed args 0) as [[u' j]|] eqn:Hun; [|discriminate].
  simpl in Hu. injection Hu as ->. eapply unpack_arguments_seed; eauto.
Qed.

Lemma backward_times_seed (n : nat) (grad_img : tensor) (w w' : World)
    (ctx : ForwardState) :
  ctx_forward (__ctx w) = Some ctx ->
  backward_times n grad_img w = Some w' ->
  exists ctx',
    ctx_forward (__ctx w') = Some ctx' /\
    use_correlated_random_number w' = use_correlated_random_number w /\
    redner.RenderOptions.seed (ctx_options ctx') =
      (if use_correlated_random_number w
       then redner.RenderOptions.seed (ctx_options ctx)
       else redner.RenderOptions.seed (ctx_options ctx) + Z.of_nat n * 1000003)%Z.
Proof.
  revert w ctx. induction n as [|n IH]; intros w ctx Hctx Hn; simpl in Hn.
  - injection Hn as <-. exists ctx. repeat split; auto.
    destruct (use_correlated_random_number w); lia.
  - destruct (backward grad_img w) as [[ret w1]|] eqn:Hb; [|discriminate].
    apply backward_inv in Hb
      as (c & c1 & call & Hc & _ & Hc1 & Hcorr & _ & _ & _ & Hseed).
    rewrite Hctx in Hc. injection Hc as <-.
    destruct (IH w1 c1 Hc1 Hn) as (ctx' & Hctx' & Hcorr' & Hseed').
    exists ctx'. repeat split; auto; [congruence|].
    rewrite Hseed', Hcorr, Hseed.
    destruct (use_correlated_random_number w); lia.
Qed.

(** C8 (amended).  The seed handed to the engine by a backward invocation
    is the seed retained on the shared options object, plus 1000003 when
    [get_use_correlated_random_number()] returns False, and the sum is
    written back to that object.  Hence the first backward invocation after
    a forward pass uses the forward seed plus 1000003, and the invocation
    that follows [n] earlier ones on the same retained state uses the
    forward seed plus (n + 1) times 1000003; when the getter returns True
    the forward seed is used unchanged by every invocation. *)
Theorem backward_seed_offset (seed : Z) (args : list tensor) (w w1 w2 w3 : World)
    (img grad_img : tensor) (n : nat) (ret_list : list (option tensor)) :
  forward seed args w = Some (img, w1) ->
  backward_times n grad_img w1 = Some w2 ->
  backward grad_img w2 = Some (ret_list, w3) ->
  exists call,
    engine_calls w3 = engine_calls w2 ++ [call] /\
    redner.Call.d_scene call <> None /\
    redner.RenderOptions.seed (redner.Call.options call) =
      (if get_use_correlated_random_number w
       then seed
       else seed + (Z.of_nat n + 1) * 1000003)%Z.
Proof.
  intros Hf Hn Hb.
  apply forward_seed in Hf as (ctx & Hctx & Hseed & Hcorr).
  destruct (backward_times_seed _ _ _ Hctx Hn) as (ctx2 & Hctx2 & Hcorr2 & Hseed2).
  apply backward_inv in Hb
    as (c & c3 & call & Hc & _ & _ & _ & Hcalls & Hopt & Hd & Hseed3).
  rewrite Hctx2 in Hc. injection Hc as <-.
  exists call. repeat split; auto.
  rewrite Hopt, Hseed3, Hseed2, Hcorr2, Hseed.
  unfold get_use_correlated_random_number. rewrite <- Hcorr.
  destruct (use_correlated_random_number w1); lia.
Qed.

(** C10.  For every invocation of [render] that returns, the first
    positional argument is the seed: it is converted to an integer, handed
    to [forward] with the remaining arguments, and becomes the seed of the
    retained options; and whenever the returned closure yields a list, the
    first element of that list is the marker [None]. *)
Theorem seed_slot_has_no_gradient (x : list tensor) (w w' : World) (img : tensor)
    (bwd : tensor -> World -> option (list (option tensor) * World)) :
  render x w = Some (img, bwd, w') ->
  (exists x0 args seed ctx,
     x = x0 :: args /\ py_int x0 = Some seed /\
     forward seed args w = Some (img, w') /\
     ctx_forward (__ctx w') = Some ctx /\
     redner.RenderOptions.seed (ctx_options ctx) = seed) /\
  (forall grad_img w2 ret_list w3,
     bwd grad_img w2 = Some (ret_list, w3) ->
     nth_error ret_list 0 = Some None).
Proof.
  intros Hr. apply render_inv in Hr as (x0 & args & seed & -> & Hseed & Hf & ->).
  split.
  - destruct (forward_seed _ _ _ Hf) as (ctx & Hctx & Hs & _).
    exists x0, args, seed, ctx. auto.
  - intros grad_img w2 ret_list w3 Hb.
    apply backward_inv in Hb as (c & _ & _ & _ & Hret & _).
    rewrite assemble_ret_list_blocks in Hret. now injection Hret as <-.
Qed.

End Seeds.

(* ================================================================== *)
(** ** The light loop *)
(* ================================================================== *)

Lemma fold_annotate_none (shapes : list pyredner.ref)
    (l : list (nat * pyredner.AreaLight.t)) :
  fold_left (annotate_light shapes) l None = None.
Proof. induction l as [|x l IH]; simpl; auto. Qed.

Lemma set_light_id_twice (s : pyredner.Shape.t) (a b : Z) :
  pyredner.Shape.set_light_id (pyredner.Shape.set_light_id s a) b
  = pyredner.Shape.set_light_id s b.
Proof. reflexivity. Qed.

Lemma set_light_id_same (s : pyredner.Shape.t) :
  pyredner.Shape.set_light_id s (pyredner.Shape.light_id s) = s.
Proof. now destruct s. Qed.

Lemma annotate_fold (scene : pyredner.Scene.t) (lights : list pyredner.AreaLight.t) :
  forall (a : nat) (st st' : pyredner.shape_store),
    fold_left (annotate_light (pyredner.Scene.shapes scene))
              (combine (seq a (length lights)) lights) (Some st) = Some st' ->
    (forall r, st' r = pyredner.Shape.set_light_id (st r)
                         (pyredner.Shape.light_id (st' r))) /\
    (forall r, (forall l, In l lights -> light_target scene l <> Some r) ->
               st' r = st r) /\
    (NoDup (map (light_target scene) lights) ->
     forall i l, nth_error lights i = Some l ->
       exists r, light_target scene l = Some r /\
                 pyredner.Shape.light_id (st' r) = Z.of_nat (a + i)).
Proof.
  induction lights as [|l0 ls IH]; intros a st st' H; simpl in H.
  - injection H as <-. repeat split.
    + intros r. now rewrite set_light_id_same.
    + intros _ i l Hi. destruct i; discriminate.
  - cbn [fst snd] in H. fold (light_target scene l0) in H.
    destruct (light_target scene l0) as [r0|] eqn:Ht;
      [|rewrite fold_annotate_none in H; discriminate].
    destruct (IH _ _ _ H) as (Hframe & Hother & Hids). clear IH H.
    repeat split.
    + intros r. rewrite (Hframe r) at 1. unfold pyredner.store_set.
      destruct (Nat.eqb r r0) eqn:Hr; [|reflexivity].
      apply Nat.eqb_eq in Hr. subst r. apply set_light_id_twice.
    + intros r Hr. rewrite Hother.
      * unfold pyredner.store_set.
        destruct (Nat.eqb_spec r r0) as [->|Hne]; [|reflexivity].
        exfalso. apply (Hr l0); [now left | exact Ht].
      * intros l Hl. apply Hr. now right.
    + intros Hnd i l Hi. simpl in Hnd. rewrite Ht in Hnd.
      apply NoDup_cons_iff in Hnd as [Hnotin Hnd].
      destruct i as [|i]; simpl in Hi.
      * injection Hi as <-. exists r0. split; [exact Ht|].
        rewrite Hother.
        -- unfold pyredner.store_set. rewrite Nat.eqb_refl. simpl.
           now rewrite Nat.add_0_r.
        -- intros l Hl Hc. apply Hnotin. rewrite <- Hc. now apply in_map.
      * destruct (Hids Hnd i l Hi) as (r & Hr & Hid).
        exists r. split; [exact Hr|]. rewrite Hid. f_equal. lia.
Qed.

Section Lights.
Context {E : Engine}.
Variables (num_samples : NumSamples) (max_bounces : Z) (channels : list Channel)
          (sampler_type : SamplerType) (primary secondary : bool).

(** C9 (amended).  [serialize_scene] mutates the shape objects in place
    before flattening.  Whenever it returns: if the lights of the scene are
    attached to pairwise distinct shape objects, then for every light index
    i the shape object [scene.shapes[scene.area_lights[i].shape_id]] has
    [light_id] equal to i afterwards; and in every case, whether or not
    lights share a shape object, no field other than [light_id] of any
    shape object is modified, and a shape object that no light is attached
    to is not modified at all. *)
Theorem light_ids_annotated (scene : pyredner.Scene.t) (w w1 : World)
    (args : list tensor) :
  serialize_scene scene num_samples max_bounces channels sampler_type primary secondary w
    = Some (args, w1) ->
  (NoDup (map (light_target scene) (pyredner.Scene.area_lights scene)) ->
   forall i light,
     nth_error (pyredner.Scene.area_lights scene) i = Some light ->
     exists r,
       py_index (pyredner.Scene.shapes scene) (pyredner.AreaLight.shape_id light) = Some r /\
       pyredner.Shape.light_id (shape_objects w1 r) = Z.of_nat i) /\
  (forall r,
     shape_objects w1 r =
     pyredner.Shape.set_light_id (shape_objects w r)
       (pyredner.Shape.light_id (shape_objects w1 r))) /\
  (forall r,
     (forall light, In light (pyredner.Scene.area_lights scene) ->
        py_index (pyredner.Scene.shapes scene) (pyredner.AreaLight.shape_id light)
        <> Some r) ->
     shape_objects w1 r = shape_objects w r).
Proof.
  intros Hs. apply serialize_scene_inv in Hs as (Hann & _).
  unfold annotate_lights, enumerate in Hann.
  destruct (annotate_fold scene _ _ _ Hann) as (Hframe & Hother & Hids).
  split; [|split; assumption].
  intros Hnd i light Hi. destruct (Hids Hnd i light Hi) as (r & Hr & Hid).
  exists r. split; [exact Hr | exact Hid].
Qed.

End Lights.

(* ================================================================== *)
(** ** Well-formed scenes run through *)
(* ================================================================== *)

Lemma annotate_succeeds (scene : pyredner.Scene.t) (lights : list pyredner.AreaLight.t) :
  forallb (fun l => is_some (light_target scene l)) lights = true ->
  forall (a : nat) (st : pyredner.shape_store),
    exists st',
      fold_left (annotate_light (pyredner.Scene.shapes scene))
                (combine (seq a (length lights)) lights) (Some st) = Some st'.
Proof.
  induction lights as [|l0 ls IH]; intros H a st; simpl in *.
  - eauto.
  - apply andb_prop in H as [H0 Hls].
    fold (light_target scene l0).
    destruct (light_target scene l0) as [r0|]; [|discriminate].
    apply IH. exact Hls.
Qed.

Lemma traverse_succeeds {A B : Type} (f : A -> list (slot * tensor))
    (rebuild : list tensor -> option B) (l : list A) :
  (forall x, In x l -> exists r, rebuild (map snd (f x)) = Some r) ->
  exists rs, traverse rebuild (blocks_of f l) = Some rs.
Proof.
  unfold blocks_of. induction l as [|x l IH]; intros H; cbn [map traverse].
  - eauto.
  - destruct (H x (or_introl eq_refl)) as (r & ->).
    destruct IH as (rs & ->); [intros y Hy; apply H; now right|].
    eauto.
Qed.

Lemma channel_tag_round_trip (c : Channel) :
  RednerChannels_asChannel (RednerChannels_asTensor c) = Some c.
Proof. now destruct c. Qed.

Lemma sampler_tag_round_trip (s : SamplerType) :
  RednerSamplerType_asSamplerType (RednerSamplerType_asTensor s) = Some s.
Proof. now destruct s. Qed.

Lemma camera_tag_round_trip (c : CameraType) :
  RednerCameraType_asCameraType (RednerCameraType_asTensor c) = Some c.
Proof. now destruct c. Qed.

Section Running.
Context {E : Engine}.
Variables (max_bounces : Z) (channels : list Channel)
          (sampler_type : SamplerType) (primary secondary : bool).

Lemma rebuild_camera_succeeds (cam : pyredner.Camera.t) :
  exists rcam,
    rebuild_camera (map snd (camera_slots cam)) = Some (rcam, pyredner.Camera.resolution cam).
Proof.
  unfold rebuild_camera, unpack_camera, bind, next_arg, lift, ret. simpl.
  rewrite camera_tag_round_trip. simpl.
  destruct (pyredner.Camera.resolution cam). simpl. eauto.
Qed.

Lemma rebuild_shape_succeeds (sh : pyredner.Shape.t) :
  shape_well_shaped sh = true ->
  get_tensor_dimension (pyredner.Shape.indices sh) <> 0 ->
  exists rsh, rebuild_shape (map snd (shape_slots sh)) = Some rsh.
Proof.
  unfold shape_well_shaped. intros H Hi.
  repeat (apply andb_prop in H as [H ?]).
  match goal with
  | Hs : shape_eqb _ [_; 3] = true |- _ => apply shape_eqb_eq in Hs; rename Hs into Hv
  end.
  rewrite shape_slots_eq.
  unfold rebuild_shape, unpack_shape, bind, next_arg, lift, ret, shape_at. simpl.
  rewrite Hv. simpl.
  unfold get_tensor_dimension in Hi.
  destruct (t_shape (pyredner.Shape.indices sh)); [contradiction|]. simpl. eauto.
Qed.

Lemma make_texture3_succeeds (v uv : tensor) :
  texture_well_shaped 3 v = true -> exists tex, make_texture3 v uv = Some tex.
Proof.
  unfold texture_well_shaped, make_texture3. intros H.
  apply orb_prop in H as [H|H].
  - apply shape_eqb_eq in H. unfold get_tensor_dimension. rewrite H. simpl. eauto.
  - apply andb_prop in H as [H _]. apply andb_prop in H as [Hr _].
    apply Nat.eqb_eq in Hr. destruct (rank4_shape _ Hr) as (l & h & w & k & Hs).
    unfold get_tensor_dimension, shape_at. rewrite Hs. simpl. eauto.
Qed.

Lemma make_texture1_succeeds (v uv : tensor) :
  texture_well_shaped 1 v = true -> exists tex, make_texture1 v uv = Some tex.
Proof.
  unfold texture_well_shaped, make_texture1. intros H.
  apply orb_prop in H as [H|H].
  - apply shape_eqb_eq in H. unfold get_tensor_dimension. rewrite H. simpl. eauto.
  - apply andb_prop in H as [H _]. apply andb_prop in H as [Hr _].
    apply Nat.eqb_eq in Hr. destruct (rank4_shape _ Hr) as (l & h & w & k & Hs).
    unfold get_tensor_dimension, shape_at. rewrite Hs. simpl. eauto.
Qed.

Lemma rebuild_material_succeeds (m : pyredner.Material.t) :
  material_well_shaped m = true ->
  exists rm, rebuild_material (map snd (material_slots m)) = Some rm.
Proof.
  unfold material_well_shaped. intros H.
  apply andb_prop in H as [H Hro]. apply andb_prop in H as [Hdi Hsp].
  destruct (make_texture3_succeeds _ (pyredner.Texture.uv_scale
              (pyredner.Material.diffuse_reflectance m)) Hdi) as (td & Hd).
  destruct (make_texture3_succeeds _ (pyredner.Texture.uv_scale
              (pyredner.Material.specular_reflectance m)) Hsp) as (tsp & Hs).
  destruct (make_texture1_succeeds _ (pyredner.Texture.uv_scale
              (pyredner.Material.roughness m)) Hro) as (tr & Hr).
  unfold rebuild_material, unpack_material, bind, next_arg, lift, ret. simpl.
  rewrite Hd, Hs, Hr. simpl. eauto.
Qed.

Lemma rebuild_light_succeeds (l : pyredner.AreaLight.t) :
  exists rl, rebuild_light (map snd (light_slots l)) = Some rl.
Proof.
  unfold rebuild_light, unpack_light, bind, next_arg, lift, ret. simpl. eauto.
Qed.

Lemma rebuild_channel_succeeds (c : Channel) :
  exists rc, rebuild_channel (map snd (channel_slots c)) = Some rc.
Proof.
  unfold rebuild_channel, unpack_channel, bind, next_arg, lift, ret. simpl.
  rewrite channel_tag_round_trip. simpl. eauto.
Qed.

Lemma rebuild_envmap_succeeds (envmap : option pyredner.EnvironmentMap.t) :
  match envmap with
  | Some e => envmap_well_shaped e = true /\
              is_some (py_float (pyredner.EnvironmentMap.pdf_norm e)) = true
  | None => True
  end ->
  exists renv, rebuild_envmap (map snd (envmap_slots envmap)) = Some renv.
Proof.
  rewrite envmap_slots_eq. destruct envmap as [e|]; simpl.
  - intros [H Hpdf]. unfold envmap_well_shaped in H.
    repeat (apply andb_prop in H as [H ?]).
    apply Nat.eqb_eq in H. destruct (rank4_shape _ H) as (l & h & w & k & Hs).
    unfold rebuild_envmap, unpack_envmap, bind, peek_arg, next_arg, lift, skip, ret,
      shape_at. simpl.
    match goal with Hp : present _ = true |- _ => unfold present in Hp; rewrite Hp end.
    simpl. rewrite Hs. simpl.
    destruct (py_float (pyredner.EnvironmentMap.pdf_norm e)); [|discriminate].
    simpl. eauto.
  - intros _. unfold rebuild_envmap, unpack_envmap, bind, peek_arg, skip, ret. simpl.
    eauto.
Qed.

Lemma shape_well_shaped_set_light_id (sh : pyredner.Shape.t) (v : Z) :
  shape_well_shaped (pyredner.Shape.set_light_id sh v) = shape_well_shaped sh.
Proof. reflexivity. Qed.

(** On a well-formed scene whose integers [tf.constant] accepts, with an
    integer sample count and a scalar seed tensor, the three steps all
    return. *)
Theorem well_formed_scene_runs (scene : pyredner.Scene.t) (w : World)
    (n seed : Z) (x0 grad_img : tensor) :
  scene_well_formed (shape_objects w) scene = true ->
  (forall st, annotate_lights scene (shape_objects w) = Some st ->
     forallb tf_constant_accepts (tf_constant_arguments st scene (Samples n) max_bounces)
       = true) ->
  py_int x0 = Some seed ->
  exists args w1 img w2 ret_list w3,
    serialize_scene scene (Samples n) max_bounces channels sampler_type primary secondary w
      = Some (args, w1) /\
    render (x0 :: args) w1 = Some (img, backward, w2) /\
    backward grad_img w2 = Some (ret_list, w3).
Proof.
  unfold scene_well_formed. intros H Hacc Hseed.
  repeat (apply andb_prop in H as [H ?]).
  rename H into Hshaped.
  match goal with Hl : forallb (fun l => is_some _) _ = true |- _ => rename Hl into Hlights end.
  match goal with Hi : forallb (fun sh => negb _) _ = true |- _ => rename Hi into Hidx end.
  destruct (annotate_succeeds scene _ Hlights 0 (shape_objects w)) as (st & Hst).
  destruct (annotate_fold scene _ _ _ Hst) as (Hframe & _ & _).
  unfold scene_well_shaped in Hshaped.
  repeat (apply andb_prop in Hshaped as [Hshaped ?]).
  rewrite forallb_forall in *.
  assert (Hu : exists u,
             reconstruct seed st scene (Samples n) max_bounces channels sampler_type
               primary secondary = Some u /\
             u_resolution u = pyredner.Camera.resolution (pyredner.Scene.camera scene)).
  { unfold reconstruct.
    destruct (rebuild_camera_succeeds (pyredner.Scene.camera scene)) as (rcam & ->).
    destruct (traverse_succeeds shape_slots rebuild_shape
                (map st (pyredner.Scene.shapes scene))) as (shapes & ->).
    { intros sh Hin. apply in_map_iff in Hin as (r & <- & Hr).
      apply rebuild_shape_succeeds.
      - rewrite Hframe, shape_well_shaped_set_light_id.
        match goal with
        | Hs : forall x, In x (map _ _) -> shape_well_shaped x = true |- _ => apply Hs
        end.
        apply in_map_iff. eauto.
      - rewrite Hframe. simpl.
        match goal with
        | Hi : forall x, In x (map _ _) -> negb _ = true |- _ =>
            specialize (Hi (shape_objects w r) (in_map _ _ _ Hr));
            apply negb_true_iff, Nat.eqb_neq in Hi; exact Hi
        end. }
    destruct (traverse_succeeds material_slots rebuild_material
                (pyredner.Scene.materials scene)) as (mats & ->).
    { intros m Hin. apply rebuild_material_succeeds. auto. }
    destruct (traverse_succeeds light_slots rebuild_light
                (pyredner.Scene.area_lights scene)) as (lights & ->).
    { intros l _. apply rebuild_light_succeeds. }
    destruct (rebuild_envmap_succeeds (pyredner.Scene.envmap scene)) as (renv & ->).
    { destruct (pyredner.Scene.envmap scene); auto. }
    simpl py_int. cbv iota.
    destruct (traverse_succeeds channel_slots rebuild_channel channels) as (chs & ->).
    { intros c _. apply rebuild_channel_succeeds. }
    rewrite sampler_tag_round_trip. eexists. split; reflexivity. }
  destruct Hu as (u & Hu & Hres).
  rewrite <- unpack_serialized in Hu.
  destruct (unpack_arguments seed _ 0) as [[u' j]|] eqn:Hun; [|discriminate].
  simpl in Hu. injection Hu as ->.
  exists (map snd (serialize_scene_slots st scene (Samples n) max_bounces channels
                     sampler_type primary secondary)).
  do 5 eexists. split; [|split].
  - apply serialize_scene_returns; [exact Hst | apply Hacc; exact Hst].
  - unfold render. rewrite Hseed. unfold forward. rewrite Hun, Hres.
    match goal with
    | H1 : (0 <=? fst _)%Z = true, H2 : (0 <=? snd _)%Z = true |- _ => rewrite H1, H2
    end.
    reflexivity.
  - unfold backward. simpl. rewrite assemble_ret_list_blocks. reflexivity.
Qed.

End Running.

(* ================================================================== *)
(** ** The statements at concrete scenes *)
(* ================================================================== *)

Section Concrete.
Import Examples.
#[local] Existing Instance Examples.engine.

Lemma engine_null_iff_empty : null_iff_empty.
Proof. intros t. simpl. now destruct (is_empty_tensor t). Qed.

Example lit_scene_well_formed : scene_well_formed store lit_scene = true.
Proof. reflexivity. Qed.

(** C1 as stated fails on the scene without shapes, materials, lights and
    environment map: its flattened list has 25 entries, the list returned
    by the backward pass has 26. *)
Lemma bare_scene_lengths_differ :
  flatten bare_scene world0 = Some (args_of bare_scene, flattened bare_scene) /\
  render (seed_arg :: args_of bare_scene) (flattened bare_scene)
    = Some (image_of bare_scene, backward, rendered bare_scene) /\
  backward grad_img (rendered bare_scene)
    = Some (gradients_of bare_scene, differentiated bare_scene) /\
  length (args_of bare_scene) = 25 /\
  length (gradients_of bare_scene) = 26 /\
  length (args_of bare_scene) <> length (gradients_of bare_scene).
Proof. repeat split; try (vm_compute; reflexivity). vm_compute. discriminate. Qed.

Lemma backward_length_witness :
  length (gradients_of lit_scene) = length (seed_arg :: args_of lit_scene) /\
  length (gradients_of lit_scene) = S (length (args_of lit_scene)).
Proof.
  apply (@backward_length engine (Samples 4) 1%Z [radiance] independent true true
           lit_scene world0 (flattened lit_scene) (rendered lit_scene)
           (differentiated lit_scene) seed_arg grad_img (image_of lit_scene)
           (args_of lit_scene) backward (gradients_of lit_scene));
    vm_compute; reflexivity.
Defined.

Lemma non_differentiable_slots_witness :
  nth_error (args_of lit_scene) 12 = Some (IntTensor [2; 3] [0; 1; 2; 0; 2; 3]%Z) /\
  nth_error (gradients_of lit_scene) 13 = Some None.
Proof.
  apply (@non_differentiable_slots_hold_marker engine (Samples 4) 1%Z [radiance]
           independent true true
           lit_scene world0 (flattened lit_scene) (rendered lit_scene)
           (differentiated lit_scene) seed_arg grad_img (image_of lit_scene)
           (args_of lit_scene) backward (gradients_of lit_scene))
    with (s := s_indices);
    vm_compute; reflexivity.
Defined.



(** C4 as stated fails on the lit scene, which has an environment map: in
    the returned list the radiance slot of the block holds a buffer while
    the UV-scale slot next to it holds the marker, although the flattened
    list holds a tensor at both places. *)
Lemma lit_scene_envmap_gradients_mixed :
  pyredner.Scene.envmap lit_scene <> None /\
  envmap_offset lit_scene = 33 /\
  nth_error (args_of lit_scene) 33 = Some (ones [2; 2; 4; 3]) /\
  nth_error (args_of lit_scene) 34 = Some (ones [2]) /\
  nth_error (gradients_of lit_scene) 34 = Some (Some (np_zeros [2; 2; 4; 3])) /\
  nth_error (gradients_of lit_scene) 35 = Some None.
Proof. repeat split; try (vm_compute; reflexivity). discriminate. Qed.

Lemma envmap_block_layout_witness :
  firstn 7 (skipn 33 (args_of lit_scene)) =
    [ones [2; 2; 4; 3]; ones [2]; ones [4; 4]; ones [4; 4]; ones [2]; ones [2; 4];
     ones []] /\
  firstn 7 (skipn 34 (gradients_of lit_scene)) =
    [Some (np_zeros [2; 2; 4; 3]); None; None; Some (np_zeros [4; 4]);
     None; None; None].
Proof.
  apply (@envmap_block_layout engine (Samples 4) 1%Z [radiance] independent true true
           lit_scene world0 (flattened lit_scene) (rendered lit_scene)
           (differentiated lit_scene) seed_arg grad_img (image_of lit_scene)
           (args_of lit_scene) backward (gradients_of lit_scene));
    vm_compute; reflexivity.
Defined.


Lemma texture_dispatch_witness :
  exists m e,
    unpack_material (args_of lit_scene) 23 = Some (m, 30) /\
    redner.Material.diffuse_reflectance m = redner.Texture3.mk 4096 2 2 2 4096 /\
    redner.Material.specular_reflectance m = redner.Texture3.mk 4096 0 0 0 4096 /\
    redner.Material.roughness m = redner.Texture1.mk 4096 0 0 0 4096 /\
    unpack_envmap (args_of lit_scene) 33 = Some (Some e, 40) /\
    redner.EnvironmentMap.values e = redner.Texture3.mk 4096 4 2 2 4096.
Proof.
  destruct (@texture_dispatch_by_rank engine (args_of lit_scene) 23
              (ones [2; 2; 2; 3]) (ones [2]) (ones [3]) (ones [2]) (ones [1]) (ones [2])
              (tf_constant_bool true) (skipn 30 (args_of lit_scene)))
    as (Hraises & Hreturns & Henv); [vm_compute; reflexivity|].
  destruct (Henv 33 (ones [2; 2; 4; 3]) (ones [2]) (ones [4; 4]) (ones [4; 4]) (ones [2])
              (ones [2; 4]) (ones []) (skipn 40 (args_of lit_scene)))
    as (Henv_raises & Henv_returns);
    [vm_compute; reflexivity | vm_compute; reflexivity |].
  destruct (unpack_material (args_of lit_scene) 23) as [[m j]|].
  - destruct (Hreturns m j eq_refl) as (-> & [_ Hd] & [Hs _] & [Hr _] & _).
    destruct (unpack_envmap (args_of lit_scene) 33) as [[e j]|].
    + destruct (Henv_returns e j eq_refl) as (-> & L & H & W & tail & q & Hshape & Hq & ->).
      injection Hshape as <- <- <- _.
      eexists m, _. split; [reflexivity|].
      rewrite (Hd 2 2 2 3 eq_refl), (Hs 3 eq_refl), (Hr 1 eq_refl).
      repeat split; reflexivity.
    + exfalso. destruct (proj1 Henv_raises eq_refl) as [H|H]; [discriminate H|].
      vm_compute in H. lia.
  - exfalso.
    destruct (proj1 Hraises eq_refl) as [H|[[H|H]|[[H|H]|[H _]]]];
      try discriminate H. now apply H.
Defined.

(** C6 as stated fails on the radiance tensor of an environment map, which
    is a texture tensor met during reconstruction: it is rebuilt from its
    first three dimensions without a rank test.  On the lit scene under a
    constant environment map the radiance tensor has rank 1 and elements,
    and [forward] raises, while the same tensor as a diffuse texture
    becomes a constant texture. *)
Lemma constant_envmap_radiance_raises :
  flatten flat_env_scene world0
    = Some (args_of flat_env_scene, flattened flat_env_scene) /\
  nth_error (serialize_scene_slots (shape_objects (flattened flat_env_scene))
               flat_env_scene (Samples 4) 1 [radiance] independent true true)
            (envmap_offset flat_env_scene)
    = Some (s_env_values, ones [3]) /\
  nth_error (args_of flat_env_scene) (envmap_offset flat_env_scene) = Some (ones [3]) /\
  get_tensor_dimension (ones [3]) = 1 /\
  is_empty_tensor (ones [3]) = false /\
  unpack_envmap (args_of flat_env_scene) (envmap_offset flat_env_scene) = None /\
  render (seed_arg :: args_of flat_env_scene) (flattened flat_env_scene) = None /\
  make_texture3 (ones [3]) (ones [2]) = Some (redner.Texture3.mk 4096 0 0 0 4096).
Proof. repeat split; vm_compute; reflexivity. Qed.

(** C8 as stated fails on the second of two backward invocations that
    follow one forward pass with seed 7, the toggle being off: the engine
    is called with seed 2000013, not with 7 + 1000003. *)
Lemma second_backward_offsets_twice :
  forward 7 (args_of bare_scene) (flattened bare_scene)
    = Some (image_of bare_scene, rendered bare_scene) /\
  backward grad_img (rendered bare_scene)
    = Some (gradients_of bare_scene, differentiated bare_scene) /\
  backward grad_img (differentiated bare_scene)
    = Some (gradients_again bare_scene, differentiated_twice bare_scene) /\
  get_use_correlated_random_number (differentiated bare_scene) = false /\
  map (fun call => redner.RenderOptions.seed (redner.Call.options call))
      (engine_calls (differentiated_twice bare_scene)) = [7; 1000010; 2000013]%Z /\
  (2000013 <> 7 + 1000003)%Z.
Proof. repeat split; try (vm_compute; reflexivity). lia. Qed.

Lemma backward_seed_offset_witness :
  exists call,
    engine_calls (differentiated_twice bare_scene)
      = engine_calls (differentiated bare_scene) ++ [call] /\
    redner.Call.d_scene call <> None /\
    redner.RenderOptions.seed (redner.Call.options call) = (7 + 2 * 1000003)%Z.
Proof.
  apply (@backward_seed_offset engine 7%Z (args_of bare_scene) (flattened bare_scene)
           (rendered bare_scene) (differentiated bare_scene)
           (differentiated_twice bare_scene) (image_of bare_scene) grad_img 1
           (gradients_again bare_scene));
    vm_compute; reflexivity.
Defined.

(** C9 as stated fails on the scene with two lights attached to the same
    shape: after [serialize_scene] the shape of light 0 carries light
    index 1. *)
Lemma shared_shape_gets_last_light :
  flatten doubly_lit_scene world0
    = Some (args_of doubly_lit_scene, flattened doubly_lit_scene) /\
  nth_error (pyredner.Scene.area_lights doubly_lit_scene) 0 = Some (light_on 0) /\
  py_index (pyredner.Scene.shapes doubly_lit_scene)
           (pyredner.AreaLight.shape_id (light_on 0)) = Some 0 /\
  pyredner.Shape.light_id (shape_objects (flattened doubly_lit_scene) 0) = 1%Z /\
  pyredner.Shape.light_id (shape_objects (flattened doubly_lit_scene) 0) <> Z.of_nat 0.
Proof. repeat split; try (vm_compute; reflexivity). vm_compute. discriminate. Qed.

Lemma light_ids_annotated_witness :
  (forall i light,
     nth_error (pyredner.Scene.area_lights twin_lit_scene) i = Some light ->
     exists r,
       py_index (pyredner.Scene.shapes twin_lit_scene)
                (pyredner.AreaLight.shape_id light) = Some r /\
       pyredner.Shape.light_id (shape_objects (flattened twin_lit_scene) r) = Z.of_nat i) /\
  pyredner.Shape.light_id (shape_objects (flattened twin_lit_scene) 1) = 0%Z /\
  pyredner.Shape.light_id (shape_objects (flattened twin_lit_scene) 0) = 1%Z /\
  (forall r,
     shape_objects (flattened twin_lit_scene) r =
     pyredner.Shape.set_light_id (shape_objects world0 r)
       (pyredner.Shape.light_id (shape_objects (flattened twin_lit_scene) r))) /\
  (forall r,
     (forall light, In light (pyredner.Scene.area_lights twin_lit_scene) ->
        py_index (pyredner.Scene.shapes twin_lit_scene)
                 (pyredner.AreaLight.shape_id light) <> Some r) ->
     shape_objects (flattened twin_lit_scene) r = shape_objects world0 r).
Proof.
  destruct (@light_ids_annotated engine (Samples 4) 1%Z [radiance] independent true true
              twin_lit_scene world0 (flattened twin_lit_scene) (args_of twin_lit_scene))
    as (Hids & Hframe & Hother).
  - vm_compute. reflexivity.
  - assert (Hdistinct : NoDup (map (light_target twin_lit_scene)
                                   (pyredner.Scene.area_lights twin_lit_scene))).
    { simpl. constructor; [intros [H|[]]; discriminate H|].
      constructor; [intros [] | constructor]. }
    split; [exact (Hids Hdistinct)|].
    split; [vm_compute; reflexivity|]. split; [vm_compute; reflexivity|].
    split; assumption.
Defined.

Lemma seed_slot_witness :
  nth_error (gradients_of bare_scene) 0 = Some None.
Proof.
  destruct (@seed_slot_has_no_gradient engine (seed_arg :: args_of bare_scene)
              (flattened bare_scene) (rendered bare_scene) (image_of bare_scene)
              backward) as [_ Hfirst].
  - vm_compute. reflexivity.
  - apply (Hfirst grad_img (rendered bare_scene) (gradients_of bare_scene)
             (differentiated bare_scene)).
    vm_compute. reflexivity.
Defined.

End Concrete.

(* ================================================================== *)
(** ** How many arguments are read *)
(* ================================================================== *)

Lemma advances_ret {A : Type} (x : A) : advances (ret x) 0.
Proof. intros args i y j H. unfold ret in H. injection H as _ <-. lia. Qed.

Lemma advances_lift {A : Type} (o : option A) : advances (lift o) 0.
Proof.
  intros args i y j H. unfold lift in H. destruct o; [|discriminate].
  injection H as _ <-. lia.
Qed.

Lemma advances_next_arg : advances next_arg 1.
Proof.
  intros args i y j H. unfold next_arg in H.
  destruct (nth_error args i); [|discriminate]. injection H as _ <-. lia.
Qed.

Lemma advances_peek_arg : advances peek_arg 0.
Proof.
  intros args i y j H. unfold peek_arg in H.
  destruct (nth_error args i); [|discriminate]. injection H as _ <-. lia.
Qed.

Lemma advances_skip (n : nat) : advances (skip n) n.
Proof. intros args i y j H. unfold skip in H. now injection H as _ <-. Qed.

Lemma advances_bind {A B : Type} (c : Unpack A) (k : A -> Unpack B) (n m : nat) :
  advances c n -> (forall x, advances (k x) m) -> advances (bind c k) (n + m).
Proof.
  intros Hc Hk args i y j H. unfold bind in H.
  destruct (c args i) as [[x i']|] eqn:Hci; [|discriminate].
  apply Hc in Hci. apply Hk in H. lia.
Qed.

Lemma advances_eq {A : Type} (p : Unpack A) (n m : nat) :
  n = m -> advances p n -> advances p m.
Proof. now intros ->. Qed.

Lemma unpack_loop_advances {A : Type} (body : Unpack A) (k : nat) :
  advances body k ->
  forall n args i xs j,
    unpack_loop n body args i = Some (xs, j) -> j = i + k * n /\ length xs = n.
Proof.
  intros Hb. induction n as [|n IH]; intros args i xs j H; simpl in H.
  - unfold ret in H. injection H as <- <-. simpl. lia.
  - unfold bind in H.
    destruct (body args i) as [[x i1]|] eqn:H1; [|discriminate].
    destruct (unpack_loop n body args i1) as [[ys i2]|] eqn:H2; [|discriminate].
    unfold ret in H. injection H as <- <-.
    apply Hb in H1. apply IH in H2 as [H2 Hlen]. simpl. lia.
Qed.

Create HintDb advance.

#[local] Hint Resolve advances_ret advances_lift advances_next_arg advances_peek_arg
  advances_skip : advance.

Ltac advance_steps :=
  repeat first
    [ eapply advances_bind; [solve [eauto with advance] | intro]
    | solve [eauto with advance] ].

Section Reading.
Context {E : Engine}.

Lemma advances_unpack_camera : advances unpack_camera 8.
Proof.
  unfold unpack_camera. eapply advances_eq; [|advance_steps]. reflexivity.
Qed.

Lemma advances_unpack_shape : advances unpack_shape 6.
Proof.
  unfold unpack_shape. eapply advances_eq; [|advance_steps]. reflexivity.
Qed.

Lemma advances_unpack_material : advances unpack_material 7.
Proof.
  unfold unpack_material. eapply advances_eq; [|advance_steps]. reflexivity.
Qed.

Lemma advances_unpack_light : advances unpack_light 3.
Proof.
  unfold unpack_light. eapply advances_eq; [|advance_steps]. reflexivity.
Qed.

Lemma advances_unpack_channel : advances unpack_channel 1.
Proof.
  unfold unpack_channel. eapply advances_eq; [|advance_steps]. reflexivity.
Qed.

Lemma advances_unpack_envmap : advances unpack_envmap 7.
Proof.
  unfold unpack_envmap.
  apply (@advances_bind _ _ peek_arg _ 0 7); [apply advances_peek_arg|].
  intros first. destruct (negb (is_empty_tensor first)).
  - eapply advances_eq; [|advance_steps]. reflexivity.
  - eapply advances_eq; [|advance_steps]. reflexivity.
Qed.


Lemma next_arg_bound (args : list tensor) (i j : nat) (t : tensor) :
  next_arg args i = Some (t, j) -> j <= length args.
Proof.
  unfold next_arg. intros H.
  destruct (nth_error args i) eqn:Hn; [|discriminate]. injection H as _ <-.
  apply Nat.le_succ_l. apply nth_error_Some. congruence.
Qed.

Ltac split_binds H :=
  repeat match type of H with
         | context [match ?o with Some _ => _ | None => _ end] =>
             lazymatch o with
             | context [match _ with Some _ => _ | None => _ end] => fail
             | _ => let Hq := fresh "Hq" in
                    destruct o as [[? ?]|] eqn:Hq; [|discriminate H]
             end
         end.

Lemma unpack_arguments_reads (seed : Z) (args : list tensor) (u : Unpacked) (j : nat) :
  unpack_arguments seed args 0 = Some (u, j) ->
  j = arguments_read (u_state u) /\ j <= length args.
Proof.
  unfold unpack_arguments, bind. intros H. split_binds H.
  unfold ret in H. injection H as <- <-.
  repeat match goal with
         | Hq : next_arg _ _ = Some _ |- _ =>
             pose proof (next_arg_bound _ _ Hq); apply advances_next_arg in Hq
         | Hq : lift _ _ _ = Some _ |- _ => apply advances_lift in Hq
         | Hq : unpack_camera _ _ = Some _ |- _ => apply advances_unpack_camera in Hq
         | Hq : unpack_envmap _ _ = Some _ |- _ => apply advances_unpack_envmap in Hq
         | Hq : unpack_loop _ unpack_shape _ _ = Some _ |- _ =>
             apply (unpack_loop_advances advances_unpack_shape) in Hq
         | Hq : unpack_loop _ unpack_material _ _ = Some _ |- _ =>
             apply (unpack_loop_advances advances_unpack_material) in Hq
         | Hq : unpack_loop _ unpack_light _ _ = Some _ |- _ =>
             apply (unpack_loop_advances advances_unpack_light) in Hq
         | Hq : unpack_loop _ unpack_channel _ _ = Some _ |- _ =>
             apply (unpack_loop_advances advances_unpack_channel) in Hq
         end.
  unfold arguments_read. simpl. lia.
Qed.

(** [forward] returns only on a list that holds every argument it reads:
    3 counts, 8 camera fields, 6 per rebuilt shape, 7 per rebuilt material,
    3 per rebuilt light, the 7 environment map slots, 3 sampling fields, one
    tag per channel and 3 trailing fields.  In particular it raises on any
    list of fewer than 24 arguments. *)
Theorem forward_needs_its_arguments (seed : Z) (args : list tensor) (w w' : World)
    (img : tensor) :
  forward seed args w = Some (img, w') ->
  exists st,
    ctx_forward (__ctx w') = Some st /\
    arguments_read st <= length args /\
    24 <= length args.
Proof.
  intros Hf. apply forward_inv in Hf as (u & Hu & Hctx & _).
  destruct (unpack_arguments seed args 0) as [[u' j]|] eqn:Hun; [|discriminate].
  simpl in Hu. injection Hu as ->.
  apply unpack_arguments_reads in Hun as [Hj Hle].
  exists (u_state u). split; [exact Hctx|]. unfold arguments_read in *. lia.
Qed.

End Reading.

Section Lengths.
Context {E : Engine}.
Variables (num_samples : NumSamples) (max_bounces : Z) (channels : list Channel)
          (sampler_type : SamplerType) (primary secondary : bool).

Lemma length_serialize_scene_slots (st : pyredner.shape_store) (scene : pyredner.Scene.t) :
  length (serialize_scene_slots st scene num_samples max_bounces channels sampler_type
            primary secondary) =
    24 + 6 * length (pyredner.Scene.shapes scene)
       + 7 * length (pyredner.Scene.materials scene)
       + 3 * length (pyredner.Scene.area_lights scene)
       + length channels.
Proof.
  rewrite serialize_scene_slots_blocks. rewrite !length_app.
  rewrite (length_flat_map_blocks _ _ length_shape_slots).
  rewrite (length_flat_map_blocks _ _ length_material_slots).
  rewrite (length_flat_map_blocks _ _ length_light_slots).
  rewrite (length_flat_map_blocks _ _ length_channel_slots).
  rewrite length_envmap_slots, length_map. simpl. lia.
Qed.

Lemma flattened_is_read (scene : pyredner.Scene.t) (w w1 w2 : World)
    (seed : Z) (img : tensor) (args : list tensor) :
  serialize_scene scene num_samples max_bounces channels sampler_type primary secondary w
    = Some (args, w1) ->
  forward seed args w1 = Some (img, w2) ->
  exists st,
    ctx_forward (__ctx w2) = Some st /\
    arguments_read st = length args.
Proof.
  intros Hs Hf.
  apply serialize_scene_inv in Hs as (_ & Hargs & _).
  apply forward_inv in Hf as (u & Hu & Hctx & _).
  exists (u_state u). split; [exact Hctx|].
  rewrite Hargs, unpack_serialized in Hu.
  apply reconstruct_inv in Hu as (Hns & Hnm & Hnl & _ & Hnc & _).
  rewrite Hargs, length_map, length_serialize_scene_slots.
  unfold arguments_read. rewrite Hns, Hnm, Hnl, Hnc, Nat2Z.id. reflexivity.
Qed.

(** The flattened list has 24 entries plus 6 per shape, 7 per material, 3
    per light and one per channel, whether or not buffers or the
    environment map are absent. *)
Theorem serialize_scene_length (scene : pyredner.Scene.t) (w w1 : World)
    (args : list tensor) :
  serialize_scene scene num_samples max_bounces channels sampler_type primary secondary w
    = Some (args, w1) ->
  length args =
    24 + 6 * length (pyredner.Scene.shapes scene)
       + 7 * length (pyredner.Scene.materials scene)
       + 3 * length (pyredner.Scene.area_lights scene)
       + length channels.
Proof.
  intros Hs. apply serialize_scene_inv in Hs as (_ & Hargs & _).
  rewrite Hargs, length_map. apply length_serialize_scene_slots.
Qed.

(** On a flattened scene [forward] reads the whole list: what it rebuilds
    accounts for every argument, none is left over and none is missing. *)
Theorem forward_reads_whole_flattened_list (scene : pyredner.Scene.t) (w w1 w2 : World)
    (x0 img : tensor) (args : list tensor)
    (bwd : tensor -> World -> option (list (option tensor) * World)) :
  serialize_scene scene num_samples max_bounces channels sampler_type primary secondary w
    = Some (args, w1) ->
  render (x0 :: args) w1 = Some (img, bwd, w2) ->
  exists st,
    ctx_forward (__ctx w2) = Some st /\
    arguments_read st = length args.
Proof.
  intros Hs Hr.
  apply render_inv in Hr as (x0' & args' & seed & Hx & _ & Hf & _).
  injection Hx as <- <-.
  eapply flattened_is_read; [exact Hs | exact Hf].
Qed.

End Lengths.

(* ================================================================== *)
(** ** Arguments past the last one read *)
(* ================================================================== *)

Lemma blind_ret {A : Type} (x : A) : blind_to_suffix (ret x).
Proof. intros args extra i r H. exact H. Qed.

Lemma blind_lift {A : Type} (o : option A) : blind_to_suffix (lift o).
Proof. intros args extra i r H. exact H. Qed.

Lemma blind_skip (n : nat) : blind_to_suffix (skip n).
Proof. intros args extra i r H. exact H. Qed.

Lemma nth_error_app_some {X : Type} (l extra : list X) (i : nat) (x : X) :
  nth_error l i = Some x -> nth_error (l ++ extra) i = Some x.
Proof.
  intros H. rewrite nth_error_app1; [exact H|]. apply nth_error_Some. congruence.
Qed.

Lemma blind_next_arg : blind_to_suffix next_arg.
Proof.
  intros args extra i r H. unfold next_arg in *.
  destruct (nth_error args i) as [t|] eqn:Hn; [|discriminate].
  now rewrite (nth_error_app_some _ extra _ Hn).
Qed.

Lemma blind_peek_arg : blind_to_suffix peek_arg.
Proof.
  intros args extra i r H. unfold peek_arg in *.
  destruct (nth_error args i) as [t|] eqn:Hn; [|discriminate].
  now rewrite (nth_error_app_some _ extra _ Hn).
Qed.

Lemma blind_bind {A B : Type} (c : Unpack A) (k : A -> Unpack B) :
  blind_to_suffix c -> (forall x, blind_to_suffix (k x)) -> blind_to_suffix (bind c k).
Proof.
  intros Hc Hk args extra i r H. unfold bind in *.
  destruct (c args i) as [[x j]|] eqn:Hci; [|discriminate].
  rewrite (Hc _ extra _ _ Hci). now apply Hk.
Qed.

Lemma blind_unpack_loop {A : Type} (n : nat) (body : Unpack A) :
  blind_to_suffix body -> blind_to_suffix (unpack_loop n body).
Proof.
  intros Hb. induction n as [|n IH]; simpl.
  - apply blind_ret.
  - apply blind_bind; [exact Hb|]. intros x.
    apply blind_bind; [exact IH|]. intros xs. apply blind_ret.
Qed.

Create HintDb blind.

#[local] Hint Resolve blind_ret blind_lift blind_skip blind_next_arg blind_peek_arg
  blind_unpack_loop : blind.

Ltac blind_steps :=
  repeat first
    [ apply blind_bind; [solve [auto with blind] | intro]
    | solve [auto with blind]
    | intro ].

Section Suffix.
Context {E : Engine}.

Lemma blind_unpack_camera : blind_to_suffix unpack_camera.
Proof. unfold unpack_camera. blind_steps. Qed.

Lemma blind_unpack_shape : blind_to_suffix unpack_shape.
Proof. unfold unpack_shape. blind_steps. Qed.

Lemma blind_unpack_material : blind_to_suffix unpack_material.
Proof. unfold unpack_material. blind_steps. Qed.

Lemma blind_unpack_light : blind_to_suffix unpack_light.
Proof. unfold unpack_light. blind_steps. Qed.

Lemma blind_unpack_channel : blind_to_suffix unpack_channel.
Proof. unfold unpack_channel. blind_steps. Qed.

Lemma blind_unpack_envmap : blind_to_suffix unpack_envmap.
Proof.
  unfold unpack_envmap. apply blind_bind; [auto with blind|]. intros first.
  destruct (negb (is_empty_tensor first)); blind_steps.
Qed.

#[local] Hint Resolve blind_unpack_camera blind_unpack_shape blind_unpack_material
  blind_unpack_light blind_unpack_channel blind_unpack_envmap : blind.

Lemma blind_unpack_arguments (seed : Z) : blind_to_suffix (unpack_arguments seed).
Proof. unfold unpack_arguments. blind_steps. Qed.

(** [forward] never checks that the list ends where its reading ends:
    whenever it returns on a list, it returns the same image and leaves the
    same state on that list followed by any further arguments. *)
Theorem forward_ignores_trailing_arguments (seed : Z) (args extra : list tensor)
    (w w' : World) (img : tensor) :
  forward seed args w = Some (img, w') ->
  forward seed (args ++ extra) w = Some (img, w').
Proof.
  unfold forward. intros H.
  destruct (unpack_arguments seed args 0) as [[u j]|] eqn:Hun; [|discriminate].
  rewrite (@blind_unpack_arguments seed args extra 0 (u, j) Hun). exact H.
Qed.

End Suffix.

(* ================================================================== *)
(** ** What [forward] rebuilds from a flattened scene *)
(* ================================================================== *)

Section RoundTrip.
Context {E : Engine}.
Variables (num_samples : NumSamples) (max_bounces : Z) (channels : list Channel)
          (sampler_type : SamplerType) (primary secondary : bool).

Lemma reconstruct_parts (seed : Z) (st : pyredner.shape_store) (scene : pyredner.Scene.t)
    (u : Unpacked) :
  reconstruct seed st scene num_samples max_bounces channels sampler_type
    primary secondary = Some u ->
  exists cam shapes materials lights renv n chs sampler,
    rebuild_camera (map snd (camera_slots (pyredner.Scene.camera scene))) = Some cam /\
    traverse rebuild_shape (blocks_of shape_slots (map st (pyredner.Scene.shapes scene)))
      = Some shapes /\
    traverse rebuild_material (blocks_of material_slots (pyredner.Scene.materials scene))
      = Some materials /\
    traverse rebuild_light (blocks_of light_slots (pyredner.Scene.area_lights scene))
      = Some lights /\
    rebuild_envmap (map snd (envmap_slots (pyredner.Scene.envmap scene))) = Some renv /\
    py_int (tf_constant_num_samples num_samples) = Some n /\
    u = mkUnpacked (snd cam)
          (mkForwardState shapes materials lights renv
             (redner.Scene.mk (fst cam) shapes materials lights renv get_use_gpu (-1)
                (tf_constant_bool primary) (tf_constant_bool secondary))
             (redner.RenderOptions.mk seed n max_bounces chs sampler)
             (n, n) (Z.of_nat (length channels))).
Proof.
  unfold reconstruct. intros Hu.
  destruct (rebuild_camera _) as [cam|]; [|discriminate].
  destruct (traverse rebuild_shape _) as [shapes|]; [|discriminate].
  destruct (traverse rebuild_material _) as [materials|]; [|discriminate].
  destruct (traverse rebuild_light _) as [lights|]; [|discriminate].
  destruct (rebuild_envmap _) as [renv|]; [|discriminate].
  destruct (py_int _) as [n|]; [|discriminate].
  destruct (traverse rebuild_channel _) as [chs|]; [|discriminate].
  destruct (RednerSamplerType_asSamplerType _) as [sampler|]; [|discriminate].
  injection Hu as <-. exists cam, shapes, materials, lights, renv, n, chs, sampler.
  repeat split; reflexivity.
Qed.

Lemma forward_image (seed : Z) (args : list tensor) (w w' : World) (img : tensor) :
  forward seed args w = Some (img, w') ->
  exists u,
    option_map fst (unpack_arguments seed args 0) = Some u /\
    ctx_forward (__ctx w') = Some (u_state u) /\
    (0 <= fst (u_resolution u))%Z /\ (0 <= snd (u_resolution u))%Z /\
    img = np_zeros [Z.to_nat (fst (u_resolution u)); Z.to_nat (snd (u_resolution u));
                    compute_num_channels
                      (redner.RenderOptions.channels (ctx_options (u_state u)))].
Proof.
  unfold forward. intros H.
  destruct (unpack_arguments seed args 0) as [[u j]|]; [|discriminate].
  destruct ((0 <=? fst (u_resolution u))%Z && (0 <=? snd (u_resolution u))%Z) eqn:Hres;
    [|discriminate].
  apply andb_prop in Hres as [H0 H1]. apply Z.leb_le in H0, H1.
  injection H as <- <-. exists u. simpl. auto.
Qed.

(** What a flattening followed by a rendering establishes. *)
Lemma flatten_render_inv (scene : pyredner.Scene.t) (w w1 w2 : World)
    (x0 img : tensor) (args : list tensor)
    (bwd : tensor -> World -> option (list (option tensor) * World)) :
  serialize_scene scene num_samples max_bounces channels sampler_type primary secondary w
    = Some (args, w1) ->
  render (x0 :: args) w1 = Some (img, bwd, w2) ->
  exists seed u,
    py_int x0 = Some seed /\
    reconstruct seed (shape_objects w1) scene num_samples max_bounces channels
      sampler_type primary secondary = Some u /\
    ctx_forward (__ctx w2) = Some (u_state u) /\
    (0 <= fst (u_resolution u))%Z /\ (0 <= snd (u_resolution u))%Z /\
    img = np_zeros [Z.to_nat (fst (u_resolution u)); Z.to_nat (snd (u_resolution u));
                    compute_num_channels
                      (redner.RenderOptions.channels (ctx_options (u_state u)))].
Proof.
  intros Hs Hr.
  apply serialize_scene_inv in Hs as (_ & -> & _).
  apply render_inv in Hr as (x0' & args' & seed & Hx & Hseed & Hf & _).
  injection Hx as <- <-.
  apply forward_image in Hf as (u & Hu & Hctx & H0 & H1 & Himg).
  rewrite unpack_serialized in Hu. exists seed, u. auto 10.
Qed.

(** Round trip of the shapes: after a scene is flattened and rendered, the
    retained list of native shapes has one entry per shape of the scene, in
    the same order, and the k-th entry carries the material index and the
    light index of the k-th shape object (as the light loop left it), the
    first dimension of its vertex and index tensors as vertex and triangle
    counts, and the addresses of its four buffers, the empty tensor standing
    in for an absent UV or normal buffer. *)
Theorem shapes_round_trip (scene : pyredner.Scene.t) (w w1 w2 : World)
    (x0 img : tensor) (args : list tensor)
    (bwd : tensor -> World -> option (list (option tensor) * World)) :
  serialize_scene scene num_samples max_bounces channels sampler_type primary secondary w
    = Some (args, w1) ->
  render (x0 :: args) w1 = Some (img, bwd, w2) ->
  exists st,
    ctx_forward (__ctx w2) = Some st /\
    length (ctx_shapes st) = length (pyredner.Scene.shapes scene) /\
    forall k r,
      nth_error (pyredner.Scene.shapes scene) k = Some r ->
      exists num_vertices num_triangles,
        shape_at (pyredner.Shape.vertices (shape_objects w1 r)) 0 = Some num_vertices /\
        shape_at (pyredner.Shape.indices (shape_objects w1 r)) 0 = Some num_triangles /\
        nth_error (ctx_shapes st) k =
          Some (redner.Shape.mk
                  (data_ptr (pyredner.Shape.vertices (shape_objects w1 r)))
                  (data_ptr (pyredner.Shape.indices (shape_objects w1 r)))
                  (data_ptr (or_empty (pyredner.Shape.uvs (shape_objects w1 r))))
                  (data_ptr (or_empty (pyredner.Shape.normals (shape_objects w1 r))))
                  num_vertices num_triangles
                  (pyredner.Shape.material_id (shape_objects w1 r))
                  (pyredner.Shape.light_id (shape_objects w1 r))).
Proof.
  intros Hs Hr.
  edestruct flatten_render_inv as (seed & u & _ & Hu & Hctx & _);
    [exact Hs | exact Hr |].
  apply reconstruct_parts in Hu
    as (cam & shapes & mats & lights & renv & n & chs & sampler
        & _ & Hshapes & _ & _ & _ & _ & ->).
  exists (u_state (mkUnpacked (snd cam)
            (mkForwardState shapes mats lights renv
               (redner.Scene.mk (fst cam) shapes mats lights renv get_use_gpu (-1)
                  (tf_constant_bool primary) (tf_constant_bool secondary))
               (redner.RenderOptions.mk seed n max_bounces chs sampler)
               (n, n) (Z.of_nat (length channels))))).
  split; [exact Hctx|]. simpl.
  pose proof Hshapes as Hlen. apply traverse_length in Hlen.
  rewrite length_blocks_of, length_map in Hlen. split; [exact Hlen|].
  intros k r Hk.
  apply traverse_blocks_Forall2 in Hshapes.
  pose proof (Forall2_nth_error_l Hshapes) as HN.
  assert (Hk' : nth_error (map (shape_objects w1) (pyredner.Scene.shapes scene)) k
                = Some (shape_objects w1 r)) by now rewrite nth_error_map, Hk.
  destruct (HN _ _ Hk') as (rsh & Hrsh & _ & Hreb).
  rewrite shape_slots_eq in Hreb. simpl in Hreb.
  apply rebuild_shape_inv in Hreb as (nv & nt & mid & lid & Hnv & Hnt & Hmid & Hlid & ->).
  rewrite py_int_constant in Hmid, Hlid. injection Hmid as <-. injection Hlid as <-.
  exists nv, nt. auto.
Qed.

Lemma rebuild_light_inv (sid int ts : tensor) (rl : redner.AreaLight.t) :
  rebuild_light [sid; int; ts] = Some rl ->
  exists z b,
    py_int sid = Some z /\ py_bool ts = Some b /\
    rl = redner.AreaLight.mk z (data_ptr int) b.
Proof.
  unfold rebuild_light, unpack_light, bind, next_arg, lift, ret. simpl. intros H.
  invert_options H. injection H as <-. eauto 10.
Qed.

(** Round trip of the lights: the retained list of native area lights has
    one entry per light of the scene, in the same order, with the same
    shape index and two-sided flag and the address of the intensity
    buffer. *)
Theorem lights_round_trip (scene : pyredner.Scene.t) (w w1 w2 : World)
    (x0 img : tensor) (args : list tensor)
    (bwd : tensor -> World -> option (list (option tensor) * World)) :
  serialize_scene scene num_samples max_bounces channels sampler_type primary secondary w
    = Some (args, w1) ->
  render (x0 :: args) w1 = Some (img, bwd, w2) ->
  exists st,
    ctx_forward (__ctx w2) = Some st /\
    ctx_area_lights st =
      map (fun light =>
             redner.AreaLight.mk (pyredner.AreaLight.shape_id light)
               (data_ptr (pyredner.AreaLight.intensity light))
               (pyredner.AreaLight.two_sided light))
          (pyredner.Scene.area_lights scene).
Proof.
  intros Hs Hr.
  edestruct flatten_render_inv as (seed & u & _ & Hu & Hctx & _);
    [exact Hs | exact Hr |].
  apply reconstruct_parts in Hu
    as (cam & shapes & mats & lights & renv & n & chs & sampler
        & _ & _ & _ & Hlights & _ & _ & ->).
  eexists. split; [exact Hctx|]. simpl.
  clear Hctx. revert lights Hlights. unfold blocks_of.
  induction (pyredner.Scene.area_lights scene) as [|l ls IH]; intros lights Hl;
    cbn [map traverse] in Hl.
  - now injection Hl as <-.
  - destruct (rebuild_light (map snd (light_slots l))) as [rl|] eqn:Hrl; [|discriminate].
    destruct (traverse rebuild_light (map (fun x => map snd (light_slots x)) ls))
      as [rls|] eqn:Hrls; [|discriminate].
    injection Hl as <-. cbn [map]. f_equal; [|now apply IH].
    simpl in Hrl.
    apply rebuild_light_inv in Hrl as (z & b & Hz & Hb & ->).
    rewrite py_int_constant in Hz. injection Hz as <-.
    simpl in Hb. now injection Hb as <-.
Qed.

(** Round trip of the materials: the retained list of native materials has
    one entry per material of the scene, in the same order, with the same
    two-sided flag, and its three textures are the ones the rank test builds
    from the diffuse, specular and roughness tensors with their UV
    scales. *)
Theorem materials_round_trip (scene : pyredner.Scene.t) (w w1 w2 : World)
    (x0 img : tensor) (args : list tensor)
    (bwd : tensor -> World -> option (list (option tensor) * World)) :
  serialize_scene scene num_samples max_bounces channels sampler_type primary secondary w
    = Some (args, w1) ->
  render (x0 :: args) w1 = Some (img, bwd, w2) ->
  exists st,
    ctx_forward (__ctx w2) = Some st /\
    length (ctx_materials st) = length (pyredner.Scene.materials scene) /\
    forall k m,
      nth_error (pyredner.Scene.materials scene) k = Some m ->
      exists rm,
        nth_error (ctx_materials st) k = Some rm /\
        redner.Material.two_sided rm = pyredner.Material.two_sided m /\
        texture3_from
          (pyredner.Texture.mipmap (pyredner.Material.diffuse_reflectance m))
          (pyredner.Texture.uv_scale (pyredner.Material.diffuse_reflectance m))
          (redner.Material.diffuse_reflectance rm) /\
        texture3_from
          (pyredner.Texture.mipmap (pyredner.Material.specular_reflectance m))
          (pyredner.Texture.uv_scale (pyredner.Material.specular_reflectance m))
          (redner.Material.specular_reflectance rm) /\
        texture1_from
          (pyredner.Texture.mipmap (pyredner.Material.roughness m))
          (pyredner.Texture.uv_scale (pyredner.Material.roughness m))
          (redner.Material.roughness rm).
Proof.
  intros Hs Hr.
  edestruct flatten_render_inv as (seed & u & _ & Hu & Hctx & _);
    [exact Hs | exact Hr |].
  apply reconstruct_parts in Hu
    as (cam & shapes & mats & lights & renv & n & chs & sampler
        & _ & _ & Hmats & _ & _ & _ & ->).
  eexists. split; [exact Hctx|]. simpl.
  pose proof Hmats as Hlen. apply traverse_length in Hlen.
  rewrite length_blocks_of in Hlen. split; [exact Hlen|].
  intros k m Hk.
  apply traverse_blocks_Forall2 in Hmats.
  pose proof (Forall2_nth_error_l Hmats) as HN.
  destruct (HN _ _ Hk) as (rm & Hrm & _ & Hreb).
  simpl in Hreb.
  apply rebuild_material_inv in Hreb as (td & tsp & tr & b & Hd & Hsp & Hro & Hb & ->).
  exists (redner.Material.mk td tsp tr b). simpl.
  simpl in Hb. injection Hb as <-.
  apply make_texture3_from in Hd, Hsp. apply make_texture1_from in Hro as [Hro _].
  auto.
Qed.

(** Round trip of the scalar options: the retained options carry the seed
    given to [render], the flattened sample count and bounce count; the
    retained sample-count pair repeats the one count for both passes, and
    the retained channel count is the number of channels that were
    flattened. *)
Theorem options_round_trip (scene : pyredner.Scene.t) (w w1 w2 : World)
    (x0 img : tensor) (args : list tensor)
    (bwd : tensor -> World -> option (list (option tensor) * World)) :
  serialize_scene scene num_samples max_bounces channels sampler_type primary secondary w
    = Some (args, w1) ->
  render (x0 :: args) w1 = Some (img, bwd, w2) ->
  exists st n,
    ctx_forward (__ctx w2) = Some st /\
    num_samples = Samples n /\
    py_int x0 = Some (redner.RenderOptions.seed (ctx_options st)) /\
    redner.RenderOptions.num_samples (ctx_options st) = n /\
    redner.RenderOptions.max_bounces (ctx_options st) = max_bounces /\
    ctx_num_samples st = (n, n) /\
    ctx_num_channels st = Z.of_nat (length channels).
Proof.
  intros Hs Hr.
  edestruct flatten_render_inv as (seed & u & Hseed & Hu & Hctx & _);
    [exact Hs | exact Hr |].
  apply reconstruct_parts in Hu
    as (cam & shapes & mats & lights & renv & n & chs & sampler
        & _ & _ & _ & _ & _ & Hn & ->).
  eexists. exists n. split; [exact Hctx|]. simpl.
  destruct num_samples as [z|a b]; simpl in Hn; [|discriminate].
  injection Hn as <-. auto 10.
Qed.

(** The image and the camera handle: after a scene is flattened and
    rendered, neither entry of the camera resolution is negative, the image
    returned is a zero-allocated buffer of shape (resolution[0],
    resolution[1], number of engine channels of the rebuilt channel list),
    and the native camera was given resolution[1] as width and
    resolution[0] as height. *)
Theorem image_shape (scene : pyredner.Scene.t) (w w1 w2 : World)
    (x0 img : tensor) (args : list tensor)
    (bwd : tensor -> World -> option (list (option tensor) * World)) :
  serialize_scene scene num_samples max_bounces channels sampler_type primary secondary w
    = Some (args, w1) ->
  render (x0 :: args) w1 = Some (img, bwd, w2) ->
  let resolution := pyredner.Camera.resolution (pyredner.Scene.camera scene) in
  (0 <= fst resolution)%Z /\ (0 <= snd resolution)%Z /\
  exists st,
    ctx_forward (__ctx w2) = Some st /\
    img = np_zeros [Z.to_nat (fst resolution); Z.to_nat (snd resolution);
                    compute_num_channels (redner.RenderOptions.channels (ctx_options st))] /\
    redner.Camera.width (redner.Scene.camera (ctx_scene st)) = snd resolution /\
    redner.Camera.height (redner.Scene.camera (ctx_scene st)) = fst resolution.
Proof.
  intros Hs Hr resolution.
  edestruct flatten_render_inv as (seed & u & _ & Hu & Hctx & H0 & H1 & Himg);
    [exact Hs | exact Hr |].
  apply reconstruct_parts in Hu
    as (cam & shapes & mats & lights & renv & n & chs & sampler
        & Hcam & _ & _ & _ & _ & _ & ->).
  simpl in *.
  assert (Hres : snd cam = resolution /\
                 redner.Camera.width (fst cam) = snd resolution /\
                 redner.Camera.height (fst cam) = fst resolution).
  { unfold rebuild_camera, unpack_camera, bind, next_arg, lift, ret in Hcam.
    simpl in Hcam. invert_options Hcam. injection Hcam as <-. simpl.
    unfold resolution. destruct (pyredner.Camera.resolution (pyredner.Scene.camera scene)).
    auto. }
  destruct Hres as (Hres & Hw & Hh). rewrite Hres in *.
  repeat split; auto. eexists. split; [exact Hctx|]. simpl. auto.
Qed.

(** Presence of the environment map is decided by emptiness of its first
    argument: no environment map is retained exactly when the scene has
    none or when the radiance tensor of its environment map has no
    elements, in which case the map is dropped without an error. *)
Theorem envmap_retained_iff_radiance_not_empty (scene : pyredner.Scene.t)
    (w w1 w2 : World) (x0 img : tensor) (args : list tensor)
    (bwd : tensor -> World -> option (list (option tensor) * World)) :
  serialize_scene scene num_samples max_bounces channels sampler_type primary secondary w
    = Some (args, w1) ->
  render (x0 :: args) w1 = Some (img, bwd, w2) ->
  exists st,
    ctx_forward (__ctx w2) = Some st /\
    (ctx_envmap st = None <->
     match pyredner.Scene.envmap scene with
     | None => True
     | Some e =>
         is_empty_tensor (pyredner.Texture.mipmap (pyredner.EnvironmentMap.values e)) = true
     end).
Proof.
  intros Hs Hr.
  edestruct flatten_render_inv as (seed & u & _ & Hu & Hctx & _);
    [exact Hs | exact Hr |].
  apply reconstruct_parts in Hu
    as (cam & shapes & mats & lights & renv & n & chs & sampler
        & _ & _ & _ & _ & Hrenv & _ & ->).
  eexists. split; [exact Hctx|]. simpl.
  rewrite envmap_slots_eq in Hrenv.
  destruct (pyredner.Scene.envmap scene) as [e|]; simpl in Hrenv;
    apply rebuild_envmap_inv in Hrenv
      as [[Hempty ->] | (Hne & wi & he & nl & q & _ & _ & _ & _ & ->)].
  - tauto.
  - rewrite Hne. split; discriminate.
  - tauto.
  - discriminate.
Qed.

End RoundTrip.

(* ================================================================== *)
(** ** The light loop, in general *)
(* ================================================================== *)

Lemma py_index_in_range {A : Type} (l : list A) (i : Z) :
  py_index l i <> None <->
  (- Z.of_nat (length l) <= i < Z.of_nat (length l))%Z.
Proof.
  unfold py_index.
  destruct (Z.leb_spec 0 i) as [Hi|Hi].
  - rewrite nth_error_Some. lia.
  - destruct (Z.leb_spec (- Z.of_nat (length l)) i) as [Hn|Hn].
    + rewrite nth_error_Some. lia.
    + split; [congruence | lia].
Qed.

Lemma annotate_targets (scene : pyredner.Scene.t) (lights : list pyredner.AreaLight.t) :
  forall (a : nat) (st st' : pyredner.shape_store),
    fold_left (annotate_light (pyredner.Scene.shapes scene))
              (combine (seq a (length lights)) lights) (Some st) = Some st' ->
    forallb (fun l => is_some (light_target scene l)) lights = true.
Proof.
  induction lights as [|l0 ls IH]; intros a st st' H; simpl in *.
  - reflexivity.
  - fold (light_target scene l0) in H.
    destruct (light_target scene l0) as [r0|];
      [|rewrite fold_annotate_none in H; discriminate].
    simpl. eapply IH. exact H.
Qed.

Lemma annotate_final (scene : pyredner.Scene.t) (lights : list pyredner.AreaLight.t) :
  forall (a : nat) (st st' : pyredner.shape_store),
    fold_left (annotate_light (pyredner.Scene.shapes scene))
              (combine (seq a (length lights)) lights) (Some st) = Some st' ->
    forall r,
      st' r = pyredner.Shape.set_light_id (st r)
                (final_light_id scene r (combine (seq a (length lights)) lights)
                   (pyredner.Shape.light_id (st r))).
Proof.
  induction lights as [|l0 ls IH]; intros a st st' H r; simpl in H.
  - injection H as <-. unfold final_light_id. simpl. now rewrite set_light_id_same.
  - fold (light_target scene l0) in H.
    destruct (light_target scene l0) as [r0|] eqn:Ht;
      [|rewrite fold_annotate_none in H; discriminate].
    assert (Hat : attached_to scene r l0 = Nat.eqb r r0).
    { unfold attached_to. rewrite Ht. apply Nat.eqb_sym. }
    rewrite (IH _ _ _ H r). unfold final_light_id.
    cbn [length seq combine fold_left fst snd].
    rewrite Hat. unfold pyredner.store_set.
    destruct (Nat.eqb r r0) eqn:Hrr; [|reflexivity].
    apply Nat.eqb_eq in Hrr. subst r0. reflexivity.
Qed.

Lemma final_light_id_last (scene : pyredner.Scene.t) (r : pyredner.ref)
    (lights : list pyredner.AreaLight.t) :
  forall (a : nat) (init : Z),
    let final := final_light_id scene r (combine (seq a (length lights)) lights) init in
    (final = init /\ forall l, In l lights -> attached_to scene r l = false) \/
    (exists before light after,
       lights = before ++ light :: after /\
       attached_to scene r light = true /\
       (forall l, In l after -> attached_to scene r l = false) /\
       final = Z.of_nat (a + length before)).
Proof.
  induction lights as [|l0 ls IH]; intros a init; simpl.
  - left. split; [reflexivity | intros l []].
  - unfold final_light_id. simpl.
    destruct (IH (S a) (if attached_to scene r l0 then Z.of_nat a else init))
      as [[Hf Hno] | (before & light & after & -> & Hatt & Hafter & Hf)].
    + unfold final_light_id in Hf. rewrite Hf.
      destruct (attached_to scene r l0) eqn:H0.
      * right. exists [], l0, ls. simpl. repeat split; auto; try (f_equal; lia).
      * left. split; [reflexivity|]. intros l [<-|Hl]; auto.
    + right. exists (l0 :: before), light, after. simpl. repeat split; auto.
      unfold final_light_id in Hf. rewrite Hf. f_equal; lia.
Qed.

Lemma final_light_id_idempotent (scene : pyredner.Scene.t) (r : pyredner.ref)
    (pairs : list (nat * pyredner.AreaLight.t)) (init : Z) :
  final_light_id scene r pairs (final_light_id scene r pairs init)
  = final_light_id scene r pairs init.
Proof.
  assert (H : forall ps, (forall x y, final_light_id scene r ps x = final_light_id scene r ps y)
                         \/ (forall x, final_light_id scene r ps x = x)).
  { induction ps as [|p ps IH]; unfold final_light_id; simpl.
    - right. reflexivity.
    - destruct (attached_to scene r (snd p)).
      + left. reflexivity.
      + exact IH. }
  destruct (H pairs) as [Hc|Hid]; [apply Hc | now rewrite !Hid].
Qed.

Section LightLoop.
Context {E : Engine}.
Variables (num_samples : NumSamples) (max_bounces : Z) (channels : list Channel)
          (sampler_type : SamplerType) (primary secondary : bool).

Lemma tf_constant_accepts_spec (z : Z) :
  tf_constant_accepts z = true <-> (- 2 ^ 63 <= z < 2 ^ 63)%Z.
Proof.
  unfold tf_constant_accepts. rewrite andb_true_iff, Z.leb_le, Z.ltb_lt. reflexivity.
Qed.

Lemma tf_constant_arguments_ext (st st' : pyredner.shape_store) (scene : pyredner.Scene.t) :
  (forall r, st r = st' r) ->
  tf_constant_arguments st scene num_samples max_bounces
  = tf_constant_arguments st' scene num_samples max_bounces.
Proof.
  intros Hext. unfold tf_constant_arguments. cbv zeta.
  now rewrite (map_ext st st' Hext).
Qed.

Lemma annotate_lights_annotated (scene : pyredner.Scene.t) (st st' : pyredner.shape_store) :
  annotate_lights scene st = Some st' -> forall r, st' r = annotated scene st r.
Proof.
  unfold annotate_lights, enumerate, annotated. intros H r.
  apply (annotate_final scene _ _ _ H r).
Qed.

(** [serialize_scene] returns exactly when neither the light loop nor a
    [tf.constant] raises: every light's [shape_id] is a valid Python index
    into [scene.shapes], negative indices counting from the end, and every
    integer handed to [tf.constant] (the resolution entries, the material
    index of every shape and its light index as the light loop leaves it,
    the shape index of every light, the sample counts and the number of
    bounces) lies in the signed 64-bit range. *)
Theorem serialize_scene_returns_iff (scene : pyredner.Scene.t) (w : World) :
  (exists args w1,
     serialize_scene scene num_samples max_bounces channels sampler_type primary
       secondary w = Some (args, w1)) <->
  (forall light, In light (pyredner.Scene.area_lights scene) ->
     (- Z.of_nat (length (pyredner.Scene.shapes scene))
      <= pyredner.AreaLight.shape_id light
      < Z.of_nat (length (pyredner.Scene.shapes scene)))%Z) /\
  Forall (fun z => (- 2 ^ 63 <= z < 2 ^ 63)%Z)
    (tf_constant_arguments (annotated scene (shape_objects w)) scene num_samples
       max_bounces).
Proof.
  split.
  - intros (args & w1 & Hs).
    pose proof (serialize_scene_accepted _ _ _ _ _ _ _ _ Hs) as Hacc.
    apply serialize_scene_inv in Hs as (Hann & _). split.
    + intros light Hin.
      unfold annotate_lights, enumerate in Hann.
      apply annotate_targets in Hann. rewrite forallb_forall in Hann.
      specialize (Hann light Hin). apply py_index_in_range.
      unfold light_target in Hann.
      destruct (py_index _ _); [discriminate | discriminate].
    + rewrite (tf_constant_arguments_ext _ _ scene (annotate_lights_annotated _ _ Hann))
        in Hacc.
      rewrite forallb_forall in Hacc. apply Forall_forall. intros z Hz.
      apply tf_constant_accepts_spec, Hacc, Hz.
  - intros [Hrange Hints].
    assert (Hall : forallb (fun l => is_some (light_target scene l))
                     (pyredner.Scene.area_lights scene) = true).
    { apply forallb_forall. intros light Hin.
      specialize (Hrange light Hin). apply py_index_in_range in Hrange.
      unfold light_target. now destruct (py_index _ _). }
    destruct (annotate_succeeds scene _ Hall 0 (shape_objects w)) as (st & Hst).
    fold (enumerate (pyredner.Scene.area_lights scene)) in Hst.
    fold (annotate_lights scene (shape_objects w)) in Hst.
    eexists _, _. apply serialize_scene_returns; [exact Hst|].
    rewrite (tf_constant_arguments_ext _ _ scene (annotate_lights_annotated _ _ Hst)).
    apply forallb_forall. intros z Hz. apply tf_constant_accepts_spec.
    rewrite Forall_forall in Hints. apply Hints, Hz.
Qed.

(** The last light wins: after [serialize_scene] returns, a shape object
    that no light is attached to keeps the [light_id] it had, and a shape
    object with lights attached carries the index of the last of them in
    the light sequence. *)
Theorem last_attached_light_wins (scene : pyredner.Scene.t) (w w1 : World)
    (args : list tensor) (r : pyredner.ref) :
  serialize_scene scene num_samples max_bounces channels sampler_type primary secondary w
    = Some (args, w1) ->
  (pyredner.Shape.light_id (shape_objects w1 r) = pyredner.Shape.light_id (shape_objects w r)
   /\ forall l, In l (pyredner.Scene.area_lights scene) -> light_target scene l <> Some r)
  \/
  (exists before light after,
     pyredner.Scene.area_lights scene = before ++ light :: after /\
     light_target scene light = Some r /\
     (forall l, In l after -> light_target scene l <> Some r) /\
     pyredner.Shape.light_id (shape_objects w1 r) = Z.of_nat (length before)).
Proof.
  intros Hs. apply serialize_scene_inv in Hs as (Hann & _).
  unfold annotate_lights, enumerate in Hann.
  pose proof (annotate_final scene _ _ _ Hann r) as Hr.
  assert (Hatt : forall l, attached_to scene r l = false -> light_target scene l <> Some r).
  { intros l Hl Ht. unfold attached_to in Hl. rewrite Ht, Nat.eqb_refl in Hl. discriminate. }
  assert (Hatt' : forall l, attached_to scene r l = true -> light_target scene l = Some r).
  { intros l Hl. unfold attached_to in Hl.
    destruct (light_target scene l) as [r'|]; [|discriminate].
    apply Nat.eqb_eq in Hl. now subst. }
  destruct (final_light_id_last scene r (pyredner.Scene.area_lights scene) 0
              (pyredner.Shape.light_id (shape_objects w r)))
    as [[Hf Hno] | (before & light & after & Hl & Hyes & Hafter & Hf)].
  - left. rewrite Hr. simpl. auto.
  - right. exists before, light, after. rewrite Hr. simpl. auto 10.
Qed.

(** Flattening again changes nothing: when [serialize_scene] has returned,
    a second call with the same scene and options on the state it left
    returns the same argument list and leaves every shape object as it
    is. *)
Theorem serialize_scene_idempotent (scene : pyredner.Scene.t) (w w1 : World)
    (args : list tensor) :
  serialize_scene scene num_samples max_bounces channels sampler_type primary secondary w
    = Some (args, w1) ->
  exists w2,
    serialize_scene scene num_samples max_bounces channels sampler_type primary secondary w1
      = Some (args, w2) /\
    forall r, shape_objects w2 r = shape_objects w1 r.
Proof.
  intros Hs.
  pose proof (serialize_scene_accepted _ _ _ _ _ _ _ _ Hs) as Hacc.
  apply serialize_scene_inv in Hs as (Hann & Hargs & _).
  unfold annotate_lights, enumerate in Hann.
  pose proof Hann as Hall. apply annotate_targets in Hall.
  destruct (annotate_succeeds scene _ Hall 0 (shape_objects w1)) as (st2 & Hst2).
  assert (Hsame : forall r, st2 r = shape_objects w1 r).
  { intros r.
    pose proof (annotate_final scene _ _ _ Hann r) as H1.
    assert (Hid : pyredner.Shape.light_id (shape_objects w1 r) =
                  final_light_id scene r
                    (combine (seq 0 (length (pyredner.Scene.area_lights scene)))
                       (pyredner.Scene.area_lights scene))
                    (pyredner.Shape.light_id (shape_objects w r))).
    { rewrite H1 at 1. reflexivity. }
    rewrite (annotate_final scene _ _ _ Hst2 r), Hid, final_light_id_idempotent, <- Hid.
    apply set_light_id_same. }
  fold (enumerate (pyredner.Scene.area_lights scene)) in Hst2.
  fold (annotate_lights scene (shape_objects w1)) in Hst2.
  eexists. split.
  - rewrite (serialize_scene_returns _ _ _ _ _ _ _ _ Hst2).
    + rewrite Hargs. unfold serialize_scene_slots. cbv zeta.
      rewrite (map_ext st2 (shape_objects w1) Hsame). reflexivity.
    + now rewrite (tf_constant_arguments_ext _ _ scene Hsame).
  - exact Hsame.
Qed.

End LightLoop.

(* ================================================================== *)
(** ** The retained context across calls *)
(* ================================================================== *)

Section Retained.
Context {E : Engine}.

Lemma assemble_ret_list_length (ctx : ForwardState) (ret_list : list (option tensor)) :
  assemble_ret_list ctx = Some ret_list ->
  length ret_list = S (arguments_read ctx).
Proof.
  rewrite assemble_ret_list_blocks. intros H. injection H as <-.
  cbn [length]. rewrite !length_app.
  rewrite (@length_flat_map_blocks _ _ shape_grads 6) by reflexivity.
  rewrite (@length_flat_map_blocks _ _ material_grads 7) by reflexivity.
  rewrite (@length_flat_map_blocks _ _ light_grads 3) by reflexivity.
  rewrite length_envmap_grads. cbn [length app]. rewrite !length_app, repeat_length.
  unfold arguments_read. simpl. lia.
Qed.

(** The closure never raises once a forward pass has stored its state, and
    always raises before: [backward] returns exactly when the context
    carries the attributes that [forward] assigns.  In particular the three
    index loops that fill the returned list never run past the end of the
    buffer lists. *)
Theorem backward_returns_iff_forward_ran (grad_img : tensor) (w : World) :
  (exists ret_list w', backward grad_img w = Some (ret_list, w')) <->
  ctx_forward (__ctx w) <> None.
Proof.
  unfold backward. split.
  - intros (ret & w' & H). destruct (ctx_forward (__ctx w)); discriminate.
  - intros H. destruct (ctx_forward (__ctx w)) as [ctx|]; [|contradiction].
    rewrite assemble_ret_list_blocks. eauto.
Qed.

(** For any argument list, flattened from a scene or not: the list returned
    by the closure has one entry for the seed and one per argument that
    [forward] read, and never more entries than [render] received
    arguments. *)
Theorem backward_list_counts_arguments_read (x : list tensor) (w w1 w2 : World)
    (img grad_img : tensor)
    (bwd : tensor -> World -> option (list (option tensor) * World))
    (ret_list : list (option tensor)) :
  render x w = Some (img, bwd, w1) ->
  bwd grad_img w1 = Some (ret_list, w2) ->
  exists st,
    ctx_forward (__ctx w1) = Some st /\
    length ret_list = S (arguments_read st) /\
    length ret_list <= length x.
Proof.
  intros Hr Hb.
  apply render_inv in Hr as (x0 & args & seed & -> & _ & Hf & ->).
  apply forward_inv in Hf as (u & Hu & Hctx & _).
  destruct (unpack_arguments seed args 0) as [[u' j]|] eqn:Hun; [|discriminate].
  simpl in Hu. injection Hu as ->.
  apply unpack_arguments_reads in Hun as [Hj Hle].
  apply backward_inv in Hb as (ctx & _ & _ & Hctx' & Hret & _).
  rewrite Hctx in Hctx'. injection Hctx' as <-.
  apply assemble_ret_list_length in Hret.
  exists (u_state u). split; [exact Hctx|]. split; [exact Hret|].
  rewrite Hret. simpl. lia.
Qed.

(** Calling the closure again returns a list of the same layout: a second
    call, on whatever gradient image, yields the same markers and freshly
    allocated buffers of the same shapes as the first, since a call changes
    nothing of the retained state but the seed and the sample count of the
    options. *)
Theorem backward_repeats_its_layout (grad_img grad_img' : tensor) (w w1 : World)
    (ret_list : list (option tensor)) :
  backward grad_img w = Some (ret_list, w1) ->
  exists w2, backward grad_img' w1 = Some (ret_list, w2).
Proof.
  unfold backward. intros H.
  destruct (ctx_forward (__ctx w)) as [ctx|]; [|discriminate].
  rewrite assemble_ret_list_blocks in H. injection H as <- <-.
  cbn [__ctx ctx_forward]. rewrite assemble_ret_list_blocks.
  cbn [ctx_shapes ctx_materials ctx_area_lights ctx_envmap ctx_num_channels]. eauto.
Qed.

Section TwoScenes.
Variables (num_samples : NumSamples) (max_bounces : Z) (channels : list Channel)
          (sampler_type : SamplerType) (primary secondary : bool).
Variables (num_samples' : NumSamples) (max_bounces' : Z) (channels' : list Channel)
          (sampler_type' : SamplerType) (primary' secondary' : bool).

(** The closure reads the context when it is called, not when it is
    created: if a second scene is flattened and rendered before the closure
    of the first rendering is called, that closure returns what the closure
    of the second rendering returns, a list with one entry per argument of
    the second [render] call. *)
Theorem closure_follows_latest_forward (scene scene' : pyredner.Scene.t)
    (w w1 w2 w3 w4 w5 : World) (x0 x0' img img' grad_img : tensor)
    (args args' : list tensor)
    (bwd bwd' : tensor -> World -> option (list (option tensor) * World))
    (ret_list : list (option tensor)) :
  serialize_scene scene num_samples max_bounces channels sampler_type primary secondary w
    = Some (args, w1) ->
  render (x0 :: args) w1 = Some (img, bwd, w2) ->
  serialize_scene scene' num_samples' max_bounces' channels' sampler_type' primary'
    secondary' w2 = Some (args', w3) ->
  render (x0' :: args') w3 = Some (img', bwd', w4) ->
  bwd grad_img w4 = Some (ret_list, w5) ->
  bwd' grad_img w4 = Some (ret_list, w5) /\
  length ret_list = S (length args').
Proof.
  intros Hs Hr Hs' Hr' Hb.
  apply render_inv in Hr as (_ & _ & _ & _ & _ & _ & ->).
  apply render_inv in Hr' as (y0 & args0 & seed' & Hx & _ & Hf' & ->).
  injection Hx as <- <-.
  split; [exact Hb|].
  edestruct (@flattened_is_read E num_samples' max_bounces' channels' sampler_type'
               primary' secondary' scene' w2 w3 w4 seed' img' args')
    as (st & Hctx & Hread); [exact Hs' | exact Hf' |].
  apply backward_inv in Hb as (ctx & _ & _ & Hctx' & Hret & _).
  rewrite Hctx in Hctx'. injection Hctx' as <-.
  apply assemble_ret_list_length in Hret. now rewrite Hret, Hread.
Qed.

(** Flattening alone does not disturb a rendering: [serialize_scene] leaves
    the retained forward state and the toggle as they are, so a closure
    call made after another scene was flattened (and not rendered) returns
    the list it would have returned before, and hands the engine the same
    call. *)
Theorem serialize_scene_keeps_retained_state (scene' : pyredner.Scene.t)
    (w w' wa : World) (grad_img : tensor) (args' : list tensor)
    (ret_list : list (option tensor)) :
  backward grad_img w = Some (ret_list, wa) ->
  serialize_scene scene' num_samples' max_bounces' channels' sampler_type' primary'
    secondary' w = Some (args', w') ->
  exists wb,
    backward grad_img w' = Some (ret_list, wb) /\
    engine_calls wb = engine_calls wa /\
    ctx_forward (__ctx wb) = ctx_forward (__ctx wa).
Proof.
  intros Hb Hs.
  apply serialize_scene_inv in Hs as (_ & _ & Hcorr & Hctx & Hcalls).
  unfold backward, get_use_correlated_random_number in *.
  rewrite Hctx, Hcorr, Hcalls.
  destruct (ctx_forward (__ctx w)) as [ctx|]; [|discriminate].
  destruct (assemble_ret_list ctx) as [ret|]; [|discriminate].
  injection Hb as <- <-. eexists. repeat split; reflexivity.
Qed.

End TwoScenes.

Section Pair.
Variables (max_bounces : Z) (channels : list Channel)
          (sampler_type : SamplerType) (primary secondary : bool).

(** A pair of sample counts, which the docstring of [serialize_scene]
    allows, is flattened as a two-element tensor, and [forward] converts
    that argument with [int]: on the list flattened from any scene with a
    pair of sample counts, [forward] raises, whatever the seed and the
    state. *)
Theorem pair_of_sample_counts_makes_forward_raise (scene : pyredner.Scene.t)
    (w w1 w' : World) (fwd_samples bwd_samples seed : Z) (args : list tensor) :
  serialize_scene scene (SamplesPair fwd_samples bwd_samples) max_bounces channels
    sampler_type primary secondary w = Some (args, w1) ->
  forward seed args w' = None.
Proof.
  intros Hs. apply serialize_scene_inv in Hs as (_ & -> & _).
  unfold forward.
  destruct (unpack_arguments seed _ 0) as [[u j]|] eqn:Hun; [|reflexivity].
  exfalso.
  assert (Hu : option_map fst
                 (unpack_arguments seed
                    (map snd (serialize_scene_slots (shape_objects w1) scene
                                (SamplesPair fwd_samples bwd_samples) max_bounces channels
                                sampler_type primary secondary)) 0) = Some u)
    by now rewrite Hun.
  rewrite unpack_serialized in Hu.
  apply reconstruct_parts in Hu
    as (cam & shapes & mats & lights & renv & n & chs & sampler
        & _ & _ & _ & _ & _ & Hn & _).
  discriminate.
Qed.

End Pair.

(** The shape of a texture gradient is decided by the sizes stored in the
    native texture, not by the forward tensor as a whole: for one iteration
    of the material loop, the diffuse and specular buffers have shape (3,)
    and the roughness buffer shape (1,) when the forward tensor has rank 1
    or a third dimension of zero; otherwise they have the first three
    dimensions of the forward tensor followed by 3, respectively 1, whatever
    the last dimension of the forward tensor is. *)
Theorem texture_gradient_shape (args : list tensor) (i j : nat)
    (d duv s suv r ruv ts : tensor) (rest : list tensor) (material : redner.Material.t) :
  skipn i args = d :: duv :: s :: suv :: r :: ruv :: ts :: rest ->
  unpack_material args i = Some (material, j) ->
  d_diffuse_of material =
    np_zeros (if Nat.eqb (get_tensor_dimension d) 1 || Nat.eqb (nth 2 (t_shape d) 1) 0
              then [3] else firstn 3 (t_shape d) ++ [3]) /\
  d_specular_of material =
    np_zeros (if Nat.eqb (get_tensor_dimension s) 1 || Nat.eqb (nth 2 (t_shape s) 1) 0
              then [3] else firstn 3 (t_shape s) ++ [3]) /\
  d_roughness_of material =
    np_zeros (if Nat.eqb (get_tensor_dimension r) 1 || Nat.eqb (nth 2 (t_shape r) 1) 0
              then [1] else firstn 3 (t_shape r) ++ [1]).
Proof.
  intros Hskip Hun. rewrite positional_unpack_material, Hskip in Hun.
  change (d :: duv :: s :: suv :: r :: ruv :: ts :: rest)
    with ([d; duv; s; suv; r; ruv; ts] ++ rest) in Hun.
  rewrite (@unpack_material_block E [d; duv; s; suv; r; ruv; ts] rest eq_refl) in Hun.
  destruct (rebuild_material [d; duv; s; suv; r; ruv; ts]) as [rm|] eqn:Hrm;
    [|discriminate].
  simpl in Hun. injection Hun as <- _.
  apply rebuild_material_inv in Hrm as (td & tsp & tr & b & Hd & Hs & Hr & _ & ->).
  assert (H3 : forall t uv tex,
             make_texture3 t uv = Some tex ->
             (if Nat.eqb (redner.Texture3.width tex) 0 then np_zeros [3]
              else np_zeros [redner.Texture3.num_levels tex; redner.Texture3.height tex;
                             redner.Texture3.width tex; 3]) =
             np_zeros (if Nat.eqb (get_tensor_dimension t) 1
                          || Nat.eqb (nth 2 (t_shape t) 1) 0
                       then [3] else firstn 3 (t_shape t) ++ [3])).
  { intros t uv tex Ht. unfold make_texture3, get_tensor_dimension, shape_at in *.
    destruct (Nat.eqb (length (t_shape t)) 1).
    - injection Ht as <-. reflexivity.
    - destruct (t_shape t) as [|l [|h [|wd tl]]]; try discriminate.
      simpl in *. injection Ht as <-. simpl. now destruct (Nat.eqb wd 0). }
  assert (H1 : forall t uv tex,
             make_texture1 t uv = Some tex ->
             (if Nat.eqb (redner.Texture1.width tex) 0 then np_zeros [1]
              else np_zeros [redner.Texture1.num_levels tex; redner.Texture1.height tex;
                             redner.Texture1.width tex; 1]) =
             np_zeros (if Nat.eqb (get_tensor_dimension t) 1
                          || Nat.eqb (nth 2 (t_shape t) 1) 0
                       then [1] else firstn 3 (t_shape t) ++ [1])).
  { intros t uv tex Ht. unfold make_texture1, get_tensor_dimension, shape_at in *.
    destruct (Nat.eqb (length (t_shape t)) 1).
    - injection Ht as <-. reflexivity.
    - destruct (Nat.eqb (length (t_shape t)) 4); [|discriminate].
      destruct (t_shape t) as [|l [|h [|wd tl]]]; try discriminate.
      simpl in *. injection Ht as <-. simpl. now destruct (Nat.eqb wd 0). }
  unfold d_diffuse_of, d_specular_of, d_roughness_of, redner.Material.get_diffuse_size,
    redner.Material.get_specular_size, redner.Material.get_roughness_size,
    size0, size1, size2. simpl.
  repeat split; [eapply H3 | eapply H3 | eapply H1]; eassumption.
Qed.

(** A forward pass followed by a call of the closure hands the engine
    exactly two calls.  The first is a plain rendering into the image
    buffer; the second is the adjoint pass on the gradient image, on the
    same native scene, with the same bounces, channels and sampler, and with
    the same number of samples: the pair that [forward] stores is always
    made of one integer twice. *)
Theorem backward_call_mirrors_forward_call (seed : Z) (args : list tensor)
    (w w1 w2 : World) (img grad_img : tensor) (ret_list : list (option tensor)) :
  forward seed args w = Some (img, w1) ->
  backward grad_img w1 = Some (ret_list, w2) ->
  exists fwd_call bwd_call,
    engine_calls w2 = engine_calls w ++ [fwd_call; bwd_call] /\
    redner.Call.rendered_image fwd_call = data_ptr img /\
    redner.Call.d_scene fwd_call = None /\
    redner.Call.d_rendered_image bwd_call = data_ptr grad_img /\
    redner.Call.d_scene bwd_call <> None /\
    redner.Call.scene bwd_call = redner.Call.scene fwd_call /\
    redner.RenderOptions.num_samples (redner.Call.options bwd_call) =
      redner.RenderOptions.num_samples (redner.Call.options fwd_call) /\
    redner.RenderOptions.max_bounces (redner.Call.options bwd_call) =
      redner.RenderOptions.max_bounces (redner.Call.options fwd_call) /\
    redner.RenderOptions.channels (redner.Call.options bwd_call) =
      redner.RenderOptions.channels (redner.Call.options fwd_call) /\
    redner.RenderOptions.sampler_type (redner.Call.options bwd_call) =
      redner.RenderOptions.sampler_type (redner.Call.options fwd_call).
Proof.
  unfold forward, backward. intros Hf Hb.
  destruct (unpack_arguments seed args 0) as [[u j]|] eqn:Hun; [|discriminate].
  destruct ((0 <=? fst (u_resolution u))%Z && (0 <=? snd (u_resolution u))%Z);
    [|discriminate].
  injection Hf as <- <-. cbn [__ctx ctx_forward engine_calls] in Hb.
  rewrite assemble_ret_list_blocks in Hb. injection Hb as _ <-.
  unfold unpack_arguments, bind in Hun.
  repeat match type of Hun with
         | context [match ?o with Some _ => _ | None => _ end] =>
             lazymatch o with
             | context [match _ with Some _ => _ | None => _ end] => fail
             | _ => destruct o as [[? ?]|]; [|discriminate]
             end
         end.
  unfold ret in Hun. injection Hun as <- _.
  eexists _, _. cbn [engine_calls]. rewrite <- app_assoc.
  split; [reflexivity|]. simpl.
  repeat split; try reflexivity; try discriminate.
  all: now destruct (negb _).
Qed.

End Retained.

(* ================================================================== *)
(** ** The camera, and the test for an absent buffer *)
(* ================================================================== *)

Section Camera.
Context {E : Engine}.
Variables (num_samples : NumSamples) (max_bounces : Z) (channels : list Channel)
          (sampler_type : SamplerType) (primary secondary : bool).

(** Round trip of the camera: after a scene is flattened and rendered, the
    native camera of the retained scene holds the addresses of the five
    camera tensors of the scene, its clip-near value rounded to single
    precision (the value went through a float32 tensor), and its resolution
    with the two entries exchanged (width is the second entry, height the
    first). *)
Theorem camera_round_trip (scene : pyredner.Scene.t) (w w1 w2 : World)
    (x0 img : tensor) (args : list tensor)
    (bwd : tensor -> World -> option (list (option tensor) * World)) :
  serialize_scene scene num_samples max_bounces channels sampler_type primary secondary w
    = Some (args, w1) ->
  render (x0 :: args) w1 = Some (img, bwd, w2) ->
  exists st,
    ctx_forward (__ctx w2) = Some st /\
    let camera := pyredner.Scene.camera scene in
    let native := redner.Scene.camera (ctx_scene st) in
    redner.Camera.position native = data_ptr (pyredner.Camera.position camera) /\
    redner.Camera.look_at native = data_ptr (pyredner.Camera.look_at camera) /\
    redner.Camera.up native = data_ptr (pyredner.Camera.up camera) /\
    redner.Camera.ndc_to_cam native = data_ptr (pyredner.Camera.ndc_to_cam camera) /\
    redner.Camera.cam_to_ndc native = data_ptr (pyredner.Camera.cam_to_ndc camera) /\
    redner.Camera.clip_near native = float32 (pyredner.Camera.clip_near camera) /\
    (redner.Camera.height native, redner.Camera.width native) =
      pyredner.Camera.resolution camera.
Proof.
  intros Hs Hr.
  edestruct flatten_render_inv as (seed & u & _ & Hu & Hctx & _);
    [exact Hs | exact Hr |].
  apply reconstruct_parts in Hu
    as (cam & shapes & mats & lights & renv & n & chs & sampler
        & Hcam & _ & _ & _ & _ & _ & ->).
  eexists. split; [exact Hctx|]. simpl.
  unfold rebuild_camera, unpack_camera, bind, next_arg, lift, ret in Hcam.
  simpl in Hcam. invert_options Hcam. injection Hcam as <-. simpl.
  destruct (pyredner.Camera.resolution (pyredner.Scene.camera scene)).
  repeat split; reflexivity.
Qed.

End Camera.

(** A tensor counts as absent exactly when one of its dimensions is zero:
    the test compares the number of elements with zero, so any tensor with
    an empty dimension, not only the placeholder that [serialize_scene]
    writes, is read by [forward] as a missing buffer or a missing
    environment map; a scalar never is. *)
Theorem is_empty_tensor_iff_zero_dimension (t : tensor) :
  is_empty_tensor t = true <-> In 0 (t_shape t).
Proof.
  unfold is_empty_tensor, tf_size. rewrite Nat.eqb_eq.
  induction (t_shape t) as [|d ds IH]; simpl.
  - split; [discriminate | contradiction].
  - rewrite Nat.eq_mul_0, IH. split; intros [H|H]; auto.
Qed.

(* ================================================================== *)
(** ** What no sequence of calls changes *)
(* ================================================================== *)

Section Invariants.
Context {E : Engine}.

Lemma call_step_inv (w w' : World) :
  call_step w w' ->
  use_correlated_random_number w' = use_correlated_random_number w /\
  (ctx_forward (__ctx w) <> None -> ctx_forward (__ctx w') <> None).
Proof.
  intros [v | scene ns mb chs st p s args w1 Hs | seed args img w1 Hf
          | x img bwd w1 Hr | g ret w1 Hb].
  - split; [reflexivity | auto].
  - apply serialize_scene_inv in Hs as (_ & _ & Hcorr & Hctx & _).
    split; [exact Hcorr | now rewrite Hctx].
  - apply forward_inv in Hf as (u & _ & Hctx & Hcorr & _).
    split; [exact Hcorr | intros _; now rewrite Hctx].
  - apply render_inv in Hr as (x0 & args & seed & _ & _ & Hf & _).
    apply forward_inv in Hf as (u & _ & Hctx & Hcorr & _).
    split; [exact Hcorr | intros _; now rewrite Hctx].
  - apply backward_inv in Hb as (ctx & ctx' & call & _ & _ & Hctx & Hcorr & _).
    split; [exact Hcorr | intros _; now rewrite Hctx].
Qed.

(** No sequence of successful calls of the module's functions, the setter
    included, changes what [get_use_correlated_random_number] returns: the
    toggle keeps the value it had when the module was loaded. *)
Theorem toggle_never_changes (w w' : World) :
  call_steps w w' ->
  get_use_correlated_random_number w' = get_use_correlated_random_number w.
Proof.
  unfold get_use_correlated_random_number.
  induction 1 as [w | w w1 w2 Hstep _ IH]; [reflexivity|].
  apply call_step_inv in Hstep as [Hcorr _]. now rewrite IH.
Qed.

(** Once [render] has returned, its closure can be called after any
    sequence of further successful calls: none of them removes the state
    that the closure reads. *)
Theorem closure_stays_callable (x : list tensor) (w w1 w2 : World)
    (img grad_img : tensor)
    (bwd : tensor -> World -> option (list (option tensor) * World)) :
  render x w = Some (img, bwd, w1) ->
  call_steps w1 w2 ->
  exists ret_list w3, bwd grad_img w2 = Some (ret_list, w3).
Proof.
  intros Hr Hsteps.
  apply render_inv in Hr as (x0 & args & seed & _ & _ & Hf & ->).
  apply forward_inv in Hf as (u & _ & Hctx & _).
  assert (Hsome : ctx_forward (__ctx w1) <> None) by now rewrite Hctx.
  clear Hctx. induction Hsteps as [w1 | w1 w1' w2 Hstep _ IH].
  - unfold backward. destruct (ctx_forward (__ctx w1)) as [ctx|]; [|contradiction].
    rewrite assemble_ret_list_blocks. eauto.
  - apply IH. now apply (call_step_inv Hstep).
Qed.

End Invariants.

(* ================================================================== *)
(** ** The further properties on the example scenes *)
(* ================================================================== *)

Section Illustrated.
Import Examples Scenarios.
#[local] Existing Instance Examples.engine.

Lemma forward_needs_its_arguments_witness :
  exists st,
    ctx_forward (__ctx (rendered lit_scene)) = Some st /\
    arguments_read st <= length (args_of lit_scene) /\
    24 <= length (args_of lit_scene).
Proof.
  apply (@forward_needs_its_arguments engine 7%Z (args_of lit_scene) (flattened lit_scene)
           (rendered lit_scene) (image_of lit_scene)).
  vm_compute; reflexivity.
Defined.

Lemma serialize_scene_length_witness :
  length (args_of lit_scene) = 24 + 6 * 2 + 7 * 1 + 3 * 1 + 1.
Proof.
  apply (@serialize_scene_length engine (Samples 4) 1%Z [radiance] independent true true
           lit_scene world0 (flattened lit_scene) (args_of lit_scene)).
  vm_compute; reflexivity.
Defined.

Lemma forward_reads_whole_flattened_list_witness :
  exists st,
    ctx_forward (__ctx (rendered lit_scene)) = Some st /\
    arguments_read st = length (args_of lit_scene).
Proof.
  apply (@forward_reads_whole_flattened_list engine (Samples 4) 1%Z [radiance] independent
           true true lit_scene world0 (flattened lit_scene) (rendered lit_scene) seed_arg
           (image_of lit_scene) (args_of lit_scene) backward);
    vm_compute; reflexivity.
Defined.

Lemma forward_ignores_trailing_arguments_witness :
  forward 7 (args_of lit_scene ++ [stray]) (flattened lit_scene)
    = Some (image_of lit_scene, rendered lit_scene).
Proof.
  apply (@forward_ignores_trailing_arguments engine 7%Z (args_of lit_scene) [stray]
           (flattened lit_scene) (rendered lit_scene) (image_of lit_scene)).
  vm_compute; reflexivity.
Defined.

Lemma shapes_round_trip_witness :
  exists st,
    ctx_forward (__ctx (rendered lit_scene)) = Some st /\
    length (ctx_shapes st) = 2 /\
    nth_error (ctx_shapes st) 1 = Some (redner.Shape.mk 4096 4096 0 0 3 1 0 0).
Proof.
  destruct (@shapes_round_trip engine (Samples 4) 1%Z [radiance] independent
              true true lit_scene world0 (flattened lit_scene) (rendered lit_scene) seed_arg
              (image_of lit_scene) (args_of lit_scene) backward)
    as (st & Hst & Hlen & Hk); [vm_compute; reflexivity | vm_compute; reflexivity |].
  exists st. split; [exact Hst|]. split; [exact Hlen|].
  destruct (Hk 1 1 eq_refl) as (nv & nt & Hnv & Hnt & Hnth).
  vm_compute in Hnv, Hnt. injection Hnv as <-. injection Hnt as <-. exact Hnth.
Defined.

Lemma lights_round_trip_witness :
  exists st,
    ctx_forward (__ctx (rendered lit_scene)) = Some st /\
    ctx_area_lights st = [redner.AreaLight.mk 1 4096 false].
Proof.
  apply (@lights_round_trip engine (Samples 4) 1%Z [radiance] independent
           true true lit_scene world0 (flattened lit_scene) (rendered lit_scene) seed_arg
           (image_of lit_scene) (args_of lit_scene) backward);
    vm_compute; reflexivity.
Defined.

Lemma materials_round_trip_witness :
  exists st,
    ctx_forward (__ctx (rendered lit_scene)) = Some st /\
    length (ctx_materials st) = 1 /\
    exists rm,
      nth_error (ctx_materials st) 0 = Some rm /\
      redner.Material.two_sided rm = true /\
      texture3_from (ones [2; 2; 2; 3]) (ones [2]) (redner.Material.diffuse_reflectance rm).
Proof.
  destruct (@materials_round_trip engine (Samples 4) 1%Z [radiance] independent
              true true lit_scene world0 (flattened lit_scene) (rendered lit_scene) seed_arg
              (image_of lit_scene) (args_of lit_scene) backward)
    as (st & Hst & Hlen & Hk); [vm_compute; reflexivity | vm_compute; reflexivity |].
  exists st. split; [exact Hst|]. split; [exact Hlen|].
  destruct (Hk 0 material eq_refl) as (rm & Hnth & Hts & Hd & _).
  exists rm. split; [exact Hnth|]. split; [exact Hts | exact Hd].
Defined.

Lemma options_round_trip_witness :
  exists st n,
    ctx_forward (__ctx (rendered lit_scene)) = Some st /\
    Samples 4 = Samples n /\
    py_int seed_arg = Some (redner.RenderOptions.seed (ctx_options st)) /\
    redner.RenderOptions.num_samples (ctx_options st) = n /\
    redner.RenderOptions.max_bounces (ctx_options st) = 1%Z /\
    ctx_num_samples st = (n, n) /\
    ctx_num_channels st = Z.of_nat (length [radiance]).
Proof.
  apply (@options_round_trip engine (Samples 4) 1%Z [radiance] independent
           true true lit_scene world0 (flattened lit_scene) (rendered lit_scene) seed_arg
           (image_of lit_scene) (args_of lit_scene) backward);
    vm_compute; reflexivity.
Defined.

Lemma image_shape_witness :
  (0 <= 2)%Z /\ (0 <= 4)%Z /\
  exists st,
    ctx_forward (__ctx (rendered lit_scene)) = Some st /\
    image_of lit_scene =
      np_zeros [2; 4; compute_num_channels
                        (redner.RenderOptions.channels (ctx_options st))] /\
    redner.Camera.width (redner.Scene.camera (ctx_scene st)) = 4%Z /\
    redner.Camera.height (redner.Scene.camera (ctx_scene st)) = 2%Z.
Proof.
  apply (@image_shape engine (Samples 4) 1%Z [radiance] independent
           true true lit_scene world0 (flattened lit_scene) (rendered lit_scene) seed_arg
           (image_of lit_scene) (args_of lit_scene) backward);
    vm_compute; reflexivity.
Defined.

Lemma envmap_retained_witness :
  exists st,
    ctx_forward (__ctx (rendered lit_scene)) = Some st /\
    (ctx_envmap st = None <-> is_empty_tensor (ones [2; 2; 4; 3]) = true).
Proof.
  apply (@envmap_retained_iff_radiance_not_empty engine (Samples 4) 1%Z [radiance]
           independent true true lit_scene world0 (flattened lit_scene)
           (rendered lit_scene) seed_arg (image_of lit_scene) (args_of lit_scene) backward);
    vm_compute; reflexivity.
Defined.

Lemma last_attached_light_wins_witness :
  (pyredner.Shape.light_id (shape_objects (flattened doubly_lit_scene) 0)
     = pyredner.Shape.light_id (shape_objects world0 0)
   /\ forall l, In l (pyredner.Scene.area_lights doubly_lit_scene) ->
                light_target doubly_lit_scene l <> Some 0)
  \/
  (exists before light after,
     pyredner.Scene.area_lights doubly_lit_scene = before ++ light :: after /\
     light_target doubly_lit_scene light = Some 0 /\
     (forall l, In l after -> light_target doubly_lit_scene l <> Some 0) /\
     pyredner.Shape.light_id (shape_objects (flattened doubly_lit_scene) 0)
       = Z.of_nat (length before)).
Proof.
  apply (@last_attached_light_wins engine (Samples 4) 1%Z [radiance] independent true true
           doubly_lit_scene world0 (flattened doubly_lit_scene)
           (args_of doubly_lit_scene) 0).
  vm_compute; reflexivity.
Defined.

Lemma serialize_scene_idempotent_witness :
  exists w2,
    flatten doubly_lit_scene (flattened doubly_lit_scene)
      = Some (args_of doubly_lit_scene, w2) /\
    forall r, shape_objects w2 r = shape_objects (flattened doubly_lit_scene) r.
Proof.
  apply (@serialize_scene_idempotent engine (Samples 4) 1%Z [radiance] independent true true
           doubly_lit_scene world0 (flattened doubly_lit_scene)
           (args_of doubly_lit_scene)).
  vm_compute; reflexivity.
Defined.

Lemma backward_list_counts_witness :
  exists st,
    ctx_forward (__ctx (rendered lit_scene)) = Some st /\
    length (gradients_of lit_scene) = S (arguments_read st) /\
    length (gradients_of lit_scene) <= length (seed_arg :: args_of lit_scene ++ [stray]).
Proof.
  apply (@backward_list_counts_arguments_read engine
           (seed_arg :: args_of lit_scene ++ [stray]) (flattened lit_scene)
           (rendered lit_scene) (differentiated lit_scene) (image_of lit_scene) grad_img
           backward (gradients_of lit_scene));
    vm_compute; reflexivity.
Defined.

Lemma backward_repeats_its_layout_witness :
  exists w2, backward (ones [2; 4; 3]) (differentiated lit_scene)
             = Some (gradients_of lit_scene, w2).
Proof.
  apply (@backward_repeats_its_layout engine grad_img (ones [2; 4; 3]) (rendered lit_scene)
           (differentiated lit_scene) (gradients_of lit_scene)).
  vm_compute; reflexivity.
Defined.

Lemma closure_follows_latest_forward_witness :
  backward grad_img bare_rendered_after_lit
    = Some (gradients_after_both, differentiated_after_both) /\
  length gradients_after_both = S (length bare_args_after_lit).
Proof.
  apply (@closure_follows_latest_forward engine
           (Samples 4) 1%Z [radiance] independent true true
           (Samples 4) 1%Z [radiance] independent true true
           lit_scene bare_scene world0 (flattened lit_scene) (rendered lit_scene)
           bare_flattened_after_lit bare_rendered_after_lit differentiated_after_both
           seed_arg seed_arg (image_of lit_scene) (image_of bare_scene) grad_img
           (args_of lit_scene) bare_args_after_lit backward backward gradients_after_both);
    vm_compute; reflexivity.
Defined.

Lemma serialize_scene_keeps_retained_state_witness :
  exists wb,
    backward grad_img bare_flattened_after_lit = Some (gradients_of lit_scene, wb) /\
    engine_calls wb = engine_calls (differentiated lit_scene) /\
    ctx_forward (__ctx wb) = ctx_forward (__ctx (differentiated lit_scene)).
Proof.
  apply (@serialize_scene_keeps_retained_state engine
           (Samples 4) 1%Z [radiance] independent true true
           bare_scene (rendered lit_scene) bare_flattened_after_lit
           (differentiated lit_scene) grad_img bare_args_after_lit (gradients_of lit_scene));
    vm_compute; reflexivity.
Defined.

Lemma pair_of_sample_counts_witness :
  forward 7 pair_args pair_flattened = None.
Proof.
  apply (@pair_of_sample_counts_makes_forward_raise engine 1%Z [radiance] independent
           true true lit_scene world0 pair_flattened pair_flattened 4%Z 8%Z 7%Z pair_args).
  vm_compute; reflexivity.
Defined.

Lemma texture_gradient_shape_witness :
  d_diffuse_of odd_material = np_zeros [2; 5; 4; 3] /\
  d_specular_of odd_material = np_zeros [3] /\
  d_roughness_of odd_material = np_zeros [1].
Proof.
  apply (@texture_gradient_shape engine odd_material_args 0 7
           (ones [2; 5; 4; 4]) (ones [2]) (ones [3]) (ones [2]) (ones [1; 2; 0; 1])
           (ones [2]) (tf_constant_bool true) [] odd_material);
    vm_compute; reflexivity.
Defined.

Lemma backward_call_mirrors_witness :
  exists fwd_call bwd_call,
    engine_calls (differentiated lit_scene) = engine_calls (flattened lit_scene)
                                              ++ [fwd_call; bwd_call] /\
    redner.Call.rendered_image fwd_call = data_ptr (image_of lit_scene) /\
    redner.Call.d_scene fwd_call = None /\
    redner.Call.d_rendered_image bwd_call = data_ptr grad_img /\
    redner.Call.d_scene bwd_call <> None /\
    redner.Call.scene bwd_call = redner.Call.scene fwd_call /\
    redner.RenderOptions.num_samples (redner.Call.options bwd_call) =
      redner.RenderOptions.num_samples (redner.Call.options fwd_call) /\
    redner.RenderOptions.max_bounces (redner.Call.options bwd_call) =
      redner.RenderOptions.max_bounces (redner.Call.options fwd_call) /\
    redner.RenderOptions.channels (redner.Call.options bwd_call) =
      redner.RenderOptions.channels (redner.Call.options fwd_call) /\
    redner.RenderOptions.sampler_type (redner.Call.options bwd_call) =
      redner.RenderOptions.sampler_type (redner.Call.options fwd_call).
Proof.
  apply (@backward_call_mirrors_forward_call engine 7%Z (args_of lit_scene)
           (flattened lit_scene) (rendered lit_scene) (differentiated lit_scene)
           (image_of lit_scene) grad_img (gradients_of lit_scene));
    vm_compute; reflexivity.
Defined.

Lemma camera_round_trip_witness :
  exists st,
    ctx_forward (__ctx near_rendered) = Some st /\
    redner.Camera.position (redner.Scene.camera (ctx_scene st)) = 4096%Z /\
    redner.Camera.clip_near (redner.Scene.camera (ctx_scene st))
      = (13421773 # 134217728)%Q /\
    (redner.Camera.height (redner.Scene.camera (ctx_scene st)),
     redner.Camera.width (redner.Scene.camera (ctx_scene st))) = (2%Z, 4%Z).
Proof.
  destruct (@camera_round_trip engine (Samples 4) 1%Z [radiance] independent
              true true near_scene world0 near_flattened near_rendered seed_arg
              near_image near_args backward)
    as (st & Hst & Hpos & _ & _ & _ & _ & Hclip & Hres);
    [vm_compute; reflexivity | vm_compute; reflexivity |].
  exists st. split; [exact Hst|]. split; [exact Hpos|]. split; [exact Hclip | exact Hres].
Defined.

(** One bounce too many for a 64-bit integer: [tf.constant] refuses 2^63
    and nothing is flattened. *)
Example out_of_range_bounces_raise :
  serialize_scene bare_scene (Samples 4) (2 ^ 63) [radiance] independent true true world0
    = None.
Proof. vm_compute. reflexivity. Qed.

Lemma setter_then_run : call_steps world0 (differentiated lit_scene).
Proof.
  apply calls_then with (w1 := world0); [exact (call_set world0 true)|].
  apply calls_then with (w1 := flattened lit_scene).
  { apply (@call_serialize_scene engine world0 lit_scene (Samples 4) 1%Z [radiance]
             independent true true (args_of lit_scene)).
    vm_compute; reflexivity. }
  apply calls_then with (w1 := rendered lit_scene).
  { apply (@call_render engine (flattened lit_scene) (seed_arg :: args_of lit_scene)
             (image_of lit_scene) backward).
    vm_compute; reflexivity. }
  apply calls_then with (w1 := differentiated lit_scene).
  { apply (@call_backward engine (rendered lit_scene) grad_img (gradients_of lit_scene)).
    vm_compute; reflexivity. }
  apply calls_done.
Qed.

Lemma toggle_never_changes_witness :
  get_use_correlated_random_number (differentiated lit_scene)
    = get_use_correlated_random_number world0.
Proof.
  apply (@toggle_never_changes engine world0 (differentiated lit_scene)).
  exact setter_then_run.
Defined.

Lemma flatten_then_differentiate :
  call_steps (rendered lit_scene) differentiated_after_both.
Proof.
  apply calls_then with (w1 := bare_flattened_after_lit).
  { apply (@call_serialize_scene engine (rendered lit_scene) bare_scene (Samples 4) 1%Z
             [radiance] independent true true bare_args_after_lit).
    vm_compute; reflexivity. }
  apply calls_then with (w1 := bare_rendered_after_lit).
  { apply (@call_render engine bare_flattened_after_lit (seed_arg :: bare_args_after_lit)
             (image_of bare_scene) backward).
    vm_compute; reflexivity. }
  apply calls_then with (w1 := differentiated_after_both).
  { apply (@call_backward engine bare_rendered_after_lit grad_img gradients_after_both).
    vm_compute; reflexivity. }
  apply calls_done.
Qed.

Lemma closure_stays_callable_witness :
  exists ret_list w3, backward grad_img differentiated_after_both = Some (ret_list, w3).
Proof.
  apply (@closure_stays_callable engine (seed_arg :: args_of lit_scene)
           (flattened lit_scene) (rendered lit_scene) differentiated_after_both
           (image_of lit_scene) grad_img backward).
  - vm_compute; reflexivity.
  - exact flatten_then_differentiate.
Defined.

End Illustrated.
